(** * react-inlinesvg: the InlineSVG component (src/index.tsx)

    A shallow embedding of the component's load pipeline: the process-wide
    request cache [cacheStore], the per-instance state machine
    ([load], [handleLoad], [handleError], [request], [getNode],
    [getElement]) and the attribute rewriting of [updateSVGAttributes].

    JavaScript strings are sequences of UTF-16 code units; they are
    modelled as [list N].  The host functions the component calls
    ([String.prototype.indexOf], [match] with the three regular expressions
    of the source, [replace], [split], [atob], [decodeURIComponent]) are
    written out below as far as the component uses them. *)

From Stdlib Require Import NArith ZArith Bool Lia Ascii.
From stdpp Require Import strings gmap list.

Local Open Scope Z_scope.

(** ** JavaScript strings *)

Abbreviation jsstring := (list N).

Definition lit (s : string) : jsstring :=
  map N_of_ascii (String.list_ascii_of_string s).
Arguments lit _%_string.

Definition chr (a : ascii) : N := N_of_ascii a.
Arguments chr _%_char.

(** [!!s] for a string: the empty string is the only falsy one. *)
Definition truthy (s : jsstring) : bool :=
  match s with [] => false | _ :: _ => true end.

Definition str_eqb (a b : jsstring) : bool := bool_decide (a = b).

Fixpoint starts_with (p s : jsstring) : bool :=
  match p, s with
  | [], _ => true
  | _ :: _, [] => false
  | a :: p', b :: s' => N.eqb a b && starts_with p' s'
  end.

(** [s.indexOf(p)]: position of the first occurrence, [-1] when absent. *)
Fixpoint indexOf_from (i : Z) (s p : jsstring) : Z :=
  if starts_with p s then i
  else match s with
       | [] => -1
       | _ :: s' => indexOf_from (i + 1) s' p
       end.

Definition indexOf (s p : jsstring) : Z := indexOf_from 0 s p.

(** [xs.indexOf(x)] on an array of strings (strict equality). *)
Fixpoint array_indexOf_from (i : Z) (xs : list jsstring) (x : jsstring) : Z :=
  match xs with
  | [] => -1
  | y :: ys => if str_eqb y x then i else array_indexOf_from (i + 1) ys x
  end.

Definition array_indexOf (xs : list jsstring) (x : jsstring) : Z :=
  array_indexOf_from 0 xs x.

(** First occurrence of [p] in [s], as the text before and after it. *)
Fixpoint split_first (s p : jsstring) : option (jsstring * jsstring) :=
  if starts_with p s then Some ([], drop (length p) s)
  else match s with
       | [] => None
       | c :: s' =>
           match split_first s' p with
           | Some (before, after) => Some (c :: before, after)
           | None => None
           end
       end.

(** The line terminators, which [.] of a regular expression does not match. *)
Definition is_line_terminator (c : N) : bool :=
  N.eqb c 10 || N.eqb c 13 || N.eqb c 8232 || N.eqb c 8233.

(** *** [String.prototype.replace] with a string pattern

    The replacement text is expanded by GetSubstitution: with a string
    pattern there are no captures, so only [$$], [$&], [$`] and [$'] are
    special and every other [$] stands for itself. *)
Fixpoint getSubstitution (matched before after repl : jsstring) : jsstring :=
  match repl with
  | [] => []
  | c :: r =>
      if N.eqb c (chr "$") then
        match r with
        | [] => [c]
        | d :: r' =>
            if N.eqb d (chr "$") then chr "$" :: getSubstitution matched before after r'
            else if N.eqb d (chr "&") then matched ++ getSubstitution matched before after r'
            else if N.eqb d (chr "`") then before ++ getSubstitution matched before after r'
            else if N.eqb d (chr "'") then after ++ getSubstitution matched before after r'
            else c :: getSubstitution matched before after r
        end
      else c :: getSubstitution matched before after r
  end.

Definition js_replace (s pattern repl : jsstring) : jsstring :=
  match split_first s pattern with
  | Some (before, after) =>
      before ++ getSubstitution pattern before after repl ++ after
  | None => s
  end.

(** *** The [url(...)] pattern of [updateSVGAttributes]

    The leftmost [url(] that is followed, with no line terminator in
    between, by a [)]; the group is the text up to the first such [)].
    The result is the group [match[1]]; [match[0]] is [url(] group [)]. *)
Fixpoint lazy_until_rparen (s : jsstring) : option jsstring :=
  match s with
  | [] => None
  | c :: s' =>
      if N.eqb c (chr ")") then Some []
      else if is_line_terminator c then None
      else match lazy_until_rparen s' with
           | Some g => Some (c :: g)
           | None => None
           end
  end.

Fixpoint match_url (s : jsstring) : option jsstring :=
  match (if starts_with (lit "url(") s
         then lazy_until_rparen (drop 4 s) else None) with
  | Some g => Some g
  | None => match s with
            | [] => None
            | _ :: s' => match_url s'
            end
  end.

(** *** The data-URI pattern of [load]

    [src.match] with the expression [data:image\/svg], a lazy run of
    characters other than the comma, the optional group [;base64], a comma,
    and a greedy group of any characters.

    After the leftmost [data:image/svg] the text up to the first comma is
    taken; group 1 takes part exactly when that text ends in [;base64];
    group 2 is the rest of the line after the comma. *)
Fixpoint until_comma (s : jsstring) : option (jsstring * jsstring) :=
  match s with
  | [] => None
  | c :: s' =>
      if N.eqb c (chr ",") then Some ([], s')
      else match until_comma s' with
           | Some (t, r) => Some (c :: t, r)
           | None => None
           end
  end.

Fixpoint dot_star (s : jsstring) : jsstring :=
  match s with
  | [] => []
  | c :: s' => if is_line_terminator c then [] else c :: dot_star s'
  end.

Definition ends_with (s p : jsstring) : bool :=
  starts_with (reverse p) (reverse s).

Fixpoint match_dataURI (s : jsstring) : option (bool * jsstring) :=
  match (if starts_with (lit "data:image/svg") s
         then until_comma (drop 14 s) else None) with
  | Some (t, r) => Some (ends_with t (lit ";base64"), dot_star r)
  | None => match s with
            | [] => None
            | _ :: s' => match_dataURI s'
            end
  end.

(** *** [contentType.split(/ ?; ?/)[0]]

    The text before the first [;], less one blank directly before it. *)
Fixpoint split_semicolon_first (s : jsstring) : jsstring :=
  match s with
  | [] => []
  | c :: s' =>
      if N.eqb c (chr ";") then []
      else if N.eqb c (chr " ") && starts_with (lit ";") s' then []
      else c :: split_semicolon_first s'
  end.

(** *** [atob]

    The forgiving-base64 decoding of the HTML standard.  [None] stands for
    the [InvalidCharacterError] exception. *)
Definition is_ascii_whitespace (c : N) : bool :=
  N.eqb c 9 || N.eqb c 10 || N.eqb c 12 || N.eqb c 13 || N.eqb c 32.

Definition base64_value (c : N) : option N :=
  if N.leb 65 c && N.leb c 90 then Some (c - 65)%N
  else if N.leb 97 c && N.leb c 122 then Some (c - 71)%N
  else if N.leb 48 c && N.leb c 57 then Some (c + 4)%N
  else if N.eqb c 43 then Some 62%N
  else if N.eqb c 47 then Some 63%N
  else None.

Fixpoint base64_values (s : jsstring) : option (list N) :=
  match s with
  | [] => Some []
  | c :: s' =>
      match base64_value c, base64_values s' with
      | Some v, Some vs => Some (v :: vs)
      | _, _ => None
      end
  end.

(** Remove one or two trailing [=]. *)
Definition strip_padding (s : jsstring) : jsstring :=
  match reverse s with
  | a :: b :: r =>
      if N.eqb a 61 then (if N.eqb b 61 then reverse r else reverse (b :: r))
      else s
  | [a] => if N.eqb a 61 then [] else s
  | [] => s
  end.

Fixpoint base64_groups (vs : list N) : list N :=
  match vs with
  | a :: b :: c :: d :: rest =>
      let n := (a * 262144 + b * 4096 + c * 64 + d)%N in
      (n / 65536)%N :: ((n / 256) mod 256)%N :: (n mod 256)%N :: base64_groups rest
  | [a; b; c] =>
      let n := ((a * 4096 + b * 64 + c) / 4)%N in
      [(n / 256)%N; (n mod 256)%N]
  | [a; b] => [((a * 64 + b) / 16)%N]
  | _ => []
  end.

Definition atob (s : jsstring) : option jsstring :=
  let data := filter (fun c => is_ascii_whitespace c = false) s in
  let data := if Nat.eqb (length data mod 4) 0 then strip_padding data else data in
  if Nat.eqb (length data mod 4) 1 then None
  else match base64_values data with
       | Some vs => Some (base64_groups vs)
       | None => None
       end.

(** *** [decodeURIComponent]

    Decode of ECMA-262 with an empty reserved set: every [%XX] is an
    octet, octets with the high bit set must form well-formed UTF-8, and
    the code point is written as one or two UTF-16 code units.  [None]
    stands for the [URIError] exception.  [need] counts the continuation
    octets still expected, [n] is the length of the sequence and [acc] the
    bits collected so far. *)
Definition hex_value (c : N) : option N :=
  if N.leb 48 c && N.leb c 57 then Some (c - 48)%N
  else if N.leb 65 c && N.leb c 70 then Some (c - 55)%N
  else if N.leb 97 c && N.leb c 102 then Some (c - 87)%N
  else None.

Definition utf8_scalar_ok (n v : N) : bool :=
  (match n with
   | 2%N => N.leb 128 v
   | 3%N => N.leb 2048 v
   | _ => N.leb 65536 v
   end)
  && negb (N.leb 55296 v && N.leb v 57343)
  && N.leb v 1114111.

Definition utf16_encode (v : N) : jsstring :=
  if N.ltb v 65536 then [v]
  else [(55296 + (v - 65536) / 1024)%N; (56320 + (v - 65536) mod 1024)%N].

Fixpoint decode_from (need : nat) (n acc : N) (s : jsstring) : option jsstring :=
  match s with
  | [] => match need with O => Some [] | S _ => None end
  | c :: s1 =>
      if N.eqb c (chr "%") then
        match s1 with
        | h1 :: h2 :: rest =>
            match hex_value h1, hex_value h2 with
            | Some a, Some b =>
                let B := (16 * a + b)%N in
                match need with
                | O =>
                    if N.ltb B 128 then cons B <$> decode_from 0 0 0 rest
                    else if N.ltb B 192 then None
                    else if N.ltb B 224 then decode_from 1 2 (B - 192) rest
                    else if N.ltb B 240 then decode_from 2 3 (B - 224) rest
                    else if N.ltb B 248 then decode_from 3 4 (B - 240) rest
                    else None
                | S need' =>
                    if N.leb 128 B && N.ltb B 192 then
                      let acc' := (acc * 64 + (B - 128))%N in
                      match need' with
                      | O =>
                          if utf8_scalar_ok n acc'
                          then app (utf16_encode acc') <$> decode_from 0 0 0 rest
                          else None
                      | S _ => decode_from need' n acc' rest
                      end
                    else None
                end
            | _, _ => None
            end
        | _ => None
        end
      else match need with
           | O => cons c <$> decode_from 0 0 0 s1
           | S _ => None
           end
  end.

Definition decodeURIComponent (s : jsstring) : option jsstring :=
  decode_from 0 0 0 s.

(** ** Errors and results *)

(** [InlineSVGError] is the class of ./helpers; every other error object
    (a rejected fetch, an exception of a collaborator) is [NativeError]. *)
Inductive ErrorClass := InlineSVGError | NativeError.

Record Error := { err_class : ErrorClass; message : jsstring }.

Inductive outcome (A : Type) :=
| Return (a : A)
| Throw (e : Error).
Arguments Return {A} a.
Arguments Throw {A} e.

(** ** Documents *)

Module Attr.
Record t := { name : jsstring; value : jsstring }.
End Attr.

(** An element has a tag, attributes and child nodes.  The model has no
    namespaces: the SVG root is the element whose tag is [svg]. *)
#[warnings="-register-all"]
Inductive Node :=
| Element (tagName : jsstring) (attributes : list Attr.t) (childNodes : list Node)
| Text (data : jsstring).

(** React elements are represented by the document tree they render. *)
Abbreviation ReactElement := Node (only parsing).

Definition is_element (n : Node) : bool :=
  match n with Element _ _ _ => true | Text _ => false end.

(** [d.children.length]: whether the node has element children. *)
Definition has_children (n : Node) : bool :=
  match n with
  | Element _ _ c => existsb is_element c
  | Text _ => false
  end.

Definition set_attributes (attrs : list Attr.t) (n : Node) : Node :=
  match n with
  | Element t _ c => Element t attrs c
  | Text _ => n
  end.

(** [node instanceof SVGSVGElement] *)
Definition isSVGSVGElement (n : Node) : bool :=
  match n with
  | Element t _ _ => str_eqb t (lit "svg")
  | Text _ => false
  end.

(** ** Props, state, cache entries *)

Inductive STATUS := FAILED | LOADED | LOADING | PENDING | READY | UNSUPPORTED.

Definition status_eqb (a b : STATUS) : bool :=
  match a, b with
  | FAILED, FAILED | LOADED, LOADED | LOADING, LOADING
  | PENDING, PENDING | READY, READY | UNSUPPORTED, UNSUPPORTED => true
  | _, _ => false
  end.

(** The props after [defaultProps]; an optional prop that is left out is
    [None], [onError] and [onLoad] record whether a function was given,
    and a [src] that is left out is the empty string, which is falsy as
    [undefined] is. *)
Module IProps.
Record t := {
  baseURL : option jsstring;
  cacheRequests : bool;
  description : option jsstring;
  onError : bool;
  onLoad : bool;
  preProcessor : option (jsstring -> outcome jsstring);
  src : jsstring;
  title : option jsstring;
  uniqueHash : option jsstring;
  uniquifyIDs : bool;
}.
End IProps.

Module IState.
Record t := {
  content : jsstring;
  element : option ReactElement;
  hasCache : bool;
  status : STATUS;
}.
End IState.

(** The callbacks of a queue are the [handleLoad] of instances; an entry
    of the queue is the number of the instance. *)
Module IStorageItem.
Record t := {
  content : jsstring;
  queue : list nat;
  status : STATUS;
}.
End IStorageItem.

Definition opt_truthy (o : option jsstring) : bool :=
  match o with Some s => truthy s | None => false end.

(** ** [updateSVGAttributes] *)

Definition replaceableAttributes : list jsstring :=
  [lit "id"; lit "href"; lit "xlink:href"; lit "xlink:role"; lit "xlink:arcrole"].

Definition linkAttributes : list jsstring := [lit "href"; lit "xlink:href"].

Definition isDataValue (name value : jsstring) : bool :=
  (0 <=? array_indexOf linkAttributes name)
  && (if truthy value then indexOf value (lit "#") <? 0 else false).

(** The body of the [map] over [Object.values(d.attributes)]. *)
Definition rewrite_url (baseURL hash : jsstring) (a : Attr.t) : Attr.t :=
  match match_url (Attr.value a) with
  | Some g =>
      if truthy g then
        {| Attr.name := Attr.name a;
           Attr.value :=
             js_replace (Attr.value a) (lit "url(" ++ g ++ lit ")")
               (lit "url(" ++ baseURL ++ g ++ lit "__" ++ hash ++ lit ")") |}
      else a
  | None => a
  end.

(** The body of [replaceableAttributes.forEach]: the first attribute named
    [r], when there is one and it is no data value, gets the suffix. *)
Fixpoint suffix_attribute (hash r : jsstring) (attrs : list Attr.t) : list Attr.t :=
  match attrs with
  | [] => []
  | a :: rest =>
      if str_eqb (Attr.name a) r then
        (if isDataValue r (Attr.value a) then a
         else {| Attr.name := Attr.name a;
                 Attr.value := Attr.value a ++ lit "__" ++ hash |}) :: rest
      else a :: suffix_attribute hash r rest
  end.

Definition update_attributes (baseURL hash : jsstring) (attrs : list Attr.t)
  : list Attr.t :=
  fold_left (fun acc r => suffix_attribute hash r acc) replaceableAttributes
    (map (rewrite_url baseURL hash) attrs).

Fixpoint updateSVGAttributes (props : IProps.t) (hash : jsstring) (node : Node)
  : Node :=
  if negb (IProps.uniquifyIDs props) then node
  else
    match node with
    | Element tag attrs children =>
        Element tag attrs
          (map (fun d =>
                  match d with
                  | Element _ a _ =>
                      let a' :=
                        match a with
                        | [] => a
                        | _ :: _ =>
                            update_attributes (default [] (IProps.baseURL props)) hash a
                        end in
                      set_attributes a'
                        (if has_children d then updateSVGAttributes props hash d
                         else d)
                  | Text _ => d
                  end) children)
    | Text _ => node
    end.

(** ** The title and description of [getNode] *)

Definition is_named (tag : jsstring) (n : Node) : bool :=
  match n with
  | Element t _ _ => str_eqb t tag
  | Text _ => false
  end.

(** [svg.querySelector(tag)] followed by [parentNode.removeChild]: the
    first descendant in document order is taken out; [None] when there
    is none. *)
Fixpoint remove_first (tag : jsstring) (n : Node) : option Node :=
  match n with
  | Element t a c =>
      option_map (Element t a)
        ((fix among (ns : list Node) : option (list Node) :=
            match ns with
            | [] => None
            | d :: ds =>
                if is_named tag d then Some ds
                else match remove_first tag d with
                     | Some d' => Some (d' :: ds)
                     | None => option_map (cons d) (among ds)
                     end
            end) c)
  | Text _ => None
  end.

Definition prepend (child : Node) (n : Node) : Node :=
  match n with
  | Element t a c => Element t a (child :: c)
  | Text _ => n
  end.

(** ** The host *)

(** What the component takes from its surroundings: [canUseDOM] and
    [isSupportedEnvironment] of ./helpers, the build flag of
    [process.env.NODE_ENV], [convert] of react-from-dom in its two uses
    (for [convert_node] the result [None] is [null] or a value that is no
    valid React element; its argument is [None] when [getNode] returned
    [undefined]), the parsing done by the [innerHTML] setter, and the
    global [fetch]: [fetch_throws src] is the exception the call
    [fetch(src)] raises before it returns a promise, as it does on a host
    that has no [fetch], and [None] when the call returns its promise
    ([isSupportedEnvironment] does not ask for [fetch]). *)
Record Host := {
  canUseDOM : bool;
  isSupportedEnvironment : bool;
  production : bool;
  convert_text : jsstring -> outcome (option Node);
  convert_node : option Node -> outcome (option ReactElement);
  innerHTML : jsstring -> list Node;
  fetch_throws : jsstring -> option Error;
}.

(** ** Instances, requests and the world *)

(** The phase of the React lifecycle an instance is in.  React 16, the
    version of package.json, calls [componentDidMount] once, on a
    constructed instance, and never calls a lifecycle method of an
    instance it has unmounted. *)
Inductive Lifecycle := Constructed | Mounted | Unmounted.

Record Instance := {
  props : IProps.t;
  state : IState.t;
  isActive : bool;
  hash : jsstring;
  lifecycle : Lifecycle;
}.

(** A fetch that has not settled, with what the closures of [request]
    hold: the instance, [src] and [cacheRequests]. *)
Record Request := {
  req_owner : nat;
  req_src : jsstring;
  req_cacheRequests : bool;
}.

(** What the component does to the outside, in the order it happens. *)
Inductive Effect :=
| SetState (c : nat) (st : IState.t)
| CallHandleLoad (c : nat) (content : jsstring)
| OnError (c : nat) (e : Error)
| OnLoad (c : nat) (src : jsstring) (isCached : bool)
| ConsoleError (e : Error)
| FetchIssued (id : nat) (src : jsstring)
| Uncaught (c : nat).

(** The world: the cache, the instances, the calls of [fetch] whose
    promise has not settled ([inflight], by the number of the call) and
    the number of calls of [fetch] made so far ([issued]); [FetchIssued]
    records a call, whether it returns a promise or raises. *)
Record World := {
  cacheStore : gmap jsstring IStorageItem.t;
  instances : gmap nat Instance;
  inflight : gmap nat Request;
  issued : nat;
  log : list Effect;
}.

Definition init_world : World :=
  {| cacheStore := ∅; instances := ∅; inflight := ∅; issued := 0; log := [] |}.

Definition set_cacheStore (f : gmap jsstring IStorageItem.t -> gmap jsstring IStorageItem.t)
  (w : World) : World :=
  {| cacheStore := f (cacheStore w); instances := instances w;
     inflight := inflight w; issued := issued w; log := log w |}.

Definition set_instances (f : gmap nat Instance -> gmap nat Instance) (w : World)
  : World :=
  {| cacheStore := cacheStore w; instances := f (instances w);
     inflight := inflight w; issued := issued w; log := log w |}.

Definition set_inflight (f : gmap nat Request -> gmap nat Request) (w : World)
  : World :=
  {| cacheStore := cacheStore w; instances := instances w;
     inflight := f (inflight w); issued := issued w; log := log w |}.

Definition emit (e : Effect) (w : World) : World :=
  {| cacheStore := cacheStore w; instances := instances w;
     inflight := inflight w; issued := issued w; log := log w ++ [e] |}.

Definition set_state (st : IState.t) (i : Instance) : Instance :=
  {| props := props i; state := st; isActive := isActive i; hash := hash i;
     lifecycle := lifecycle i |}.

Definition set_props (p : IProps.t) (i : Instance) : Instance :=
  {| props := p; state := state i; isActive := isActive i; hash := hash i;
     lifecycle := lifecycle i |}.

Definition set_phase (active : bool) (l : Lifecycle) (i : Instance) : Instance :=
  {| props := props i; state := state i; isActive := active; hash := hash i;
     lifecycle := l |}.

Definition mk_error (m : jsstring) : Error :=
  {| err_class := InlineSVGError; message := m |}.

(** The methods of the component are functions on the world.  The host
    runs to completion whatever it has started: a method and the
    callbacks it passes to [setState] run without interleaving, so
    [this.setState(partial, callback)] is the write of the state followed
    by the callback.  The only places where other events come in between
    are the two promises of [fetch]; the checks of the first [then] touch
    nothing of the world, so a fetch settles in one event, [settle], with
    the response and its text or with the rejection.  A call of [fetch]
    that raises instead of returning a promise is handled by [request]
    on the spot. *)
Section Component.

Context (host : Host).

(** [this.setState(partial)] of instance [c]: the state is replaced by
    [f] of it, and React calls [componentDidUpdate] with the state before,
    whose first half reports the arrival at READY.  The callback given to
    [setState] is run by the caller after this. *)
Definition setState (c : nat) (f : IState.t -> IState.t) (w : World) : World :=
  match instances w !! c with
  | Some i =>
      let st := f (state i) in
      let w1 := emit (SetState c st) (set_instances <[c := set_state st i]> w) in
      if canUseDOM host
         && negb (status_eqb (IState.status (state i)) READY)
         && status_eqb (IState.status st) READY
         && IProps.onLoad (props i)
      then emit (OnLoad c (IProps.src (props i)) (IState.hasCache st)) w1
      else w1
  | None => w
  end.

Definition error_status (e : Error) : STATUS :=
  if str_eqb (message e) (lit "Browser does not support SVG")
  then UNSUPPORTED else FAILED.

Definition handleError (c : nat) (e : Error) (w : World) : World :=
  match instances w !! c with
  | Some i =>
      let w1 := if negb (production host) then emit (ConsoleError e) w else w in
      if isActive i then
        let w2 :=
          setState c
            (fun st => {| IState.content := IState.content st;
                          IState.element := IState.element st;
                          IState.hasCache := IState.hasCache st;
                          IState.status := error_status e |}) w1 in
        if IProps.onError (props i) then emit (OnError c e) w2 else w2
      else w1
  | None => w
  end.

Definition processSVG (i : Instance) : outcome jsstring :=
  match IProps.preProcessor (props i) with
  | Some preProcessor => preProcessor (IState.content (state i))
  | None => Return (IState.content (state i))
  end.

(** The [description] and [title] blocks of [getNode]. *)
Definition inject (tag : jsstring) (text : option jsstring) (svg : Node) : Node :=
  match text with
  | Some t =>
      if truthy t then
        prepend (Element tag [] (innerHTML host t))
          (default svg (remove_first tag svg))
      else svg
  | None => svg
  end.

(** The [try] block of [getNode]. *)
Definition getNode_try (i : Instance) : outcome Node :=
  match processSVG i with
  | Throw e => Throw e
  | Return svgText =>
      match convert_text host svgText with
      | Throw e => Throw e
      | Return node =>
          match node with
          | Some node =>
              if isSVGSVGElement node then
                let svg := updateSVGAttributes (props i) (hash i) node in
                let svg := inject (lit "desc") (IProps.description (props i)) svg in
                let svg := inject (lit "title") (IProps.title (props i)) svg in
                Return svg
              else Throw (mk_error (lit "Could not convert the src to a DOM Node"))
          | None => Throw (mk_error (lit "Could not convert the src to a DOM Node"))
          end
      end
  end.

(** [getNode] returns the tree, or [undefined] ([None]) after it has
    passed the exception to [handleError]. *)
Definition getNode (c : nat) (w : World) : World * option Node :=
  match instances w !! c with
  | Some i =>
      match getNode_try i with
      | Return svg => (w, Some svg)
      | Throw e => (handleError c e w, None)
      end
  | None => (w, None)
  end.

Definition getElement (c : nat) (w : World) : World :=
  let (w1, node) := getNode c w in
  let converted :=
    match convert_node host node with
    | Throw e => Throw e
    | Return (Some element) => Return element
    | Return None =>
        Throw (mk_error (lit "Could not convert the src to a React element"))
    end in
  match converted with
  | Return element =>
      setState c
        (fun st => {| IState.content := IState.content st;
                      IState.element := Some element;
                      IState.hasCache := IState.hasCache st;
                      IState.status := READY |}) w1
  | Throw e => handleError c (mk_error (message e)) w1
  end.

Definition handleLoad (c : nat) (content : jsstring) (w : World) : World :=
  let w0 := emit (CallHandleLoad c content) w in
  match instances w0 !! c with
  | Some i =>
      if isActive i then
        getElement c
          (setState c
             (fun st => {| IState.content := content;
                           IState.element := IState.element st;
                           IState.hasCache := IState.hasCache st;
                           IState.status := LOADED |}) w0)
      else w0
  | None => w0
  end.

(** [request]: the entry is written, then [fetch(src)] is called.  The
    calls of [fetch] are numbered by [issued].  A call that returns its
    promise is in flight until it settles; a call that raises is caught
    by the outer [catch], which passes a new [InlineSVGError] with the
    message to [handleError] and leaves the entry as it is. *)
Definition request (c : nat) (w : World) : World :=
  match instances w !! c with
  | Some i =>
      let cacheRequests := IProps.cacheRequests (props i) in
      let src := IProps.src (props i) in
      let w1 :=
        if cacheRequests then
          set_cacheStore
            <[src := {| IStorageItem.content := [];
                        IStorageItem.status := LOADING;
                        IStorageItem.queue := [] |}]> w
        else w in
      let id := issued w1 in
      let w2 :=
        emit (FetchIssued id src)
          {| cacheStore := cacheStore w1; instances := instances w1;
             inflight := inflight w1; issued := S id; log := log w1 |} in
      match fetch_throws host src with
      | None =>
          set_inflight
            <[id := {| req_owner := c; req_src := src;
                       req_cacheRequests := cacheRequests |}]> w2
      | Some error => handleError c (mk_error (message error)) w2
      end
  | None => w
  end.

(** [inlineSrc] of [load]: the decoded data URI, the markup itself, or
    [undefined]; an exception of [atob] or [decodeURIComponent] leaves
    the callback. *)
Inductive InlineSrc :=
| Inline (s : jsstring)
| Undefined
| DecodeThrows.

Definition inlineSrc (src : jsstring) : InlineSrc :=
  match match_dataURI src with
  | Some (base64, payload) =>
      match (if base64 then atob payload else decodeURIComponent payload) with
      | Some s => Inline s
      | None => DecodeThrows
      end
  | None => if 0 <=? indexOf src (lit "<svg") then Inline src else Undefined
  end.

(** [load]: the [setState] and, directly after it, its callback. *)
Definition load (c : nat) (w : World) : World :=
  match instances w !! c with
  | Some i =>
      if isActive i then
        let w1 :=
          setState c
            (fun st => {| IState.content := [];
                          IState.element := None;
                          IState.hasCache := IState.hasCache st;
                          IState.status := LOADING |}) w in
        let cacheRequests := IProps.cacheRequests (props i) in
        let src := IProps.src (props i) in
        match (if cacheRequests then cacheStore w1 !! src else None) with
        | Some cache =>
            match IStorageItem.status cache with
            | LOADING =>
                set_cacheStore
                  <[src := {| IStorageItem.content := IStorageItem.content cache;
                              IStorageItem.status := IStorageItem.status cache;
                              IStorageItem.queue := IStorageItem.queue cache ++ [c] |}]>
                  w1
            | LOADED => handleLoad c (IStorageItem.content cache) w1
            | _ => w1
            end
        | None =>
            match inlineSrc src with
            | Inline s => if truthy s then handleLoad c s w1 else request c w1
            | Undefined => request c w1
            | DecodeThrows => emit (Uncaught c) w1
            end
        end
      else w
  | None => w
  end.

(** *** The settling of a fetch *)

Inductive FetchResult :=
| NetworkError (e : Error)
| Response (status : Z) (contentType : option jsstring) (text : outcome jsstring).

(** The first [then] of [request]. *)
Definition check_response (status : Z) (contentType : option jsstring)
  (text : outcome jsstring) : outcome jsstring :=
  let fileType := split_semicolon_first (default [] contentType) in
  if 299 <? status then Throw (mk_error (lit "Not Found"))
  else if negb (existsb (fun d => 0 <=? indexOf fileType d)
                  [lit "image/svg+xml"; lit "text/plain"])
  then Throw (mk_error (lit "Content type isn't valid: " ++ fileType))
  else text.

(** The second [then] of [request]. *)
Definition on_content (r : Request) (content : jsstring) (w : World) : World :=
  let w1 := handleLoad (req_owner r) content w in
  if req_cacheRequests r then
    match cacheStore w1 !! req_src r with
    | Some cache =>
        let w2 :=
          set_cacheStore
            <[req_src r := {| IStorageItem.content := content;
                              IStorageItem.status := LOADED;
                              IStorageItem.queue := IStorageItem.queue cache |}]> w1 in
        let w3 :=
          fold_left (fun w cb => handleLoad cb content w) (IStorageItem.queue cache) w2 in
        set_cacheStore
          <[req_src r := {| IStorageItem.content := content;
                            IStorageItem.status := LOADED;
                            IStorageItem.queue := [] |}]> w3
    | None => w1
    end
  else w1.

(** The [catch] of [request]. *)
Definition on_rejected (r : Request) (e : Error) (w : World) : World :=
  let w1 := if req_cacheRequests r then set_cacheStore (delete (req_src r)) w else w in
  handleError (req_owner r) e w1.

Definition settle (id : nat) (res : FetchResult) (w : World) : World :=
  match inflight w !! id with
  | Some r =>
      let w0 := set_inflight (delete id) w in
      match res with
      | NetworkError e => on_rejected r e w0
      | Response status contentType text =>
          match check_response status contentType text with
          | Return content => on_content r content w0
          | Throw e => on_rejected r e w0
          end
      end
  | None => w
  end.

(** *** The lifecycle *)

(** [new InlineSVG(props)]; [random] is what [randomString(8)] gives. *)
Definition construct (c : nat) (p : IProps.t) (random : jsstring) (w : World)
  : World :=
  match instances w !! c with
  | Some _ => w
  | None =>
      set_instances
        <[c := {| props := p;
                  state :=
                    {| IState.content := [];
                       IState.element := None;
                       IState.hasCache :=
                         IProps.cacheRequests p
                         && bool_decide (is_Some (cacheStore w !! IProps.src p));
                       IState.status := PENDING |};
                  isActive := false;
                  hash := if opt_truthy (IProps.uniqueHash p)
                          then default [] (IProps.uniqueHash p) else random;
                  lifecycle := Constructed |}]> w
  end.

Definition componentDidMount (c : nat) (w : World) : World :=
  match instances w !! c with
  | Some i =>
      match lifecycle i with
      | Constructed =>
          let w1 := set_instances <[c := set_phase true Mounted i]> w in
          if negb (canUseDOM host) then w1
          else
            match IState.status (state i) with
            | PENDING =>
                if negb (isSupportedEnvironment host)
                then handleError c (mk_error (lit "Browser does not support SVG")) w1
                else if negb (truthy (IProps.src (props i)))
                then handleError c (mk_error (lit "Missing src")) w1
                else load c w1
            | _ => w1
            end
      | _ => w
      end
  | None => w
  end.

(** A render with new props, and the [componentDidUpdate] after it. *)
Definition componentDidUpdate (c : nat) (p : IProps.t) (w : World) : World :=
  match instances w !! c with
  | Some i =>
      match lifecycle i with
      | Mounted =>
          let w1 := set_instances <[c := set_props p i]> w in
          if negb (canUseDOM host) then w1
          else if negb (str_eqb (IProps.src (props i)) (IProps.src p)) then
            if negb (truthy (IProps.src p))
            then handleError c (mk_error (lit "Missing src")) w1
            else load c w1
          else w1
      | _ => w
      end
  | None => w
  end.

Definition componentWillUnmount (c : nat) (w : World) : World :=
  match instances w !! c with
  | Some i =>
      match lifecycle i with
      | Mounted => set_instances <[c := set_phase false Unmounted i]> w
      | _ => w
      end
  | None => w
  end.

(** *** Runs *)

Inductive Event :=
| Construct (c : nat) (p : IProps.t) (random : jsstring)
| Mount (c : nat)
| Update (c : nat) (p : IProps.t)
| Unmount (c : nat)
| Settle (id : nat) (res : FetchResult).

Definition step (w : World) (ev : Event) : World :=
  match ev with
  | Construct c p random => construct c p random w
  | Mount c => componentDidMount c w
  | Update c p => componentDidUpdate c p w
  | Unmount c => componentWillUnmount c w
  | Settle id res => settle id res w
  end.

Definition run (w : World) (evs : list Event) : World := fold_left step evs w.

Inductive reachable : World -> Prop :=
| reachable_init : reachable init_world
| reachable_step w ev : reachable w -> reachable (step w ev).

End Component.

(** * The vocabulary of the properties *)

(** ** Frames and projections of the log *)

(** The part of the world that only [load], [request] and the settling of
    a fetch write. *)
Definition net (w : World) : gmap jsstring IStorageItem.t * gmap nat Request * nat :=
  (cacheStore w, inflight w, issued w).

(** Everything of an instance but its state. *)
Definition shell (i : Instance) : IProps.t * bool * jsstring * Lifecycle :=
  (props i, isActive i, hash i, lifecycle i).

(** [w'] differs from [w] at most in the state of instance [c] and in
    the log. *)
Definition touches_only (c : nat) (w w' : World) : Prop :=
  net w' = net w
  /\ (forall c', shell <$> instances w' !! c' = shell <$> instances w !! c')
  /\ (forall c', c' <> c -> instances w' !! c' = instances w !! c').

(** The [handleLoad] calls of a log, in order. *)
Definition calls (l : list Effect) : list (nat * jsstring) :=
  flat_map (fun e => match e with
                     | CallHandleLoad c s => [(c, s)]
                     | _ => []
                     end) l.

(** The error notifications of a log, in order. *)
Definition errors (l : list Effect) : list (nat * Error) :=
  flat_map (fun e => match e with
                     | OnError c e => [(c, e)]
                     | _ => []
                     end) l.

(** The states written by [setState] of instance [c], in order. *)
Definition writes (c : nat) (l : list Effect) : list IState.t :=
  flat_map (fun e => match e with
                     | SetState c' st => if Nat.eqb c' c then [st] else []
                     | _ => []
                     end) l.

(** ** The cache *)

(** Whether [load], on a cache miss, passes [src] on to [request]: the
    [if (inlineSrc)] of its callback is not taken. *)
Definition goes_to_network (src : jsstring) : bool :=
  match inlineSrc src with
  | Inline s => negb (truthy s)
  | Undefined => true
  | DecodeThrows => false
  end.

Definition loading_entry : IStorageItem.t :=
  {| IStorageItem.content := []; IStorageItem.status := LOADING;
     IStorageItem.queue := [] |}.

Definition loaded_entry (content : jsstring) : IStorageItem.t :=
  {| IStorageItem.content := content; IStorageItem.status := LOADED;
     IStorageItem.queue := [] |}.

Definition loading_state (st : IState.t) : IState.t :=
  {| IState.content := []; IState.element := None;
     IState.hasCache := IState.hasCache st; IState.status := LOADING |}.

(** The world in which the outer [catch] of [request] runs: instance [c],
    which is [i], has written its entry and has called [fetch]. *)
Definition fetch_called (c : nat) (i : Instance) (w : World) : World :=
  emit (FetchIssued (issued w) (IProps.src (props i)))
    {| cacheStore := if IProps.cacheRequests (props i)
                     then <[IProps.src (props i) := loading_entry]> (cacheStore w)
                     else cacheStore w;
       instances := instances w;
       inflight := inflight w;
       issued := S (issued w);
       log := log w |}.

(** The invariant of the cache, on the part of the world it speaks of. *)
Record cache_inv (n : gmap jsstring IStorageItem.t * gmap nat Request * nat) : Prop := {
  inv_fresh : forall id r, n.1.2 !! id = Some r -> (id < n.2)%nat;
  inv_entry : forall id r,
    n.1.2 !! id = Some r -> req_cacheRequests r = true ->
    exists e, n.1.1 !! req_src r = Some e /\ IStorageItem.status e = LOADING;
  inv_unique : forall id1 id2 r1 r2,
    n.1.2 !! id1 = Some r1 -> n.1.2 !! id2 = Some r2 ->
    req_cacheRequests r1 = true -> req_cacheRequests r2 = true ->
    req_src r1 = req_src r2 -> id1 = id2;
  inv_keys : forall src e, n.1.1 !! src = Some e -> goes_to_network src = true;
  inv_reqs : forall id r, n.1.2 !! id = Some r -> goes_to_network (req_src r) = true;
}.

(** What a fetch settles with: the content, or the error of the [catch]. *)
Definition fetch_outcome (res : FetchResult) : outcome jsstring :=
  match res with
  | NetworkError e => Throw e
  | Response status contentType text => check_response status contentType text
  end.

(** ** A host, props and instances for the examples *)

Definition example_svg : Node :=
  Element (lit "svg") []
    [Element (lit "rect") [{| Attr.name := lit "id"; Attr.value := lit "x" |}] [];
     Element (lit "use") [{| Attr.name := lit "href"; Attr.value := lit "#x" |}] []].

(** A host that takes every text beginning with [<svg] for [example_svg]
    and nothing else for a document. *)
Definition example_host : Host :=
  {| canUseDOM := true;
     isSupportedEnvironment := true;
     production := false;
     convert_text := fun s =>
       Return (if starts_with (lit "<svg") s then Some example_svg else None);
     convert_node := fun n => Return n;
     innerHTML := fun s => [Text s];
     fetch_throws := fun _ => None |}.

(** A host like [example_host] but without a [fetch]. *)
Definition host_without_fetch : Host :=
  {| canUseDOM := canUseDOM example_host;
     isSupportedEnvironment := isSupportedEnvironment example_host;
     production := production example_host;
     convert_text := convert_text example_host;
     convert_node := convert_node example_host;
     innerHTML := innerHTML example_host;
     fetch_throws := fun _ =>
       Some {| err_class := NativeError; message := lit "fetch is not defined" |} |}.

Definition example_props (src : jsstring) : IProps.t :=
  {| IProps.baseURL := None;
     IProps.cacheRequests := true;
     IProps.description := None;
     IProps.onError := true;
     IProps.onLoad := true;
     IProps.preProcessor := None;
     IProps.src := src;
     IProps.title := None;
     IProps.uniqueHash := Some (lit "abc123");
     IProps.uniquifyIDs := true |}.

Definition example_instance (src : jsstring) (active : bool) (l : Lifecycle)
  (s : STATUS) : Instance :=
  {| props := example_props src;
     state := {| IState.content := []; IState.element := None;
                 IState.hasCache := false; IState.status := s |};
     isActive := active;
     hash := lit "abc123";
     lifecycle := l |}.

(** The instance numbered [c] of a world that has one. *)
Definition instance_of (w : World) (c : nat) : Instance :=
  default (example_instance [] false Constructed PENDING) (instances w !! c).

(** ** States *)

Definition with_status (s : STATUS) (st : IState.t) : IState.t :=
  {| IState.content := IState.content st; IState.element := IState.element st;
     IState.hasCache := IState.hasCache st; IState.status := s |}.

Definition loaded_state (content : jsstring) (st : IState.t) : IState.t :=
  {| IState.content := content; IState.element := IState.element st;
     IState.hasCache := IState.hasCache st; IState.status := LOADED |}.

Definition ready_state (element : ReactElement) (st : IState.t) : IState.t :=
  {| IState.content := IState.content st; IState.element := Some element;
     IState.hasCache := IState.hasCache st; IState.status := READY |}.

(** ** Instances *)

(** Instance [c] is active, caches its requests and has the source
    [I]. *)
Definition subscribes (I : jsstring) (w : World) (c : nat) : Prop :=
  exists i, instances w !! c = Some i /\ isActive i = true
            /\ IProps.cacheRequests (props i) = true
            /\ IProps.src (props i) = I.

(** The effects that write the state of instance [c] or call one of its
    callbacks. *)
Definition concerns (c : nat) (e : Effect) : bool :=
  match e with
  | SetState c' _ | OnError c' _ | OnLoad c' _ _ => Nat.eqb c' c
  | _ => false
  end.

Definition about (c : nat) (l : list Effect) : list Effect :=
  flat_map (fun e => if concerns c e then [e] else []) l.

(** The effects a method of instance [c] can have. *)
Definition emitted_by (c : nat) (e : Effect) : Prop :=
  match e with
  | SetState c' _ | CallHandleLoad c' _ | OnError c' _ | OnLoad c' _ _
  | Uncaught c' => c' = c
  | ConsoleError _ | FetchIssued _ _ => True
  end.

Definition extends_by (c : nat) (w w' : World) : Prop :=
  exists l, log w' = log w ++ l /\ Forall (emitted_by c) l.

(** Instance [c] has been unmounted. *)
Definition dormant (c : nat) (w : World) : Prop :=
  exists i, instances w !! c = Some i /\ isActive i = false
            /\ lifecycle i = Unmounted.

(** Nothing of instance [c] has changed from [w] to [w']. *)
Definition quiet (c : nat) (w w' : World) : Prop :=
  instances w' !! c = instances w !! c /\ about c (log w') = about c (log w).

(** ** Attributes and trees *)

(** [attributes.find((a) => a.name === r)], as the value found. *)
Fixpoint find_attribute (r : jsstring) (attrs : list Attr.t) : option jsstring :=
  match attrs with
  | [] => None
  | a :: rest =>
      if str_eqb (Attr.name a) r then Some (Attr.value a)
      else find_attribute r rest
  end.

(** What [rewrite_url] does to the value. *)
Definition rewrite_url_value (baseURL hash v : jsstring) : jsstring :=
  match match_url v with
  | Some g =>
      if truthy g then
        js_replace v (lit "url(" ++ g ++ lit ")")
          (lit "url(" ++ baseURL ++ g ++ lit "__" ++ hash ++ lit ")")
      else v
  | None => v
  end.

(** What [suffix_attribute] does to the value. *)
Definition suffixed (hash r v : jsstring) : jsstring :=
  if isDataValue r v then v else v ++ lit "__" ++ hash.

(** What [updateSVGAttributes] does to a descendant of the node it is
    called on. *)
Fixpoint uniquify (baseURL hash : jsstring) (d : Node) : Node :=
  match d with
  | Element t a c =>
      Element t (update_attributes baseURL hash a) (map (uniquify baseURL hash) c)
  | Text _ => d
  end.

(** The node reached from [n] by the child numbers of [path]. *)
Fixpoint node_at (path : list nat) (n : Node) : option Node :=
  match path with
  | [] => Some n
  | k :: rest =>
      match n with
      | Element _ _ c =>
          match c !! k with
          | Some d => node_at rest d
          | None => None
          end
      | Text _ => None
      end
  end.

Definition attributes_of (n : Node) : option (list Attr.t) :=
  match n with
  | Element _ a _ => Some a
  | Text _ => None
  end.

Definition attributes_at (path : list nat) (n : Node) : option (list Attr.t) :=
  match node_at path n with
  | Some d => attributes_of d
  | None => None
  end.

(** Induction on a tree with the property at hand for all children. *)
Fixpoint Node_forall_ind (P : Node -> Prop)
  (HE : forall t a c, Forall P c -> P (Element t a c))
  (HT : forall s, P (Text s)) (n : Node) : P n :=
  match n with
  | Element t a c =>
      HE t a c
        ((fix all (ns : list Node) : Forall P ns :=
            match ns with
            | [] => @List.Forall_nil _ P
            | d :: ds => @List.Forall_cons _ P d ds (Node_forall_ind P HE HT d) (all ds)
            end) c)
  | Text s => HT s
  end.

(** ** [render] *)

(** What [render] returns: the [loader] prop, the element (cloned with
    the remaining props, which the model leaves out) or the [children]
    prop. *)
Inductive Rendered :=
| RenderLoader
| RenderElement (element : ReactElement)
| RenderChildren.

Definition render (host : Host) (i : Instance) : Rendered :=
  if negb (canUseDOM host) then RenderLoader
  else
    match IState.element (state i) with
    | Some element => RenderElement element
    | None =>
        if existsb (status_eqb (IState.status (state i))) [UNSUPPORTED; FAILED]
        then RenderChildren
        else RenderLoader
    end.

(** ** States at rest *)

(** What the state of an instance looks like between two events. *)
Definition settled (st : IState.t) : Prop :=
  match IState.status st with
  | LOADED => False
  | PENDING | LOADING => IState.content st = [] /\ IState.element st = None
  | READY => is_Some (IState.element st)
  | FAILED | UNSUPPORTED => True
  end.

Definition instance_ok (i : Instance) : Prop :=
  settled (state i)
  /\ (isActive i = true <-> lifecycle i = Mounted)
  /\ (lifecycle i = Constructed -> IState.status (state i) = PENDING).

(** The state [handleLoad] leaves behind on an active instance that had
    the state [st] and is given the content [s]. *)
Definition delivered (s : jsstring) (st st' : IState.t) : Prop :=
  IState.content st' = s
  /\ IState.hasCache st' = IState.hasCache st
  /\ ((IState.status st' = READY /\ is_Some (IState.element st'))
      \/ ((IState.status st' = FAILED \/ IState.status st' = UNSUPPORTED)
          /\ IState.element st' = IState.element st)).

(** Every instance of [w] is in [w'], related by [R] to what it was. *)
Definition lifts (R : Instance -> Instance -> Prop) (w w' : World) : Prop :=
  forall c i, instances w !! c = Some i ->
              exists i', instances w' !! c = Some i' /\ R i i'.

(** The instances of [w'] are those of [w], with the same props, flag,
    token and phase. *)
Definition same_shells (w w' : World) : Prop :=
  forall c, shell <$> instances w' !! c = shell <$> instances w !! c.

(** READY, FAILED or UNSUPPORTED. *)
Definition terminal (s : STATUS) : Prop :=
  s = READY \/ s = FAILED \/ s = UNSUPPORTED.

(** The state an instance is constructed with when the cache has no
    entry for its source. *)
Definition initial_state : IState.t :=
  {| IState.content := []; IState.element := None;
     IState.hasCache := false; IState.status := PENDING |}.

(** ** Characters of a string *)

Definition without (c : N) (s : jsstring) : Prop := Forall (fun x => x <> c) s.

Definition one_line (s : jsstring) : Prop :=
  Forall (fun x => is_line_terminator x = false) s.

(** ** The transformer, attribute by attribute *)

(** What [suffix_attribute] does to an attribute named [r]. *)
Definition suffix_one (hash r : jsstring) (a : Attr.t) : Attr.t :=
  if str_eqb (Attr.name a) r
  then {| Attr.name := Attr.name a; Attr.value := suffixed hash r (Attr.value a) |}
  else a.

(** The [url(...)] rewriting, and after it the suffix for the names of
    [replaceableAttributes]. *)
Definition update_attribute (baseURL hash : jsstring) (a : Attr.t) : Attr.t :=
  let v := rewrite_url_value baseURL hash (Attr.value a) in
  {| Attr.name := Attr.name a;
     Attr.value := if bool_decide (Attr.name a ∈ replaceableAttributes)
                   then suffixed hash (Attr.name a) v else v |}.

(** A tree less the values of its attributes. *)
Definition blank (a : Attr.t) : Attr.t :=
  {| Attr.name := Attr.name a; Attr.value := [] |}.

Fixpoint skeleton (n : Node) : Node :=
  match n with
  | Element t a c => Element t (map blank a) (map skeleton c)
  | Text s => Text s
  end.

(** Whether [querySelector(tag)] on [n] finds an element. *)
Fixpoint has_descendant (tag : jsstring) (n : Node) : bool :=
  match n with
  | Element _ _ c => existsb (fun d => is_named tag d || has_descendant tag d) c
  | Text _ => false
  end.

Definition childNodes_of (n : Node) : list Node :=
  match n with
  | Element _ _ c => c
  | Text _ => []
  end.

(** ** The notifications of a log *)

(** The calls of [onLoad], in order, with their arguments. *)
Definition notified (l : list Effect) : list (nat * jsstring * bool) :=
  flat_map (fun e => match e with
                     | OnLoad c src isCached => [(c, src, isCached)]
                     | _ => []
                     end) l.

(** ** An entry left behind *)

(** The entry of [src] is LOADING and no fetch in flight is going to
    settle it. *)
Definition stranded (src : jsstring) (w : World) : Prop :=
  (exists entry, cacheStore w !! src = Some entry
                 /\ IStorageItem.status entry = LOADING)
  /\ (forall id r, inflight w !! id = Some r -> req_cacheRequests r = true ->
                   req_src r <> src).

(** * Properties *)

Local Open Scope nat_scope.

(** ** What the handlers leave alone *)

Lemma calls_app l1 l2 : calls (l1 ++ l2) = calls l1 ++ calls l2.
Proof. unfold calls. apply flat_map_app. Qed.

Lemma errors_app l1 l2 : errors (l1 ++ l2) = errors l1 ++ errors l2.
Proof. unfold errors. apply flat_map_app. Qed.

Lemma writes_app c l1 l2 : writes c (l1 ++ l2) = writes c l1 ++ writes c l2.
Proof. unfold writes. apply flat_map_app. Qed.

Lemma touches_only_refl c w : touches_only c w w.
Proof. repeat split; auto. Qed.

Lemma touches_only_trans c w1 w2 w3 :
  touches_only c w1 w2 -> touches_only c w2 w3 -> touches_only c w1 w3.
Proof.
  intros (N1 & S1 & O1) (N2 & S2 & O2). repeat split.
  - congruence.
  - intros c'. rewrite S2. apply S1.
  - intros c' Hc. rewrite O2 by done. by apply O1.
Qed.

Lemma touches_only_emit c e w : touches_only c w (emit e w).
Proof. repeat split; auto. Qed.

Section Frame.

Context (host : Host).

Lemma setState_touches c f w : touches_only c w (setState host c f w).
Proof.
  unfold setState. destruct (instances w !! c) as [i|] eqn:Hi;
    [|apply touches_only_refl].
  assert (touches_only c w
            (emit (SetState c (f (state i)))
               (set_instances <[c:=set_state (f (state i)) i]> w))) as H.
  { repeat split; simpl.
    - intros c'. destruct (decide (c = c')) as [->|Hne].
      + rewrite lookup_insert_eq, Hi. done.
      + by rewrite lookup_insert_ne.
    - intros c' Hne. by rewrite lookup_insert_ne. }
  destruct (_ && _); [|exact H].
  eapply touches_only_trans; [exact H|apply touches_only_emit].
Qed.

Lemma handleError_touches c e w : touches_only c w (handleError host c e w).
Proof.
  unfold handleError. destruct (instances w !! c) as [i|];
    [|apply touches_only_refl].
  assert (touches_only c w
            (if negb (production host) then emit (ConsoleError e) w else w)) as H.
  { destruct (negb _); [apply touches_only_emit|apply touches_only_refl]. }
  destruct (isActive i); [|exact H].
  eapply touches_only_trans; [exact H|].
  destruct (IProps.onError _).
  - eapply touches_only_trans; [apply setState_touches|apply touches_only_emit].
  - apply setState_touches.
Qed.

Lemma getNode_touches c w : touches_only c w (getNode host c w).1.
Proof.
  unfold getNode. destruct (instances w !! c) as [i|];
    [|apply touches_only_refl].
  destruct (getNode_try host i); simpl;
    [apply touches_only_refl|apply handleError_touches].
Qed.

Lemma getElement_touches c w : touches_only c w (getElement host c w).
Proof.
  unfold getElement. pose proof (getNode_touches c w) as H.
  destruct (getNode host c w) as [w1 node]. simpl in H.
  eapply touches_only_trans; [exact H|].
  destruct (convert_node host node) as [[el|]|e];
    [apply setState_touches|apply handleError_touches..].
Qed.

Lemma handleLoad_touches c s w : touches_only c w (handleLoad host c s w).
Proof.
  unfold handleLoad.
  destruct (instances (emit (CallHandleLoad c s) w) !! c) as [i|];
    [|apply touches_only_emit].
  destruct (isActive i); [|apply touches_only_emit].
  eapply touches_only_trans; [apply touches_only_emit|].
  eapply touches_only_trans; [apply setState_touches|apply getElement_touches].
Qed.

(** An instance that is not active ignores [handleLoad] and
    [handleError]. *)
Lemma handleLoad_inactive c s w i :
  instances w !! c = Some i -> isActive i = false ->
  handleLoad host c s w = emit (CallHandleLoad c s) w.
Proof. intros Hi Ha. unfold handleLoad. simpl. by rewrite Hi, Ha. Qed.

Lemma handleError_inactive c e w i :
  instances w !! c = Some i -> isActive i = false ->
  handleError host c e w
  = if negb (production host) then emit (ConsoleError e) w else w.
Proof. intros Hi Ha. unfold handleError. by rewrite Hi, Ha. Qed.

End Frame.

(** ** What the handlers write to the log *)

Section Logs.

Context (host : Host).

Lemma setState_calls c f w :
  calls (log (setState host c f w)) = calls (log w)
  /\ errors (log (setState host c f w)) = errors (log w).
Proof.
  unfold setState. destruct (instances w !! c) as [i|]; [|done].
  destruct (_ && _); simpl;
    rewrite ?calls_app, ?errors_app; simpl; rewrite ?app_nil_r; done.
Qed.

(** [handleError] reports to the instance it is called on, and only when
    that instance is active and has an [onError]. *)
Lemma handleError_calls c e w :
  calls (log (handleError host c e w)) = calls (log w)
  /\ errors (log (handleError host c e w))
     = errors (log w)
       ++ match instances w !! c with
          | Some i => if isActive i && IProps.onError (props i) then [(c, e)] else []
          | None => []
          end.
Proof.
  unfold handleError. destruct (instances w !! c) as [i|];
    [|by rewrite app_nil_r].
  set (w1 := if negb (production host) then emit (ConsoleError e) w else w).
  assert (calls (log w1) = calls (log w) /\ errors (log w1) = errors (log w))
    as [Hc He].
  { unfold w1. destruct (negb _); simpl;
      rewrite ?calls_app, ?errors_app; simpl; rewrite ?app_nil_r; done. }
  destruct (isActive i); simpl; [|by rewrite app_nil_r].
  match goal with |- context [setState host c ?f w1] =>
    destruct (setState_calls c f w1) as [Hc' He'] end.
  destruct (IProps.onError _); simpl;
    rewrite ?calls_app, ?errors_app; simpl; rewrite ?app_nil_r; split; congruence.
Qed.

Lemma getNode_calls c w :
  calls (log (getNode host c w).1) = calls (log w).
Proof.
  unfold getNode. destruct (instances w !! c) as [i|]; [|done].
  destruct (getNode_try host i); simpl; [done|apply handleError_calls].
Qed.

Lemma getElement_calls c w :
  calls (log (getElement host c w)) = calls (log w).
Proof.
  unfold getElement. pose proof (getNode_calls c w) as H.
  destruct (getNode host c w) as [w1 node]. simpl in H. rewrite <- H.
  destruct (convert_node host node) as [[el|]|e];
    [apply setState_calls|apply handleError_calls..].
Qed.

Lemma handleLoad_calls c s w :
  calls (log (handleLoad host c s w)) = calls (log w) ++ [(c, s)].
Proof.
  unfold handleLoad.
  assert (calls (log (emit (CallHandleLoad c s) w)) = calls (log w) ++ [(c, s)])
    as H by (simpl; by rewrite calls_app).
  destruct (instances (emit (CallHandleLoad c s) w) !! c) as [i|]; [|done].
  destruct (isActive i); [|done].
  rewrite getElement_calls.
  match goal with |- context [setState host c ?f ?w0] =>
    destruct (setState_calls c f w0) as [-> _] end.
  done.
Qed.

(** The drain of a queue calls each of its callbacks once, in order. *)
Lemma drain_calls content q w :
  calls (log (fold_left (fun w cb => handleLoad host cb content w) q w))
  = calls (log w) ++ map (fun cb => (cb, content)) q.
Proof.
  revert w. induction q as [|cb q IH]; intros w; simpl.
  - by rewrite app_nil_r.
  - rewrite IH, handleLoad_calls, <- app_assoc. done.
Qed.

Lemma drain_net content q w :
  net (fold_left (fun w cb => handleLoad host cb content w) q w) = net w.
Proof.
  revert w. induction q as [|cb q IH]; intros w; simpl; [done|].
  rewrite IH. apply handleLoad_touches.
Qed.

Lemma drain_shells content q w c :
  shell <$> instances (fold_left (fun w cb => handleLoad host cb content w) q w) !! c
  = shell <$> instances w !! c.
Proof.
  revert w. induction q as [|cb q IH]; intros w; simpl; [done|].
  rewrite IH. apply handleLoad_touches.
Qed.

Lemma drain_others content q w c :
  c ∉ q ->
  instances (fold_left (fun w cb => handleLoad host cb content w) q w) !! c
  = instances w !! c.
Proof.
  revert w. induction q as [|cb q IH]; intros w Hc; simpl; [done|].
  apply not_elem_of_cons in Hc as [Hne Hc].
  rewrite IH by done. by apply handleLoad_touches.
Qed.

End Logs.

(** ** The cache and the requests in flight *)

Lemma cache_inv_init : cache_inv (net init_world).
Proof. split; simpl; intros *; by rewrite ?lookup_empty. Qed.

(** A write to an entry that keeps it LOADING, as the push of [load]. *)
Lemma cache_inv_push (cs : gmap jsstring IStorageItem.t) (fl : gmap nat Request)
  (n : nat) (src : jsstring) (e e' : IStorageItem.t) :
  cache_inv (cs, fl, n) -> cs !! src = Some e ->
  IStorageItem.status e' = LOADING ->
  cache_inv (<[src := e']> cs, fl, n).
Proof.
  intros [F E U K R] He Hs. split; simpl in *; eauto.
  - intros id r Hr Hc. destruct (decide (src = req_src r)) as [->|Hne].
    + exists e'. by rewrite lookup_insert_eq.
    + rewrite lookup_insert_ne by done. eauto.
  - intros src' e0. destruct (decide (src = src')) as [->|Hne].
    + intros _. eauto.
    + rewrite lookup_insert_ne by done. eauto.
Qed.

(** [request] after a cache miss. *)
Lemma cache_inv_request (cs : gmap jsstring IStorageItem.t) (fl : gmap nat Request)
  (n c : nat) (src : jsstring) (cr : bool) :
  cache_inv (cs, fl, n) ->
  (cr = true -> cs !! src = None) -> goes_to_network src = true ->
  cache_inv (if cr then <[src := loading_entry]> cs else cs,
             <[n := {| req_owner := c; req_src := src; req_cacheRequests := cr |}]> fl,
             S n).
Proof.
  intros [F E U K R] Hmiss Hnet.
  assert (fl !! n = None) as Hn.
  { destruct (fl !! n) as [r|] eqn:Hr; [|done]. apply F in Hr. simpl in Hr. lia. }
  split; simpl in *.
  - intros id r. destruct (decide (n = id)) as [<-|Hne]; [lia|].
    rewrite lookup_insert_ne by done. intros Hr. apply F in Hr. lia.
  - intros id r. destruct (decide (n = id)) as [<-|Hne].
    + rewrite lookup_insert_eq. intros [= <-]. simpl. intros ->.
      exists loading_entry. by rewrite lookup_insert_eq.
    + rewrite lookup_insert_ne by done. intros Hr Hc.
      destruct (E _ _ Hr Hc) as (e & He & Hs). destruct cr; [|eauto].
      destruct (decide (src = req_src r)) as [->|Hne'].
      * rewrite Hmiss in He; done.
      * rewrite lookup_insert_ne by done. eauto.
  - intros id1 id2 r1 r2.
    destruct (decide (n = id1)) as [<-|H1]; destruct (decide (n = id2)) as [<-|H2];
      rewrite ?lookup_insert_eq, ?lookup_insert_ne by done; [done| | |by apply U].
    + intros [= <-] Hr2. simpl. intros -> Hc2 Hsrc.
      destruct (E _ _ Hr2 Hc2) as (e & He & _). rewrite <- Hsrc, Hmiss in He; done.
    + intros Hr1 [= <-]. simpl. intros Hc1 -> Hsrc.
      destruct (E _ _ Hr1 Hc1) as (e & He & _). rewrite Hsrc, Hmiss in He; done.
  - intros src' e. destruct cr; [|by eauto].
    destruct (decide (src = src')) as [<-|Hne]; [done|].
    rewrite lookup_insert_ne by done. eauto.
  - intros id r. destruct (decide (n = id)) as [<-|Hne].
    + rewrite lookup_insert_eq. by intros [= <-].
    + rewrite lookup_insert_ne by done. eauto.
Qed.

(** [request] after a cache miss when [fetch] raises: the entry is
    there and nothing is in flight for it. *)
Lemma cache_inv_called (cs : gmap jsstring IStorageItem.t) (fl : gmap nat Request)
  (n : nat) (src : jsstring) (cr : bool) :
  cache_inv (cs, fl, n) ->
  (cr = true -> cs !! src = None) -> goes_to_network src = true ->
  cache_inv (if cr then <[src := loading_entry]> cs else cs, fl, S n).
Proof.
  intros [F E U K R] Hmiss Hnet. split; simpl in *.
  - intros id r Hr. apply F in Hr. lia.
  - intros id r Hr Hc. destruct (E _ _ Hr Hc) as (e & He & Hs).
    destruct cr; [|eauto].
    destruct (decide (src = req_src r)) as [->|Hne].
    + rewrite Hmiss in He; done.
    + rewrite lookup_insert_ne by done. eauto.
  - exact U.
  - intros src' e. destruct cr; [|by eauto].
    destruct (decide (src = src')) as [<-|Hne]; [done|].
    rewrite lookup_insert_ne by done. eauto.
  - exact R.
Qed.

(** The settling of request [id]: its entry, when it has one, is
    overwritten or deleted. *)
Lemma cache_inv_settled (cs : gmap jsstring IStorageItem.t) (fl : gmap nat Request)
  (n id : nat) (r : Request)
  (f : gmap jsstring IStorageItem.t -> gmap jsstring IStorageItem.t) :
  cache_inv (cs, fl, n) -> fl !! id = Some r ->
  (forall src, src <> req_src r -> f cs !! src = cs !! src) ->
  (req_cacheRequests r = false -> f cs = cs) ->
  cache_inv (f cs, delete id fl, n).
Proof.
  intros [F E U K R] Hr Hother Hoff. split; simpl in *.
  - intros id' r'. rewrite lookup_delete_Some. intros [_ H]. eauto.
  - intros id' r'. rewrite lookup_delete_Some. intros [Hne Hr'] Hc.
    destruct (req_cacheRequests r) eqn:Hcr.
    + rewrite Hother; [eauto|]. intros Heq. apply Hne. symmetry. eapply U; eauto.
    + rewrite Hoff by done. eauto.
  - intros id1 id2 r1 r2. rewrite !lookup_delete_Some.
    intros [_ H1] [_ H2]. eauto.
  - intros src e. destruct (decide (src = req_src r)) as [->|Hne].
    + intros _. eauto.
    + rewrite Hother by done. eauto.
  - intros id' r'. rewrite lookup_delete_Some. intros [_ H]. eauto.
Qed.

Lemma shell_lookup (w w' : World) (c : nat) (i : Instance) :
  shell <$> instances w' !! c = shell <$> instances w !! c ->
  instances w !! c = Some i ->
  exists i', instances w' !! c = Some i' /\ shell i' = shell i.
Proof.
  intros H Hi. rewrite Hi in H. destruct (instances w' !! c) as [i'|]; [|done].
  exists i'. split; [done|]. simpl in H. congruence.
Qed.

Lemma shell_eq (i i' : Instance) :
  shell i' = shell i ->
  props i' = props i /\ isActive i' = isActive i /\ hash i' = hash i
  /\ lifecycle i' = lifecycle i.
Proof. unfold shell. intros [= -> -> -> ->]. done. Qed.

(** [request] when [fetch] returns its promise. *)
Lemma request_net (host : Host) (c : nat) (w : World) (i : Instance) :
  instances w !! c = Some i ->
  fetch_throws host (IProps.src (props i)) = None ->
  net (request host c w)
  = (if IProps.cacheRequests (props i)
     then <[IProps.src (props i) := loading_entry]> (cacheStore w)
     else cacheStore w,
     <[issued w := {| req_owner := c; req_src := IProps.src (props i);
                      req_cacheRequests := IProps.cacheRequests (props i) |}]>
       (inflight w),
     S (issued w)).
Proof.
  intros Hi Hf. unfold request. rewrite Hi, Hf.
  destruct (IProps.cacheRequests (props i)); reflexivity.
Qed.

Lemma request_log (host : Host) (c : nat) (w : World) (i : Instance) :
  instances w !! c = Some i ->
  fetch_throws host (IProps.src (props i)) = None ->
  log (request host c w) = log w ++ [FetchIssued (issued w) (IProps.src (props i))]
  /\ instances (request host c w) = instances w.
Proof.
  intros Hi Hf. unfold request. rewrite Hi, Hf.
  destruct (IProps.cacheRequests (props i)); done.
Qed.

(** [request] when [fetch] raises: the outer [catch]. *)
Lemma request_throws (host : Host) (c : nat) (w : World) (i : Instance)
  (e : Error) :
  instances w !! c = Some i ->
  fetch_throws host (IProps.src (props i)) = Some e ->
  request host c w = handleError host c (mk_error (message e)) (fetch_called c i w)
  /\ net (request host c w)
     = (if IProps.cacheRequests (props i)
        then <[IProps.src (props i) := loading_entry]> (cacheStore w)
        else cacheStore w,
        inflight w, S (issued w)).
Proof.
  intros Hi Hf.
  assert (request host c w
          = handleError host c (mk_error (message e)) (fetch_called c i w)) as H.
  { unfold request. rewrite Hi, Hf. unfold fetch_called.
    destruct (IProps.cacheRequests (props i)); reflexivity. }
  split; [exact H|]. rewrite H.
  destruct (handleError_touches host c (mk_error (message e)) (fetch_called c i w))
    as (-> & _). reflexivity.
Qed.

(** What [request] does whether [fetch] raises or not: the entry is
    written, the call is counted, and nothing else of the cache and no
    other request in flight is touched. *)
Lemma request_always (host : Host) (c : nat) (w : World) (i : Instance) :
  instances w !! c = Some i ->
  cacheStore (request host c w)
  = (if IProps.cacheRequests (props i)
     then <[IProps.src (props i) := loading_entry]> (cacheStore w)
     else cacheStore w)
  /\ issued (request host c w) = S (issued w)
  /\ (forall id, id <> issued w ->
                 inflight (request host c w) !! id = inflight w !! id).
Proof.
  intros Hi.
  destruct (fetch_throws host (IProps.src (props i))) as [e|] eqn:Hf.
  - destruct (request_throws host c w i e Hi Hf) as [_ Hn].
    injection Hn as -> -> ->. done.
  - pose proof (request_net host c w i Hi Hf) as Hn.
    injection Hn as -> -> ->. repeat split; try done.
    intros id Hne. by rewrite lookup_insert_ne.
Qed.

Section Network.

Context (host : Host).

(** [load] on an active instance, with the cache read in the world it
    is called in. *)
Lemma load_active (c : nat) (w : World) (i : Instance) :
  instances w !! c = Some i -> isActive i = true ->
  load host c w
  = let w1 := setState host c loading_state w in
    match (if IProps.cacheRequests (props i)
           then cacheStore w !! IProps.src (props i) else None) with
    | Some cache =>
        match IStorageItem.status cache with
        | LOADING =>
            set_cacheStore
              <[IProps.src (props i) :=
                  {| IStorageItem.content := IStorageItem.content cache;
                     IStorageItem.status := IStorageItem.status cache;
                     IStorageItem.queue := IStorageItem.queue cache ++ [c] |}]> w1
        | LOADED => handleLoad host c (IStorageItem.content cache) w1
        | _ => w1
        end
    | None =>
        match inlineSrc (IProps.src (props i)) with
        | Inline s => if truthy s then handleLoad host c s w1 else request host c w1
        | Undefined => request host c w1
        | DecodeThrows => emit (Uncaught c) w1
        end
    end.
Proof.
  intros Hi Ha. unfold load. rewrite Hi, Ha.
  destruct (setState_touches host c loading_state w) as (Hn & _ & _).
  injection Hn as Hcs _ _. unfold loading_state in *. rewrite Hcs. reflexivity.
Qed.

Lemma load_inactive (c : nat) (w : World) (i : Instance) :
  instances w !! c = Some i -> isActive i = false -> load host c w = w.
Proof. intros Hi Ha. unfold load. by rewrite Hi, Ha. Qed.

Lemma settle_unfold (id : nat) (res : FetchResult) (w : World) (r : Request) :
  inflight w !! id = Some r ->
  settle host id res w
  = match fetch_outcome res with
    | Return content => on_content host r content (set_inflight (delete id) w)
    | Throw e => on_rejected host r e (set_inflight (delete id) w)
    end.
Proof. intros Hr. unfold settle. rewrite Hr. by destruct res. Qed.

Lemma on_content_net (r : Request) (content : jsstring) (w : World) :
  net (on_content host r content w)
  = (if req_cacheRequests r then
       match cacheStore w !! req_src r with
       | Some _ => <[req_src r := loaded_entry content]> (cacheStore w)
       | None => cacheStore w
       end
     else cacheStore w,
     inflight w, issued w).
Proof.
  unfold on_content.
  destruct (handleLoad_touches host (req_owner r) content w) as (Hn & _ & _).
  set (w1 := handleLoad host (req_owner r) content w) in *.
  injection Hn as Hcs Hfl Hn.
  destruct (req_cacheRequests r); [|unfold net; congruence].
  rewrite Hcs. destruct (cacheStore w !! req_src r) as [cache|];
    [|unfold net; congruence].
  unfold net at 1. simpl. f_equal; [f_equal|].
  - match goal with |- context [fold_left ?f ?q ?w2] =>
      pose proof (drain_net host content q w2) as Hd end.
    injection Hd as -> _ _. simpl. rewrite insert_insert_eq, Hcs. done.
  - match goal with |- context [fold_left ?f ?q ?w2] =>
      pose proof (drain_net host content q w2) as Hd end.
    injection Hd as _ -> _. done.
  - match goal with |- context [fold_left ?f ?q ?w2] =>
      pose proof (drain_net host content q w2) as Hd end.
    injection Hd as _ _ ->. done.
Qed.

Lemma on_rejected_net (r : Request) (e : Error) (w : World) :
  net (on_rejected host r e w)
  = (if req_cacheRequests r then delete (req_src r) (cacheStore w) else cacheStore w,
     inflight w, issued w).
Proof.
  unfold on_rejected.
  match goal with |- context [handleError host ?c e ?w1] =>
    destruct (handleError_touches host c e w1) as (-> & _ & _) end.
  by destruct (req_cacheRequests r).
Qed.

Lemma cache_inv_load (c : nat) (w : World) :
  cache_inv (net w) -> cache_inv (net (load host c w)).
Proof.
  intros Hinv. destruct (instances w !! c) as [i|] eqn:Hi;
    [|unfold load; by rewrite Hi].
  destruct (isActive i) eqn:Ha; [|by erewrite load_inactive].
  rewrite (load_active c w i Hi Ha). cbv zeta.
  destruct (setState_touches host c loading_state w) as (Hn & Hs & _).
  set (w1 := setState host c loading_state w) in *.
  destruct (shell_lookup w w1 c i (Hs c) Hi) as (i1 & Hi1 & Hsh).
  apply shell_eq in Hsh as (Hp & _).
  assert (cache_inv (net w1)) as Hinv1 by (by rewrite Hn).
  assert (forall s, cache_inv (net (handleLoad host c s w1))) as Hload.
  { intros s. destruct (handleLoad_touches host c s w1) as (-> & _ & _). done. }
  assert ((if IProps.cacheRequests (props i)
           then cacheStore w !! IProps.src (props i) else None) = None ->
          goes_to_network (IProps.src (props i)) = true ->
          cache_inv (net (request host c w1))) as Hreq.
  { intros Hmiss Hnet. injection Hn as Hcs Hfl Hiss.
    destruct (fetch_throws host (IProps.src (props i1))) as [e|] eqn:Hf.
    - destruct (request_throws host c w1 i1 e Hi1 Hf) as [_ ->]. rewrite Hp.
      apply cache_inv_called; [exact Hinv1| |done].
      intros Hcr. rewrite Hcr in Hmiss. by rewrite Hcs.
    - rewrite (request_net host c w1 i1 Hi1 Hf), Hp.
      apply cache_inv_request; [exact Hinv1| |done].
      intros Hcr. rewrite Hcr in Hmiss. by rewrite Hcs. }
  destruct (if IProps.cacheRequests (props i)
            then cacheStore w !! IProps.src (props i) else None)
    as [cache|] eqn:Hcache.
  - destruct (IProps.cacheRequests (props i)); [|done].
    destruct (IStorageItem.status cache) eqn:Hst; try done.
    unfold net. simpl. injection Hn as Hcs Hfl Hiss. rewrite Hcs, Hfl, Hiss.
    eapply cache_inv_push; [exact Hinv|exact Hcache|done].
  - unfold goes_to_network in Hreq.
    destruct (inlineSrc (IProps.src (props i))) as [s| |]; [| |done].
    + destruct (truthy s); [apply Hload|by apply Hreq].
    + by apply Hreq.
Qed.

Lemma cache_inv_handleError (c : nat) (e : Error) (w : World) :
  cache_inv (net w) -> cache_inv (net (handleError host c e w)).
Proof. destruct (handleError_touches host c e w) as (-> & _ & _). done. Qed.

Lemma cache_inv_settle (id : nat) (res : FetchResult) (w : World) :
  cache_inv (net w) -> cache_inv (net (settle host id res w)).
Proof.
  intros Hinv. destruct (inflight w !! id) as [r|] eqn:Hr;
    [|unfold settle; by rewrite Hr].
  rewrite (settle_unfold id res w r Hr).
  destruct (fetch_outcome res) as [content|e].
  - rewrite on_content_net. simpl.
    apply (cache_inv_settled _ _ _ id r
             (fun cs => if req_cacheRequests r then
                          match cs !! req_src r with
                          | Some _ => <[req_src r := loaded_entry content]> cs
                          | None => cs
                          end
                        else cs)); [done|done| |].
    + intros src Hne. destruct (req_cacheRequests r); [|done].
      destruct (cacheStore w !! req_src r); [|done]. by rewrite lookup_insert_ne.
    + by intros ->.
  - rewrite on_rejected_net. simpl.
    apply (cache_inv_settled _ _ _ id r
             (fun cs => if req_cacheRequests r then delete (req_src r) cs else cs));
      [done|done| |].
    + intros src Hne. destruct (req_cacheRequests r); [|done].
      by rewrite lookup_delete_ne.
    + by intros ->.
Qed.

Lemma cache_inv_step (w : World) (ev : Event) :
  cache_inv (net w) -> cache_inv (net (step host w ev)).
Proof.
  intros Hinv. destruct ev as [c p random|c|c p|c|id res]; simpl.
  - unfold construct. by destruct (instances w !! c).
  - unfold componentDidMount. destruct (instances w !! c) as [i|]; [|done].
    destruct (lifecycle i); [|done..].
    destruct (negb (canUseDOM host)); [done|].
    destruct (IState.status (state i)); try done.
    destruct (negb (isSupportedEnvironment host));
      [by apply cache_inv_handleError|].
    destruct (negb (truthy _));
      [by apply cache_inv_handleError|by apply cache_inv_load].
  - unfold componentDidUpdate. destruct (instances w !! c) as [i|]; [|done].
    destruct (lifecycle i); [done| |done].
    destruct (negb (canUseDOM host)); [done|].
    destruct (negb (str_eqb _ _)); [|done].
    destruct (negb (truthy _));
      [by apply cache_inv_handleError|by apply cache_inv_load].
  - unfold componentWillUnmount. destruct (instances w !! c) as [i|]; [|done].
    by destruct (lifecycle i).
  - by apply cache_inv_settle.
Qed.

Lemma reachable_cache_inv (w : World) :
  reachable host w -> cache_inv (net w).
Proof.
  induction 1 as [|w ev _ IH]; [apply cache_inv_init|by apply cache_inv_step].
Qed.

End Network.

(** ** The state after a write *)

Section Writes.

Context (host : Host).

Lemma setState_lookup (c : nat) (f : IState.t -> IState.t) (w : World) (i : Instance) :
  instances w !! c = Some i ->
  instances (setState host c f w) !! c = Some (set_state (f (state i)) i).
Proof.
  intros Hi. unfold setState. rewrite Hi.
  destruct (_ && _); simpl; by rewrite lookup_insert_eq.
Qed.

Lemma handleError_lookup (c : nat) (e : Error) (w : World) (i : Instance) :
  instances w !! c = Some i -> isActive i = true ->
  instances (handleError host c e w) !! c
  = Some (set_state (with_status (error_status e) (state i)) i).
Proof.
  intros Hi Ha. unfold handleError. rewrite Hi, Ha.
  set (w1 := if negb (production host) then emit (ConsoleError e) w else w).
  assert (instances w1 !! c = Some i) as Hi1.
  { unfold w1. by destruct (negb _). }
  destruct (IProps.onError _); simpl;
    by rewrite (setState_lookup c _ w1 i Hi1).
Qed.

End Writes.

(** ** The error classifier *)

Lemma error_status_cases (e : Error) :
  (message e = lit "Browser does not support SVG" /\ error_status e = UNSUPPORTED)
  \/ (message e <> lit "Browser does not support SVG" /\ error_status e = FAILED).
Proof.
  unfold error_status, str_eqb. case_bool_decide; [left|right]; done.
Qed.

(** C8: the classifier gives UNSUPPORTED exactly for the message
    "Browser does not support SVG" and FAILED for every other message,
    whatever the class of the error; this is the status [handleError]
    writes on an active instance, and a missing [src] at mount or at an
    update is reported as "Missing src" and so ends in FAILED. *)
Theorem error_classifier_unsupported_iff :
  (forall e, error_status e = UNSUPPORTED
             <-> message e = lit "Browser does not support SVG")
  /\ (forall e, message e <> lit "Browser does not support SVG"
                -> error_status e = FAILED)
  /\ (forall host c e w i,
        instances w !! c = Some i -> isActive i = true ->
        exists i', instances (handleError host c e w) !! c = Some i'
                   /\ IState.status (state i') = error_status e)
  /\ (forall host c w i,
        instances w !! c = Some i -> lifecycle i = Constructed ->
        IState.status (state i) = PENDING ->
        canUseDOM host = true -> isSupportedEnvironment host = true ->
        IProps.src (props i) = [] ->
        let w' := componentDidMount host c w in
        (exists i', instances w' !! c = Some i'
                    /\ IState.status (state i') = FAILED)
        /\ errors (log w')
           = errors (log w)
             ++ (if IProps.onError (props i)
                 then [(c, mk_error (lit "Missing src"))] else []))
  /\ (forall host c p w i,
        instances w !! c = Some i -> lifecycle i = Mounted ->
        isActive i = true -> canUseDOM host = true ->
        IProps.src (props i) <> [] -> IProps.src p = [] ->
        let w' := componentDidUpdate host c p w in
        (exists i', instances w' !! c = Some i'
                    /\ IState.status (state i') = FAILED)
        /\ errors (log w')
           = errors (log w)
             ++ (if IProps.onError p
                 then [(c, mk_error (lit "Missing src"))] else [])).
Proof.
  split; [|split; [|split; [|split]]].
  - intros e. destruct (error_status_cases e) as [[Hm ->]|[Hm ->]]; split; done.
  - intros e Hm. destruct (error_status_cases e) as [[Hm' _]|[_ ->]]; done.
  - intros host c e w i Hi Ha. eexists. split.
    + by apply handleError_lookup.
    + done.
  - intros host c w i Hi Hl Hs Hdom Hsup Hsrc w'. subst w'.
    unfold componentDidMount. rewrite Hi, Hl, Hdom, Hs, Hsup, Hsrc. simpl.
    set (w1 := set_instances _ w).
    assert (instances w1 !! c = Some (set_phase true Mounted i)) as Hi1
      by (unfold w1; simpl; apply lookup_insert_eq).
    split.
    + eexists. split; [by apply handleError_lookup|done].
    + destruct (handleError_calls host c (mk_error (lit "Missing src")) w1)
        as [_ ->]. rewrite Hi1. done.
  - intros host c p w i Hi Hl Ha Hdom Hsrc Hp w'. subst w'.
    unfold componentDidUpdate. rewrite Hi, Hl, Hdom, Hp. simpl.
    assert (str_eqb (IProps.src (props i)) [] = false) as ->
      by (unfold str_eqb; by case_bool_decide).
    simpl. set (w1 := set_instances _ w).
    assert (instances w1 !! c = Some (set_props p i)) as Hi1
      by (unfold w1; simpl; apply lookup_insert_eq).
    split.
    + eexists. split; [by apply handleError_lookup|done].
    + destruct (handleError_calls host c (mk_error (lit "Missing src")) w1)
        as [_ ->]. rewrite Hi1. simpl. by rewrite Ha.
Qed.

Lemma error_classifier_witness :
  let w := set_instances
             (fun m => <[0 := example_instance [] false Constructed PENDING]>
                         (<[1 := example_instance (lit "a.svg") true Mounted LOADING]> m))
             init_world in
  (exists i', instances (handleError example_host 1
                           (mk_error (lit "Browser does not support SVG")) w) !! 1
              = Some i'
              /\ IState.status (state i') = UNSUPPORTED)
  /\ (exists i', instances (componentDidMount example_host 0 w) !! 0 = Some i'
                 /\ IState.status (state i') = FAILED)
  /\ (exists i', instances (componentDidUpdate example_host 1 (example_props []) w) !! 1
                 = Some i'
                 /\ IState.status (state i') = FAILED)
  /\ error_status {| err_class := NativeError; message := lit "Failed to fetch" |}
     = FAILED.
Proof.
  intros w.
  destruct error_classifier_unsupported_iff
    as (_ & Hother & Herr & Hmount & Hupdate).
  split; [|split; [|split]]; [| | |apply Hother; discriminate].
  - apply (Herr example_host 1 (mk_error (lit "Browser does not support SVG")) w
             (example_instance (lit "a.svg") true Mounted LOADING));
      vm_compute; reflexivity.
  - apply (Hmount example_host 0 w (example_instance [] false Constructed PENDING));
      vm_compute; reflexivity.
  - apply (Hupdate example_host 1 (example_props []) w
             (example_instance (lit "a.svg") true Mounted LOADING));
      try (vm_compute; reflexivity).
    vm_compute. discriminate.
Defined.

(** ** Data URIs *)

Section Inline.

Context (host : Host).

(** [handleLoad] on an active instance whose content converts. *)
Lemma handleLoad_ready (c : nat) (s : jsstring) (w : World) (i : Instance)
  (svg : Node) (el : ReactElement) :
  instances w !! c = Some i -> isActive i = true ->
  getNode_try host (set_state (loaded_state s (state i)) i) = Return svg ->
  convert_node host (Some svg) = Return (Some el) ->
  instances (handleLoad host c s w) !! c
  = Some (set_state (ready_state el (loaded_state s (state i))) i).
Proof.
  intros Hi Ha Hnode Hel. unfold handleLoad. simpl. rewrite Hi, Ha.
  pose proof (setState_lookup host c (loaded_state s)
                (emit (CallHandleLoad c s) w) i Hi) as Hi1.
  unfold loaded_state in Hi1 at 1.
  set (w1 := setState host c _ _) in *.
  unfold getElement, getNode. rewrite Hi1, Hnode, Hel.
  by rewrite (setState_lookup host c _ w1 _ Hi1).
Qed.

(** [load] when the callback takes the [if (inlineSrc)]. *)
Lemma load_inline (c : nat) (w : World) (i : Instance) (s : jsstring) :
  instances w !! c = Some i -> isActive i = true ->
  (if IProps.cacheRequests (props i)
   then cacheStore w !! IProps.src (props i) else None) = None ->
  inlineSrc (IProps.src (props i)) = Inline s -> truthy s = true ->
  load host c w = handleLoad host c s (setState host c loading_state w).
Proof.
  intros Hi Ha Hmiss Hin Hs. rewrite (load_active host c w i Hi Ha).
  cbv zeta. by rewrite Hmiss, Hin, Hs.
Qed.

(** [load] when the callback reaches [this.request()]. *)
Lemma load_reaches_request (c : nat) (w : World) (i : Instance) :
  instances w !! c = Some i -> isActive i = true ->
  (if IProps.cacheRequests (props i)
   then cacheStore w !! IProps.src (props i) else None) = None ->
  goes_to_network (IProps.src (props i)) = true ->
  let w1 := setState host c loading_state w in
  load host c w = request host c w1
  /\ net w1 = net w
  /\ instances w1 !! c = Some (set_state (loading_state (state i)) i)
  /\ calls (log w1) = calls (log w)
  /\ errors (log w1) = errors (log w)
  /\ (forall c', shell <$> instances w1 !! c' = shell <$> instances w !! c')
  /\ (forall c', c' <> c -> instances w1 !! c' = instances w !! c').
Proof.
  intros Hi Ha Hmiss Hnet w1.
  destruct (setState_touches host c loading_state w) as (Hn & Hsh & Hot).
  destruct (setState_calls host c loading_state w) as [Hc He].
  repeat split; try done; [|by apply setState_lookup].
  rewrite (load_active host c w i Hi Ha). cbv zeta.
  rewrite Hmiss. unfold goes_to_network in Hnet.
  destruct (inlineSrc _) as [s| |]; [|done..].
  by destruct (truthy s).
Qed.

(** ... and [fetch] returns its promise. *)
Lemma load_request (c : nat) (w : World) (i : Instance) :
  instances w !! c = Some i -> isActive i = true ->
  (if IProps.cacheRequests (props i)
   then cacheStore w !! IProps.src (props i) else None) = None ->
  goes_to_network (IProps.src (props i)) = true ->
  fetch_throws host (IProps.src (props i)) = None ->
  let w1 := setState host c loading_state w in
  let w' := load host c w in
  w' = request host c w1
  /\ net w'
     = (if IProps.cacheRequests (props i)
        then <[IProps.src (props i) := loading_entry]> (cacheStore w)
        else cacheStore w,
        <[issued w := {| req_owner := c; req_src := IProps.src (props i);
                         req_cacheRequests := IProps.cacheRequests (props i) |}]>
          (inflight w),
        S (issued w))
  /\ log w' = log w1 ++ [FetchIssued (issued w) (IProps.src (props i))]
  /\ calls (log w') = calls (log w)
  /\ (forall c', shell <$> instances w' !! c' = shell <$> instances w !! c')
  /\ (forall c', c' <> c -> instances w' !! c' = instances w !! c').
Proof.
  intros Hi Ha Hmiss Hnet Hf w1 w'.
  destruct (load_reaches_request c w i Hi Ha Hmiss Hnet)
    as (Hw' & Hn & Hi1 & Hc & _ & Hsh & Hot).
  fold w1 w' in Hw', Hn, Hi1, Hc, Hsh, Hot.
  set (i1 := set_state (loading_state (state i)) i) in *.
  assert (fetch_throws host (IProps.src (props i1)) = None) as Hf1 by done.
  destruct (request_log host c w1 i1 Hi1 Hf1) as [Hlog Hinst].
  injection Hn as Hcs Hfl Hiss.
  rewrite Hw'. repeat split.
  - rewrite (request_net host c w1 i1 Hi1 Hf1), Hcs, Hfl, Hiss. done.
  - rewrite Hlog, Hiss. done.
  - rewrite Hlog, calls_app. simpl. by rewrite app_nil_r.
  - intros c'. rewrite Hinst. apply Hsh.
  - intros c' Hne. rewrite Hinst. by apply Hot.
Qed.

(** ... and [fetch] raises. *)
Lemma load_request_throws (c : nat) (w : World) (i : Instance) (e : Error) :
  instances w !! c = Some i -> isActive i = true ->
  (if IProps.cacheRequests (props i)
   then cacheStore w !! IProps.src (props i) else None) = None ->
  goes_to_network (IProps.src (props i)) = true ->
  fetch_throws host (IProps.src (props i)) = Some e ->
  let w' := load host c w in
  net w'
  = (if IProps.cacheRequests (props i)
     then <[IProps.src (props i) := loading_entry]> (cacheStore w)
     else cacheStore w,
     inflight w, S (issued w))
  /\ instances w' !! c
     = Some (set_state (with_status (error_status (mk_error (message e)))
                          (loading_state (state i))) i)
  /\ calls (log w') = calls (log w)
  /\ errors (log w')
     = errors (log w)
       ++ (if IProps.onError (props i) then [(c, mk_error (message e))] else [])
  /\ (forall c', shell <$> instances w' !! c' = shell <$> instances w !! c')
  /\ (forall c', c' <> c -> instances w' !! c' = instances w !! c').
Proof.
  intros Hi Ha Hmiss Hnet Hf w'.
  destruct (load_reaches_request c w i Hi Ha Hmiss Hnet)
    as (Hw' & Hn & Hi1 & Hc & He & Hsh & Hot).
  set (w1 := setState host c loading_state w) in *.
  set (i1 := set_state (loading_state (state i)) i) in *.
  assert (fetch_throws host (IProps.src (props i1)) = Some e) as Hf1 by done.
  destruct (request_throws host c w1 i1 e Hi1 Hf1) as [Hr Hnr].
  set (w2 := fetch_called c i1 w1) in *.
  assert (instances w2 !! c = Some i1) as Hi2 by done.
  destruct (handleError_touches host c (mk_error (message e)) w2)
    as (_ & Hsh2 & Hot2).
  destruct (handleError_calls host c (mk_error (message e)) w2) as [Hc2 He2].
  unfold w'. rewrite Hw'. injection Hn as Hcs Hfl Hiss.
  repeat split.
  - rewrite Hnr, Hcs, Hfl, Hiss. done.
  - rewrite Hr. by rewrite (handleError_lookup host c _ w2 i1 Hi2 Ha).
  - rewrite Hr, Hc2. unfold w2. simpl. rewrite calls_app. simpl.
    by rewrite app_nil_r.
  - rewrite Hr, He2, Hi2. unfold w2. simpl. rewrite errors_app. simpl.
    rewrite app_nil_r, He. unfold i1. simpl. by rewrite Ha.
  - intros c'. rewrite Hr, Hsh2. apply Hsh.
  - intros c' Hne. rewrite Hr, Hot2 by done. by apply Hot.
Qed.

(** ... whether [fetch] raises or not. *)
Lemma load_request_always (c : nat) (w : World) (i : Instance) :
  instances w !! c = Some i -> isActive i = true ->
  (if IProps.cacheRequests (props i)
   then cacheStore w !! IProps.src (props i) else None) = None ->
  goes_to_network (IProps.src (props i)) = true ->
  let w' := load host c w in
  cacheStore w'
  = (if IProps.cacheRequests (props i)
     then <[IProps.src (props i) := loading_entry]> (cacheStore w)
     else cacheStore w)
  /\ issued w' = S (issued w)
  /\ (forall id, id <> issued w -> inflight w' !! id = inflight w !! id)
  /\ calls (log w') = calls (log w)
  /\ (forall c', shell <$> instances w' !! c' = shell <$> instances w !! c')
  /\ (forall c', c' <> c -> instances w' !! c' = instances w !! c').
Proof.
  intros Hi Ha Hmiss Hnet w'.
  destruct (fetch_throws host (IProps.src (props i))) as [e|] eqn:Hf.
  - destruct (load_request_throws c w i e Hi Ha Hmiss Hnet Hf)
      as (Hn & _ & Hc & _ & Hsh & Hot).
    fold w' in Hn, Hc, Hsh, Hot. injection Hn as -> -> ->. done.
  - destruct (load_request c w i Hi Ha Hmiss Hnet Hf)
      as (_ & Hn & _ & Hc & Hsh & Hot).
    fold w' in Hn, Hc, Hsh, Hot. injection Hn as -> -> ->.
    repeat split; try done. intros id Hne. by rewrite lookup_insert_ne.
Qed.

(** A [load] that finds an entry issues nothing. *)
Lemma load_found (c : nat) (w : World) (i : Instance) (entry : IStorageItem.t) :
  instances w !! c = Some i -> isActive i = true ->
  IProps.cacheRequests (props i) = true ->
  cacheStore w !! IProps.src (props i) = Some entry ->
  issued (load host c w) = issued w /\ inflight (load host c w) = inflight w.
Proof.
  intros Hi Ha Hc He. rewrite (load_active host c w i Hi Ha). cbv zeta.
  rewrite Hc, He.
  destruct (setState_touches host c loading_state w) as (Hn & _).
  set (w1 := setState host c loading_state w) in *.
  injection Hn as _ Hfl Hiss.
  destruct (IStorageItem.status entry); try done.
  destruct (handleLoad_touches host c (IStorageItem.content entry) w1)
    as (Hn' & _).
  injection Hn' as _ -> ->. done.
Qed.

End Inline.

(** C10, as the spec has it, fails: the cache is asked before the data
    URI is looked at.  Of two instances with the source
    [data:image/svg+xml,] and with caching, the first to be mounted
    issues a request and makes the entry; the [load] of the second finds
    the entry, joins its queue and issues no request. *)
Lemma empty_data_uri_cached_counterexample :
  let src := lit "data:image/svg+xml," in
  let w := run example_host init_world
             [Construct 0 (example_props src) (lit "r"); Mount 0;
              Construct 1 (example_props src) (lit "r")] in
  let w' := step example_host w (Mount 1) in
  inlineSrc src = Inline []
  /\ issued w = 1 /\ issued w' = 1
  /\ inflight w' = inflight w
  /\ cacheStore w' !! src
     = Some {| IStorageItem.content := []; IStorageItem.status := LOADING;
               IStorageItem.queue := [1] |}
  /\ (IState.status ∘ state) <$> instances w' !! 1 = Some LOADING.
Proof. vm_compute. repeat split; reflexivity. Qed.

(** C10 (amended): an SVG data URI whose payload decodes to the empty
    string is not delivered as loaded content: [inlineSrc] is the empty
    string, which is falsy.  On a cache miss, which is when the instance
    does not cache or the cache has no entry for the source string,
    [load] goes on to [request]: [fetch] is called for the source string
    and no [handleLoad], and when the call returns its promise the
    request is in flight.  When the instance caches and the cache has an
    entry for the source string, [load] issues no request. *)
Theorem empty_data_uri_is_fetched :
  inlineSrc (lit "data:image/svg+xml,") = Inline []
  /\ inlineSrc (lit "data:image/svg+xml;base64,") = Inline []
  /\ (forall host c w i base64 payload,
        instances w !! c = Some i -> isActive i = true ->
        match_dataURI (IProps.src (props i)) = Some (base64, payload) ->
        (if base64 then atob payload else decodeURIComponent payload) = Some [] ->
        let w' := load host c w in
        ((if IProps.cacheRequests (props i)
          then cacheStore w !! IProps.src (props i) else None) = None ->
         w' = request host c (setState host c loading_state w)
         /\ issued w' = S (issued w)
         /\ calls (log w') = calls (log w)
         /\ (fetch_throws host (IProps.src (props i)) = None ->
             inflight w' !! issued w
             = Some {| req_owner := c; req_src := IProps.src (props i);
                       req_cacheRequests := IProps.cacheRequests (props i) |}
             /\ log w'
                = log (setState host c loading_state w)
                  ++ [FetchIssued (issued w) (IProps.src (props i))]))
        /\ (forall entry,
              IProps.cacheRequests (props i) = true ->
              cacheStore w !! IProps.src (props i) = Some entry ->
              issued w' = issued w /\ inflight w' = inflight w)).
Proof.
  split; [by vm_compute|split; [by vm_compute|]].
  intros host c w i base64 payload Hi Ha Hm Hd w'.
  assert (goes_to_network (IProps.src (props i)) = true) as Hnet.
  { unfold goes_to_network, inlineSrc. by rewrite Hm, Hd. }
  split.
  - intros Hmiss.
    destruct (load_reaches_request host c w i Hi Ha Hmiss Hnet) as (Hw' & _).
    destruct (load_request_always host c w i Hi Ha Hmiss Hnet)
      as (_ & Hiss & _ & Hcalls & _).
    repeat split; try done.
    + destruct (load_request host c w i Hi Ha Hmiss Hnet H) as (_ & Hn & _).
      fold w' in Hn. injection Hn as _ -> _. by rewrite lookup_insert_eq.
    + by destruct (load_request host c w i Hi Ha Hmiss Hnet H) as (_ & _ & Hl & _).
  - intros entry Hc He. by apply (load_found host c w i entry).
Qed.

Lemma empty_data_uri_witness :
  let w := set_instances
             <[0 := example_instance (lit "data:image/svg+xml,") true Mounted PENDING]>
             init_world in
  issued (load example_host 0 w) = 1
  /\ calls (log (load example_host 0 w)) = []
  /\ is_Some (inflight (load example_host 0 w) !! 0).
Proof.
  intros w.
  destruct empty_data_uri_is_fetched as (_ & _ & H).
  destruct (H example_host 0 w
              (example_instance (lit "data:image/svg+xml,") true Mounted PENDING)
              false [])
    as [Hmiss _]; [vm_compute; reflexivity..|].
  destruct Hmiss as (_ & Hiss & Hcalls & Hfl); [vm_compute; reflexivity|].
  destruct Hfl as [Hfl _]; [vm_compute; reflexivity|].
  split; [exact Hiss|]. split; [exact Hcalls|]. eexists. exact Hfl.
Defined.

Lemma reachable_run (host : Host) (w : World) (evs : list Event) :
  reachable host w -> reachable host (run host w evs).
Proof.
  revert w. induction evs as [|ev evs IH]; intros w Hw; [done|].
  apply IH. by constructor.
Qed.

Lemma truthy_nonempty (s : jsstring) : s <> [] -> truthy s = true.
Proof. by destruct s. Qed.

(** C7, as the spec has it, fails: the source [data:image/svg+xml,]
    matches the data-URI pattern, and mounting an instance with it issues
    a fetch, creates a cache entry and delivers nothing. *)
Lemma data_uri_empty_payload_counterexample :
  let src := lit "data:image/svg+xml," in
  let w := run example_host init_world
             [Construct 0 (example_props src) (lit "r"); Mount 0] in
  match_dataURI src = Some (false, [])
  /\ issued w = 1
  /\ cacheStore w !! src = Some loading_entry
  /\ calls (log w) = [].
Proof. vm_compute. repeat split; reflexivity. Qed.

(** C7 (amended): for a source that matches the data-URI pattern and
    whose payload decodes, by [atob] when the URI declares [;base64]
    and by [decodeURIComponent] otherwise, to a text that is not empty,
    [load] on an active instance hands the decoded text to [handleLoad];
    no fetch is issued and no cache entry is made, and the instance
    arrives at READY when the text converts.  The source
    [data:image/svg+xml,<svg/>] decodes to [<svg/>]. *)
Theorem data_uri_decoded_inline :
  inlineSrc (lit "data:image/svg+xml,<svg/>") = Inline (lit "<svg/>")
  /\ (forall host w c i base64 payload s,
        reachable host w ->
        instances w !! c = Some i -> isActive i = true ->
        match_dataURI (IProps.src (props i)) = Some (base64, payload) ->
        (if base64 then atob payload else decodeURIComponent payload) = Some s ->
        s <> [] ->
        let w' := load host c w in
        w' = handleLoad host c s (setState host c loading_state w)
        /\ net w' = net w
        /\ cacheStore w' !! IProps.src (props i) = None
        /\ calls (log w') = calls (log w) ++ [(c, s)]
        /\ (forall svg el,
              getNode_try host
                (set_state (loaded_state s (loading_state (state i))) i) = Return svg ->
              convert_node host (Some svg) = Return (Some el) ->
              instances w' !! c
              = Some (set_state
                        (ready_state el (loaded_state s (loading_state (state i)))) i))).
Proof.
  split; [by vm_compute|].
  intros host w c i base64 payload s Hreach Hi Ha Hm Hd Hs w'.
  assert (inlineSrc (IProps.src (props i)) = Inline s) as Hin.
  { unfold inlineSrc. by rewrite Hm, Hd. }
  assert (cacheStore w !! IProps.src (props i) = None) as Hnone.
  { destruct (cacheStore w !! IProps.src (props i)) as [e|] eqn:He; [|done].
    pose proof (inv_keys _ (reachable_cache_inv host w Hreach) _ _ He) as Hk.
    unfold goes_to_network in Hk. rewrite Hin, truthy_nonempty in Hk; done. }
  assert (w' = handleLoad host c s (setState host c loading_state w)) as Hw'.
  { apply (load_inline host c w i s Hi Ha); [|done|by apply truthy_nonempty].
    rewrite Hnone. by destruct (IProps.cacheRequests _). }
  pose proof (setState_touches host c loading_state w) as Ht1.
  pose proof (handleLoad_touches host c s (setState host c loading_state w)) as Ht2.
  rewrite <- Hw' in Ht2.
  destruct (touches_only_trans _ _ _ _ Ht1 Ht2) as (Hn & _ & _).
  split; [done|]. split; [done|]. split.
  { injection Hn as -> _ _. done. }
  split.
  { rewrite Hw', handleLoad_calls.
    by destruct (setState_calls host c loading_state w) as [-> _]. }
  intros svg el Hsvg Hel. rewrite Hw'.
  apply (handleLoad_ready host c s _ (set_state (loading_state (state i)) i) svg el);
    [by apply setState_lookup|done|done|done].
Qed.

Lemma data_uri_decoded_inline_witness :
  let src := lit "data:image/svg+xml,<svg/>" in
  let w := run example_host init_world
             [Construct 0 (example_props src) (lit "r"); Mount 0] in
  net (load example_host 0 w) = net w
  /\ calls (log (load example_host 0 w)) = calls (log w) ++ [(0, lit "<svg/>")]
  /\ (IState.status ∘ state) <$> instances (load example_host 0 w) !! 0 = Some READY.
Proof.
  intros src w.
  destruct data_uri_decoded_inline as [_ H].
  destruct (H example_host w 0 (instance_of w 0) false (lit "<svg/>") (lit "<svg/>"))
    as (_ & Hn & _ & Hc & Hready).
  - apply reachable_run. constructor.
  - vm_compute. reflexivity.
  - vm_compute. reflexivity.
  - vm_compute. reflexivity.
  - vm_compute. reflexivity.
  - discriminate.
  - split; [exact Hn|]. split; [exact Hc|].
    erewrite Hready; [reflexivity|vm_compute; reflexivity|reflexivity].
Defined.

(** ** The settling of a cached fetch *)

Section Settling.

Context (host : Host).

(** The second [then] when the entry is in the cache: the entry is
    written first, the queue is drained next, and the queue is emptied
    last. *)
Lemma on_content_cached (r : Request) (content : jsstring) (w : World)
  (entry : IStorageItem.t) :
  req_cacheRequests r = true -> cacheStore w !! req_src r = Some entry ->
  on_content host r content w
  = set_cacheStore <[req_src r := loaded_entry content]>
      (fold_left (fun w cb => handleLoad host cb content w)
         (IStorageItem.queue entry)
         (set_cacheStore
            <[req_src r := {| IStorageItem.content := content;
                              IStorageItem.status := LOADED;
                              IStorageItem.queue := IStorageItem.queue entry |}]>
            (handleLoad host (req_owner r) content w))).
Proof.
  intros Hc He. unfold on_content. rewrite Hc.
  destruct (handleLoad_touches host (req_owner r) content w) as (Hn & _ & _).
  injection Hn as -> _ _. by rewrite He.
Qed.

Lemma on_content_calls (r : Request) (content : jsstring) (w : World)
  (entry : IStorageItem.t) :
  req_cacheRequests r = true -> cacheStore w !! req_src r = Some entry ->
  calls (log (on_content host r content w))
  = calls (log w)
    ++ (req_owner r, content)
       :: map (fun cb => (cb, content)) (IStorageItem.queue entry).
Proof.
  intros Hc He. rewrite (on_content_cached r content w entry Hc He). simpl.
  rewrite drain_calls. simpl. rewrite handleLoad_calls, <- app_assoc. done.
Qed.

(** A [load] that finds the entry LOADED is served from it. *)
Lemma load_hit (c : nat) (w : World) (i : Instance) (entry : IStorageItem.t) :
  instances w !! c = Some i -> isActive i = true ->
  IProps.cacheRequests (props i) = true ->
  cacheStore w !! IProps.src (props i) = Some entry ->
  IStorageItem.status entry = LOADED ->
  load host c w
  = handleLoad host c (IStorageItem.content entry) (setState host c loading_state w)
  /\ net (load host c w) = net w.
Proof.
  intros Hi Ha Hc He Hs.
  assert (load host c w
          = handleLoad host c (IStorageItem.content entry)
              (setState host c loading_state w)) as Hl.
  { rewrite (load_active host c w i Hi Ha). cbv zeta. by rewrite Hc, He, Hs. }
  split; [done|]. rewrite Hl.
  destruct (handleLoad_touches host c (IStorageItem.content entry)
              (setState host c loading_state w)) as (-> & _ & _).
  apply setState_touches.
Qed.

(** A [load] that finds the entry LOADING joins its queue. *)
Lemma load_push (c : nat) (w : World) (i : Instance) (entry : IStorageItem.t) :
  instances w !! c = Some i -> isActive i = true ->
  IProps.cacheRequests (props i) = true ->
  cacheStore w !! IProps.src (props i) = Some entry ->
  IStorageItem.status entry = LOADING ->
  let w' := load host c w in
  net w'
  = (<[IProps.src (props i) :=
         {| IStorageItem.content := IStorageItem.content entry;
            IStorageItem.status := LOADING;
            IStorageItem.queue := IStorageItem.queue entry ++ [c] |}]> (cacheStore w),
     inflight w, issued w)
  /\ calls (log w') = calls (log w)
  /\ (forall c', shell <$> instances w' !! c' = shell <$> instances w !! c').
Proof.
  intros Hi Ha Hc He Hs w'. unfold w'.
  rewrite (load_active host c w i Hi Ha). cbv zeta. rewrite Hc, He, Hs.
  destruct (setState_touches host c loading_state w) as (Hn & Hsh & _).
  destruct (setState_calls host c loading_state w) as [Hcalls _].
  injection Hn as Hcs Hfl Hiss. unfold net. simpl.
  rewrite Hcs, Hfl, Hiss. done.
Qed.

End Settling.

(** C2: when a cached fetch succeeds, its entry, which is there and
    LOADING, gets the content and the status LOADED; after that every
    callback of its queue is called with the content, once each and in
    the order of arrival, the first call being the [handleLoad] of the
    instance that made the request; then the queue is empty.  The entry
    stays in the cache, and a later [load] of the same source is served
    from it without a fetch. *)
Theorem fetch_success_drains_queue (host : Host) (w : World) (id : nat)
  (r : Request) (res : FetchResult) (content : jsstring) :
  reachable host w ->
  inflight w !! id = Some r -> req_cacheRequests r = true ->
  fetch_outcome res = Return content ->
  exists entry,
    cacheStore w !! req_src r = Some entry
    /\ IStorageItem.status entry = LOADING
    /\ let w' := settle host id res w in
       w' = set_cacheStore <[req_src r := loaded_entry content]>
              (fold_left (fun w cb => handleLoad host cb content w)
                 (IStorageItem.queue entry)
                 (set_cacheStore
                    <[req_src r :=
                        {| IStorageItem.content := content;
                           IStorageItem.status := LOADED;
                           IStorageItem.queue := IStorageItem.queue entry |}]>
                    (handleLoad host (req_owner r) content
                       (set_inflight (delete id) w))))
       /\ cacheStore w' !! req_src r = Some (loaded_entry content)
       /\ calls (log w')
          = calls (log w)
            ++ (req_owner r, content)
               :: map (fun cb => (cb, content)) (IStorageItem.queue entry)
       /\ (forall c i,
             instances w' !! c = Some i -> isActive i = true ->
             IProps.cacheRequests (props i) = true ->
             IProps.src (props i) = req_src r ->
             load host c w'
             = handleLoad host c content (setState host c loading_state w')
             /\ net (load host c w') = net w').
Proof.
  intros Hreach Hr Hc Hres.
  destruct (inv_entry _ (reachable_cache_inv host w Hreach) id r Hr Hc)
    as (entry & He & Hs). simpl in He.
  exists entry. split; [done|]. split; [done|]. intros w'.
  assert (w' = on_content host r content (set_inflight (delete id) w)) as Hw'.
  { unfold w'. by rewrite (settle_unfold host id res w r Hr), Hres. }
  assert (cacheStore w' !! req_src r = Some (loaded_entry content)) as Hloaded.
  { pose proof (on_content_net host r content (set_inflight (delete id) w)) as Hn.
    rewrite <- Hw' in Hn. injection Hn as -> _ _. simpl.
    rewrite Hc, He. apply lookup_insert_eq. }
  split; [|split; [done|split]].
  - rewrite Hw'. by apply on_content_cached.
  - rewrite Hw'. by rewrite (on_content_calls host r content _ entry).
  - intros c i Hi Ha Hcr Hsrc.
    apply (load_hit host c w' i (loaded_entry content)); try done.
    by rewrite Hsrc.
Qed.

Lemma fetch_success_drains_queue_witness :
  let src := lit "https://x/a.svg" in
  let w := run example_host init_world
             [Construct 0 (example_props src) (lit "r");
              Construct 1 (example_props src) (lit "r");
              Construct 2 (example_props src) (lit "r");
              Mount 0; Mount 1; Mount 2] in
  let res := Response 200 (Some (lit "image/svg+xml; charset=utf-8"))
               (Return (lit "<svg/>")) in
  cacheStore w !! src = Some {| IStorageItem.content := [];
                                IStorageItem.status := LOADING;
                                IStorageItem.queue := [1; 2] |}
  /\ cacheStore (settle example_host 0 res w) !! src
     = Some (loaded_entry (lit "<svg/>"))
  /\ calls (log (settle example_host 0 res w))
     = [(0, lit "<svg/>"); (1, lit "<svg/>"); (2, lit "<svg/>")]
  /\ net (load example_host 1 (settle example_host 0 res w))
     = net (settle example_host 0 res w).
Proof.
  intros src w res.
  destruct (fetch_success_drains_queue example_host w 0
              {| req_owner := 0; req_src := src; req_cacheRequests := true |}
              res (lit "<svg/>"))
    as (entry & He & _ & _ & Hl & Hc & Hhit).
  - apply reachable_run. constructor.
  - vm_compute. reflexivity.
  - reflexivity.
  - vm_compute. reflexivity.
  - assert (cacheStore w !! src
            = Some {| IStorageItem.content := [];
                      IStorageItem.status := LOADING;
                      IStorageItem.queue := [1; 2] |}) as He'
      by (vm_compute; reflexivity).
    split; [exact He'|]. split; [exact Hl|]. split.
    + rewrite Hc. simpl req_src in He. rewrite He' in He.
      injection He as <-. vm_compute. reflexivity.
    + apply (Hhit 1 (instance_of (settle example_host 0 res w) 1));
        vm_compute; reflexivity.
Defined.

(** The three ways a fetch fails. *)
Lemma fetch_outcome_failures :
  (forall e, fetch_outcome (NetworkError e) = Throw e)
  /\ (forall status contentType text,
        (299 < status)%Z ->
        fetch_outcome (Response status contentType text)
        = Throw (mk_error (lit "Not Found")))
  /\ (forall status contentType text,
        (status <= 299)%Z ->
        let fileType := split_semicolon_first (default [] contentType) in
        (indexOf fileType (lit "image/svg+xml") < 0)%Z ->
        (indexOf fileType (lit "text/plain") < 0)%Z ->
        fetch_outcome (Response status contentType text)
        = Throw (mk_error (lit "Content type isn't valid: " ++ fileType))).
Proof.
  split; [done|split].
  - intros status contentType text H. simpl. unfold check_response.
    by destruct (Z.ltb_spec 299 status); [|lia].
  - intros status contentType text H fileType H1 H2. simpl.
    unfold check_response. fold fileType.
    destruct (Z.ltb_spec 299 status); [lia|]. simpl.
    destruct (Z.leb_spec 0 (indexOf fileType (lit "image/svg+xml"))); [lia|].
    destruct (Z.leb_spec 0 (indexOf fileType (lit "text/plain"))); [lia|].
    done.
Qed.

(** X21: when a cached fetch that is in flight settles with a failure,
    by a rejected promise, a status above 299 or a content type that is
    neither SVG nor plain text, the [catch] of the promise deletes the
    entry of its source; no callback of the queue is called, the error
    goes to the [handleError] of the instance that made the request and
    to no other instance, and a later [load] of the same source calls
    [fetch] again and makes a new entry. *)
Theorem fetch_failure_deletes_entry :
  ((forall e, fetch_outcome (NetworkError e) = Throw e)
   /\ (forall status contentType text,
         (299 < status)%Z ->
         fetch_outcome (Response status contentType text)
         = Throw (mk_error (lit "Not Found")))
   /\ (forall status contentType text,
         (status <= 299)%Z ->
         let fileType := split_semicolon_first (default [] contentType) in
         (indexOf fileType (lit "image/svg+xml") < 0)%Z ->
         (indexOf fileType (lit "text/plain") < 0)%Z ->
         fetch_outcome (Response status contentType text)
         = Throw (mk_error (lit "Content type isn't valid: " ++ fileType))))
  /\ (forall host w id r res e,
        reachable host w ->
        inflight w !! id = Some r -> req_cacheRequests r = true ->
        fetch_outcome res = Throw e ->
        let w' := settle host id res w in
        cacheStore w' !! req_src r = None
        /\ calls (log w') = calls (log w)
        /\ errors (log w')
           = errors (log w)
             ++ match instances w !! req_owner r with
                | Some i =>
                    if isActive i && IProps.onError (props i)
                    then [(req_owner r, e)] else []
                | None => []
                end
        /\ (forall c, c <> req_owner r -> instances w' !! c = instances w !! c)
        /\ (forall c i,
              instances w' !! c = Some i -> isActive i = true ->
              IProps.cacheRequests (props i) = true ->
              IProps.src (props i) = req_src r ->
              issued (load host c w') = S (issued w')
              /\ cacheStore (load host c w') !! req_src r = Some loading_entry
              /\ (fetch_throws host (req_src r) = None ->
                  inflight (load host c w') !! issued w'
                  = Some {| req_owner := c; req_src := req_src r;
                            req_cacheRequests := true |}))).
Proof.
  split; [apply fetch_outcome_failures|].
  intros host w id r res e Hreach Hr Hc Hres w'.
  pose proof (reachable_cache_inv host w Hreach) as Hinv.
  assert (w' = on_rejected host r e (set_inflight (delete id) w)) as Hw'.
  { unfold w'. by rewrite (settle_unfold host id res w r Hr), Hres. }
  assert (cacheStore w' !! req_src r = None) as Hnone.
  { pose proof (on_rejected_net host r e (set_inflight (delete id) w)) as Hn.
    rewrite <- Hw' in Hn. injection Hn as -> _ _. simpl.
    rewrite Hc. apply lookup_delete_eq. }
  split; [done|].
  unfold on_rejected in Hw'. rewrite Hc in Hw'.
  set (w1 := set_cacheStore (delete (req_src r)) (set_inflight (delete id) w)) in *.
  destruct (handleError_calls host (req_owner r) e w1) as [Hcalls Herrors].
  destruct (handleError_touches host (req_owner r) e w1) as (_ & _ & Hothers).
  rewrite <- Hw' in Hcalls, Herrors, Hothers.
  split; [done|]. split; [done|]. split; [done|].
  intros c i Hi Ha Hcr Hsrc.
  assert ((if IProps.cacheRequests (props i)
           then cacheStore w' !! IProps.src (props i) else None) = None) as Hmiss
    by (by rewrite Hcr, Hsrc).
  assert (goes_to_network (IProps.src (props i)) = true) as Hnet.
  { rewrite Hsrc. eapply (inv_reqs _ Hinv). exact Hr. }
  destruct (load_request_always host c w' i Hi Ha Hmiss Hnet)
    as (Hcs & Hiss & _).
  split; [exact Hiss|]. split.
  - rewrite Hcs, Hcr, Hsrc. by rewrite lookup_insert_eq.
  - intros Hf. rewrite <- Hsrc in Hf.
    destruct (load_request host c w' i Hi Ha Hmiss Hnet Hf) as (_ & Hn & _).
    injection Hn as _ Hfl _. rewrite Hfl, Hcr, Hsrc.
    by rewrite lookup_insert_eq.
Qed.

Lemma fetch_failure_deletes_entry_witness :
  let src := lit "https://x/a.svg" in
  let w := run example_host init_world
             [Construct 0 (example_props src) (lit "r");
              Construct 1 (example_props src) (lit "r");
              Mount 0; Mount 1] in
  let res := Response 404 (Some (lit "text/html")) (Return (lit "no")) in
  fetch_outcome res = Throw (mk_error (lit "Not Found"))
  /\ fetch_outcome (Response 200 (Some (lit "text/html; charset=utf-8"))
                      (Return (lit "no")))
     = Throw (mk_error (lit "Content type isn't valid: text/html"))
  /\ cacheStore (settle example_host 0 res w) !! src = None
  /\ calls (log (settle example_host 0 res w)) = calls (log w)
  /\ errors (log (settle example_host 0 res w))
     = [(0, mk_error (lit "Not Found"))]
  /\ issued (load example_host 1 (settle example_host 0 res w)) = 2.
Proof.
  intros src w res.
  destruct fetch_failure_deletes_entry as [(_ & H404 & Htype) H].
  destruct (H example_host w 0
              {| req_owner := 0; req_src := src; req_cacheRequests := true |}
              res (mk_error (lit "Not Found")))
    as (Hnone & Hc & He & _ & Hfresh).
  - apply reachable_run. constructor.
  - vm_compute. reflexivity.
  - reflexivity.
  - apply H404. lia.
  - split; [apply H404; lia|].
    split; [apply Htype; [lia|vm_compute; reflexivity..]|].
    split; [exact Hnone|]. split; [exact Hc|]. split; [exact He|].
    destruct (Hfresh 1 (instance_of (settle example_host 0 res w) 1))
      as (Hiss & _);
      [vm_compute; reflexivity|vm_compute; reflexivity|vm_compute; reflexivity
      |vm_compute; reflexivity|exact Hiss].
Defined.

(** ** Loads of one source *)

Lemma subscribes_shell (I : jsstring) (w w' : World) (c : nat) :
  (forall c', shell <$> instances w' !! c' = shell <$> instances w !! c') ->
  subscribes I w c -> subscribes I w' c.
Proof.
  intros Hsh (i & Hi & Ha & Hc & Hs).
  destruct (shell_lookup w w' c i (Hsh c) Hi) as (i' & Hi' & Heq).
  apply shell_eq in Heq as (Hp & Hact & _).
  exists i'. rewrite Hp, Hact. done.
Qed.

Section Loads.

Context (host : Host).

(** Loads that find the entry LOADING line up in its queue. *)
Lemma loads_push (I : jsstring) (cs : list nat) (w : World) (entry : IStorageItem.t) :
  Forall (subscribes I w) cs ->
  cacheStore w !! I = Some entry -> IStorageItem.status entry = LOADING ->
  let w' := fold_left (fun w c => load host c w) cs w in
  cacheStore w' !! I
  = Some {| IStorageItem.content := IStorageItem.content entry;
            IStorageItem.status := LOADING;
            IStorageItem.queue := IStorageItem.queue entry ++ cs |}
  /\ inflight w' = inflight w /\ issued w' = issued w
  /\ calls (log w') = calls (log w).
Proof.
  revert w entry. induction cs as [|c cs IH]; intros w entry Hcs He Hs; simpl.
  - rewrite app_nil_r, He. destruct entry; simpl in *; subst; done.
  - apply Forall_cons in Hcs as [(i & Hi & Ha & Hc & Hsrc) Hcs].
    subst I. destruct (load_push host c w i entry Hi Ha Hc He Hs)
      as (Hn & Hcalls & Hsh).
    injection Hn as Hcache Hfl Hiss.
    destruct (IH (load host c w)
                {| IStorageItem.content := IStorageItem.content entry;
                   IStorageItem.status := LOADING;
                   IStorageItem.queue := IStorageItem.queue entry ++ [c] |})
      as (H1 & H2 & H3 & H4).
    + eapply Forall_impl; [exact Hcs|]. intros c'. by apply subscribes_shell.
    + rewrite Hcache. apply lookup_insert_eq.
    + done.
    + simpl in H1. rewrite <- app_assoc in H1. simpl in H1.
      rewrite H1, H2, H3, H4. done.
Qed.

End Loads.

(** C1, as the spec has it, fails: two instances that are mounted with
    the same inline markup as source and with caching enabled issue no
    fetch at all, and no cache entry is made. *)
Lemma inline_source_counterexample :
  let src := lit "<svg/>" in
  let w := run example_host init_world
             [Construct 0 (example_props src) (lit "r");
              Construct 1 (example_props src) (lit "r");
              Mount 0; Mount 1] in
  issued w = 0 /\ issued w <> 1
  /\ cacheStore w !! src = None
  /\ calls (log w) = [(0, src); (1, src)].
Proof. vm_compute. repeat split; (reflexivity || discriminate). Qed.

(** C1 (amended): for a source that [load] passes on to [request], which
    is one that is neither markup with [<svg] in it nor a data URI whose
    payload decodes to a text that is not empty or does not decode at
    all, with caching enabled.  In every world that can be reached no two
    cached fetches of one source are in flight; while one is in flight
    its entry is LOADING and a [load] of that source issues no fetch and
    joins the queue; and loads of a source that has no entry, one after
    the other with no fetch settling in between, call [fetch] exactly
    once, in the first, which makes the LOADING entry, the others being
    queued in order: when that call returns its promise it is the one
    request in flight for the source, and when it raises nothing is in
    flight for it; a [load] that finds the entry LOADED is served its
    content and issues no fetch either. *)
Theorem one_fetch_per_source (host : Host) :
  (forall w id1 id2 r1 r2,
     reachable host w ->
     inflight w !! id1 = Some r1 -> inflight w !! id2 = Some r2 ->
     req_cacheRequests r1 = true -> req_cacheRequests r2 = true ->
     req_src r1 = req_src r2 -> id1 = id2)
  /\ (forall w id r c,
        reachable host w ->
        inflight w !! id = Some r -> req_cacheRequests r = true ->
        subscribes (req_src r) w c ->
        exists entry,
          cacheStore w !! req_src r = Some entry
          /\ IStorageItem.status entry = LOADING
          /\ let w' := load host c w in
             inflight w' = inflight w /\ issued w' = issued w
             /\ cacheStore w' !! req_src r
                = Some {| IStorageItem.content := IStorageItem.content entry;
                          IStorageItem.status := LOADING;
                          IStorageItem.queue := IStorageItem.queue entry ++ [c] |})
  /\ (forall w I c cs,
        goes_to_network I = true -> cacheStore w !! I = None ->
        Forall (subscribes I w) (c :: cs) ->
        let w' := fold_left (fun w c => load host c w) (c :: cs) w in
        issued w' = S (issued w)
        /\ inflight w'
           = match fetch_throws host I with
             | None => <[issued w := {| req_owner := c; req_src := I;
                                        req_cacheRequests := true |}]> (inflight w)
             | Some _ => inflight w
             end
        /\ cacheStore w' !! I
           = Some {| IStorageItem.content := [];
                     IStorageItem.status := LOADING;
                     IStorageItem.queue := cs |}
        /\ calls (log w') = calls (log w))
  /\ (forall w c i entry,
        instances w !! c = Some i -> isActive i = true ->
        IProps.cacheRequests (props i) = true ->
        cacheStore w !! IProps.src (props i) = Some entry ->
        IStorageItem.status entry = LOADED ->
        load host c w
        = handleLoad host c (IStorageItem.content entry)
            (setState host c loading_state w)
        /\ net (load host c w) = net w).
Proof.
  split; [|split; [|split]]; [| | |intros w c i entry; apply load_hit].
  - intros w id1 id2 r1 r2 Hreach.
    apply (inv_unique _ (reachable_cache_inv host w Hreach)).
  - intros w id r c Hreach Hr Hc (i & Hi & Ha & Hcr & Hsrc).
    destruct (inv_entry _ (reachable_cache_inv host w Hreach) id r Hr Hc)
      as (entry & He & Hs). simpl in He.
    exists entry. split; [done|]. split; [done|]. intros w'.
    rewrite <- Hsrc in He.
    destruct (load_push host c w i entry Hi Ha Hcr He Hs) as (Hn & _).
    fold w' in Hn. injection Hn as Hcache Hfl Hiss.
    rewrite Hcache, Hfl, Hiss, Hsrc, lookup_insert_eq. done.
  - intros w I c cs Hnet Hmiss Hsub w'.
    apply Forall_cons in Hsub as [(i & Hi & Ha & Hcr & Hsrc) Hcs].
    subst I. unfold w'. simpl.
    assert ((if IProps.cacheRequests (props i)
             then cacheStore w !! IProps.src (props i) else None) = None) as Hmiss'
      by (by rewrite Hcr).
    destruct (load_request_always host c w i Hi Ha Hmiss' Hnet)
      as (Hcache & Hiss & _ & Hcalls & Hsh & _).
    rewrite Hcr in Hcache.
    assert (inflight (load host c w)
            = match fetch_throws host (IProps.src (props i)) with
              | None => <[issued w := {| req_owner := c;
                                         req_src := IProps.src (props i);
                                         req_cacheRequests := true |}]> (inflight w)
              | Some _ => inflight w
              end) as Hfl.
    { destruct (fetch_throws host (IProps.src (props i))) as [e|] eqn:Hf.
      - destruct (load_request_throws host c w i e Hi Ha Hmiss' Hnet Hf)
          as (Hn & _).
        by injection Hn as _ -> _.
      - destruct (load_request host c w i Hi Ha Hmiss' Hnet Hf) as (_ & Hn & _).
        rewrite Hcr in Hn. by injection Hn as _ -> _. }
    destruct (loads_push host (IProps.src (props i)) cs (load host c w) loading_entry)
      as (H1 & H2 & H3 & H4).
    + eapply Forall_impl; [exact Hcs|]. intros c'. by apply subscribes_shell.
    + rewrite Hcache. apply lookup_insert_eq.
    + done.
    + rewrite H1, H2, H3, H4, Hfl, Hiss, Hcalls. done.
Qed.

Lemma one_fetch_per_source_witness :
  let src := lit "https://x/a.svg" in
  let w := run example_host init_world
             [Construct 0 (example_props src) (lit "r");
              Construct 1 (example_props src) (lit "r");
              Mount 0; Mount 1] in
  let w0 := run example_host w [Settle 0 (NetworkError (mk_error (lit "offline")))] in
  (forall id r, inflight w !! id = Some r -> req_cacheRequests r = true ->
                req_src r = src -> id = 0)
  /\ issued (load example_host 1 w) = issued w
  /\ issued (fold_left (fun w c => load example_host c w) [0; 1] w0) = S (issued w0)
  /\ (let w1 := run example_host w
                  [Settle 0 (Response 200 (Some (lit "image/svg+xml"))
                               (Return (lit "<svg/>")))] in
      net (load example_host 1 w1) = net w1).
Proof.
  intros src w w0.
  destruct (one_fetch_per_source example_host) as (Huniq & Hjoin & Hloads & Hhit).
  split; [|split; [|split]];
    [| | |intros w1;
          apply (Hhit w1 1 (instance_of w1 1) (loaded_entry (lit "<svg/>")));
          vm_compute; reflexivity].
  - intros id r Hr Hc Hsrc.
    apply (Huniq w id 0 r {| req_owner := 0; req_src := src;
                             req_cacheRequests := true |});
      [apply reachable_run; constructor|exact Hr
      |vm_compute; reflexivity|exact Hc|reflexivity|exact Hsrc].
  - destruct (Hjoin w 0 {| req_owner := 0; req_src := src;
                           req_cacheRequests := true |} 1)
      as (entry & _ & _ & _ & Hiss & _);
      [apply reachable_run; constructor|vm_compute; reflexivity
      |reflexivity| |exact Hiss].
    exists (instance_of w 1). vm_compute. repeat split; reflexivity.
  - apply (Hloads w0 src 0 [1]);
      [vm_compute; reflexivity|vm_compute; reflexivity|].
    repeat constructor.
    + exists (instance_of w0 0). vm_compute. repeat split; reflexivity.
    + exists (instance_of w0 1). vm_compute. repeat split; reflexivity.
Defined.

(** ** After the teardown *)

Lemma about_app c l1 l2 : about c (l1 ++ l2) = about c l1 ++ about c l2.
Proof. unfold about. apply flat_map_app. Qed.

Lemma about_others (c c' : nat) (l : list Effect) :
  c' <> c -> Forall (emitted_by c') l -> about c l = [].
Proof.
  intros Hne. induction 1 as [|e l He _ IH]; [done|].
  change (about c (e :: l)) with ((if concerns c e then [e] else []) ++ about c l).
  rewrite IH, app_nil_r.
  destruct e; simpl in *; try done; subst;
    by destruct (Nat.eqb_spec c' c).
Qed.

Lemma extends_by_refl c w : extends_by c w w.
Proof. exists []. by rewrite app_nil_r. Qed.

Lemma extends_by_trans c w1 w2 w3 :
  extends_by c w1 w2 -> extends_by c w2 w3 -> extends_by c w1 w3.
Proof.
  intros (l1 & H1 & F1) (l2 & H2 & F2). exists (l1 ++ l2).
  rewrite H2, H1, app_assoc. split; [done|]. by apply Forall_app.
Qed.

Lemma extends_by_emit c e w : emitted_by c e -> extends_by c w (emit e w).
Proof. intros He. exists [e]. split; [done|]. by constructor. Qed.

Lemma quiet_refl c w : quiet c w w.
Proof. done. Qed.

Lemma quiet_trans c w1 w2 w3 : quiet c w1 w2 -> quiet c w2 w3 -> quiet c w1 w3.
Proof. intros [H1 H2] [H3 H4]. split; congruence. Qed.

Lemma quiet_dormant c w w' : quiet c w w' -> dormant c w -> dormant c w'.
Proof. intros [H _] (i & Hi & Hd). exists i. by rewrite H. Qed.

(** A method of another instance leaves [c] quiet. *)
Lemma quiet_others (c c' : nat) (w w' : World) :
  c' <> c -> touches_only c' w w' -> extends_by c' w w' -> quiet c w w'.
Proof.
  intros Hne (_ & _ & Ho) (l & Hl & Hf). split.
  - apply Ho. done.
  - rewrite Hl, about_app, (about_others c c' l Hne Hf). by rewrite app_nil_r.
Qed.

Section Teardown.

Context (host : Host).

Lemma setState_extends c f w : extends_by c w (setState host c f w).
Proof.
  unfold setState. destruct (instances w !! c) as [i|];
    [|apply extends_by_refl].
  assert (extends_by c w
            (emit (SetState c (f (state i)))
               (set_instances <[c:=set_state (f (state i)) i]> w))) as H.
  { exists [SetState c (f (state i))]. split; [done|]. by constructor. }
  destruct (_ && _); [|exact H].
  eapply extends_by_trans; [exact H|]. by apply extends_by_emit.
Qed.

Lemma handleError_extends c e w : extends_by c w (handleError host c e w).
Proof.
  unfold handleError. destruct (instances w !! c) as [i|];
    [|apply extends_by_refl].
  assert (extends_by c w
            (if negb (production host) then emit (ConsoleError e) w else w)) as H.
  { destruct (negb _); [by apply extends_by_emit|apply extends_by_refl]. }
  destruct (isActive i); [|exact H].
  eapply extends_by_trans; [exact H|].
  destruct (IProps.onError _).
  - eapply extends_by_trans; [apply setState_extends|by apply extends_by_emit].
  - apply setState_extends.
Qed.

Lemma getElement_extends c w : extends_by c w (getElement host c w).
Proof.
  unfold getElement, getNode. destruct (instances w !! c) as [i|].
  - destruct (getNode_try host i) as [svg|e].
    + destruct (convert_node host (Some svg)) as [[el|]|e'];
        [apply setState_extends|apply handleError_extends..].
    + eapply extends_by_trans; [apply handleError_extends|].
      destruct (convert_node host None) as [[el|]|e'];
        [apply setState_extends|apply handleError_extends..].
  - destruct (convert_node host None) as [[el|]|e'];
      [apply setState_extends|apply handleError_extends..].
Qed.

Lemma handleLoad_extends c s w : extends_by c w (handleLoad host c s w).
Proof.
  unfold handleLoad.
  destruct (instances (emit (CallHandleLoad c s) w) !! c) as [i|];
    [|by apply extends_by_emit].
  destruct (isActive i); [|by apply extends_by_emit].
  eapply extends_by_trans;
    [by apply (extends_by_emit c (CallHandleLoad c s))|].
  eapply extends_by_trans; [apply setState_extends|apply getElement_extends].
Qed.

Lemma handleLoad_quiet (c c' : nat) (s : jsstring) (w : World) :
  dormant c w -> quiet c w (handleLoad host c' s w).
Proof.
  intros (i & Hi & Ha & _). destruct (decide (c' = c)) as [->|Hne].
  - rewrite (handleLoad_inactive host c s w i Hi Ha). split; [done|].
    simpl. rewrite about_app. simpl. by rewrite app_nil_r.
  - apply (quiet_others c c');
      [done|apply handleLoad_touches|apply handleLoad_extends].
Qed.

Lemma handleError_quiet (c c' : nat) (e : Error) (w : World) :
  dormant c w -> quiet c w (handleError host c' e w).
Proof.
  intros (i & Hi & Ha & _). destruct (decide (c' = c)) as [->|Hne].
  - rewrite (handleError_inactive host c e w i Hi Ha).
    destruct (negb _); [|done]. split; [done|].
    simpl. rewrite about_app. simpl. by rewrite app_nil_r.
  - apply (quiet_others c c');
      [done|apply handleError_touches|apply handleError_extends].
Qed.

Lemma drain_quiet (c : nat) (content : jsstring) (q : list nat) (w : World) :
  dormant c w ->
  quiet c w (fold_left (fun w cb => handleLoad host cb content w) q w).
Proof.
  revert w. induction q as [|cb q IH]; intros w Hd; simpl; [done|].
  pose proof (handleLoad_quiet c cb content w Hd) as H.
  eapply quiet_trans; [exact H|]. apply IH. by eapply quiet_dormant.
Qed.

Lemma request_quiet (c c' : nat) (w : World) :
  dormant c w -> quiet c w (request host c' w).
Proof.
  intros Hd. destruct (instances w !! c') as [i|] eqn:Hi;
    [|unfold request; by rewrite Hi].
  assert (quiet c w (fetch_called c' i w)) as Hq.
  { split; [done|]. simpl. rewrite about_app. simpl. by rewrite app_nil_r. }
  destruct (fetch_throws host (IProps.src (props i))) as [e|] eqn:Hf.
  - destruct (request_throws host c' w i e Hi Hf) as [-> _].
    eapply quiet_trans; [exact Hq|].
    apply handleError_quiet. by eapply quiet_dormant.
  - unfold request. rewrite Hi, Hf.
    destruct Hq as [Hq1 Hq2]. split; [by destruct (IProps.cacheRequests _)|].
    rewrite <- Hq2. by destruct (IProps.cacheRequests _).
Qed.

Lemma load_quiet (c c' : nat) (w : World) :
  dormant c w -> quiet c w (load host c' w).
Proof.
  intros Hd. destruct (decide (c' = c)) as [->|Hne].
  - destruct Hd as (i & Hi & Ha & _). by rewrite (load_inactive host c w i Hi Ha).
  - unfold load. destruct (instances w !! c') as [i|]; [|done].
    destruct (isActive i); [|done].
    assert (quiet c w (setState host c' loading_state w)) as H1
      by (apply (quiet_others c c');
            [done|apply setState_touches|apply setState_extends]).
    unfold loading_state in H1.
    set (w1 := setState host c' _ w) in *.
    pose proof (quiet_dormant c w w1 H1 Hd) as Hd1.
    eapply quiet_trans; [exact H1|].
    destruct (if IProps.cacheRequests (props i) then _ else None) as [cache|].
    + destruct (IStorageItem.status cache); try done.
      by apply handleLoad_quiet.
    + destruct (inlineSrc _) as [s| |].
      * destruct (truthy s); [by apply handleLoad_quiet|by apply request_quiet].
      * by apply request_quiet.
      * split; [done|]. simpl. rewrite about_app. simpl. by rewrite app_nil_r.
Qed.

Lemma settle_quiet (c id : nat) (res : FetchResult) (w : World) :
  dormant c w -> quiet c w (settle host id res w).
Proof.
  intros Hd. destruct (inflight w !! id) as [r|] eqn:Hr;
    [|unfold settle; by rewrite Hr].
  rewrite (settle_unfold host id res w r Hr).
  set (w0 := set_inflight (delete id) w).
  assert (dormant c w0) as Hd0 by done.
  change (quiet c w0
            match fetch_outcome res with
            | Return content => on_content host r content w0
            | Throw e => on_rejected host r e w0
            end).
  destruct (fetch_outcome res) as [content|e].
  - unfold on_content.
    pose proof (handleLoad_quiet c (req_owner r) content w0 Hd0) as H1.
    set (w1 := handleLoad host (req_owner r) content w0) in *.
    pose proof (quiet_dormant c w0 w1 H1 Hd0) as Hd1.
    eapply quiet_trans; [exact H1|].
    destruct (req_cacheRequests r); [|done].
    destruct (cacheStore w1 !! req_src r) as [cache|]; [|done].
    match goal with |- context [fold_left ?f ?q ?w2] =>
      assert (quiet c w1 (fold_left f q w2)) as H2
        by (apply (drain_quiet c content q w2); exact Hd1) end.
    exact H2.
  - unfold on_rejected. destruct (req_cacheRequests r).
    + assert (dormant c (set_cacheStore (delete (req_src r)) w0)) as Hd1
        by (unfold dormant in *; exact Hd0).
      pose proof (handleError_quiet c (req_owner r) e _ Hd1) as H.
      unfold quiet in *. exact H.
    + by apply handleError_quiet.
Qed.

Lemma step_quiet (c : nat) (w : World) (ev : Event) :
  dormant c w -> quiet c w (step host w ev).
Proof.
  intros Hd. pose proof Hd as (i & Hi & Ha & Hl).
  destruct ev as [c' p random|c'|c' p|c'|id res]; simpl.
  - unfold construct. destruct (instances w !! c') as [i'|] eqn:Hi'; [done|].
    split; [|done]. simpl. apply lookup_insert_ne. congruence.
  - unfold componentDidMount. destruct (instances w !! c') as [i'|] eqn:Hi'; [|done].
    destruct (lifecycle i') eqn:Hl'; [|done..].
    assert (c' <> c) as Hne by (intros ->; congruence).
    set (w1 := set_instances _ w).
    assert (quiet c w w1) as H1
      by (split; [simpl; by apply lookup_insert_ne|done]).
    pose proof (quiet_dormant c w w1 H1 Hd) as Hd1.
    eapply quiet_trans; [exact H1|].
    destruct (negb (canUseDOM host)); [done|].
    destruct (IState.status (state i')); try done.
    destruct (negb (isSupportedEnvironment host)); [by apply handleError_quiet|].
    destruct (negb (truthy _)); [by apply handleError_quiet|by apply load_quiet].
  - unfold componentDidUpdate. destruct (instances w !! c') as [i'|] eqn:Hi'; [|done].
    destruct (lifecycle i') eqn:Hl'; [done| |done].
    assert (c' <> c) as Hne by (intros ->; congruence).
    set (w1 := set_instances _ w).
    assert (quiet c w w1) as H1
      by (split; [simpl; by apply lookup_insert_ne|done]).
    pose proof (quiet_dormant c w w1 H1 Hd) as Hd1.
    eapply quiet_trans; [exact H1|].
    destruct (negb (canUseDOM host)); [done|].
    destruct (negb (str_eqb _ _)); [|done].
    destruct (negb (truthy _)); [by apply handleError_quiet|by apply load_quiet].
  - unfold componentWillUnmount.
    destruct (instances w !! c') as [i'|] eqn:Hi'; [|done].
    destruct (lifecycle i') eqn:Hl'; [done| |done].
    assert (c' <> c) as Hne by (intros ->; congruence).
    split; [simpl; by apply lookup_insert_ne|done].
  - by apply settle_quiet.
Qed.

Lemma run_quiet (c : nat) (evs : list Event) (w : World) :
  dormant c w -> quiet c w (run host w evs).
Proof.
  revert w. induction evs as [|ev evs IH]; intros w Hd; [done|].
  pose proof (step_quiet c w ev Hd) as H.
  eapply quiet_trans; [exact H|]. apply IH. by eapply quiet_dormant.
Qed.

End Teardown.

(** C9: the teardown sets the active flag false and writes nothing
    else; from then on no event, whether a fetch settling, the drain of a
    queue or an error, changes the instance or produces a [setState], an
    [onError] or an [onLoad] of it.  A fetch of the instance that
    succeeds after the teardown still writes its cache entry and still
    calls every callback of the queue. *)
Theorem unmounted_instance_is_never_written :
  (forall w c i,
     instances w !! c = Some i -> lifecycle i = Mounted ->
     let w' := componentWillUnmount c w in
     (exists i', instances w' !! c = Some i' /\ isActive i' = false
                 /\ lifecycle i' = Unmounted /\ state i' = state i)
     /\ net w' = net w
     /\ (forall c', c' <> c -> instances w' !! c' = instances w !! c'))
  /\ (forall host w c i evs,
        instances w !! c = Some i -> isActive i = false ->
        lifecycle i = Unmounted ->
        instances (run host w evs) !! c = Some i
        /\ about c (log (run host w evs)) = about c (log w))
  /\ (forall host w c i id r res content entry,
        instances w !! c = Some i -> isActive i = false ->
        inflight w !! id = Some r -> req_owner r = c ->
        req_cacheRequests r = true ->
        cacheStore w !! req_src r = Some entry ->
        fetch_outcome res = Return content ->
        let w' := settle host id res w in
        instances w' !! c = Some i
        /\ cacheStore w' !! req_src r = Some (loaded_entry content)
        /\ calls (log w')
           = calls (log w)
             ++ (c, content)
                :: map (fun cb => (cb, content)) (IStorageItem.queue entry)).
Proof.
  split; [|split].
  - intros w c i Hi Hl w'. unfold w', componentWillUnmount. rewrite Hi, Hl.
    split; [|split].
    + eexists. split; [apply lookup_insert_eq|done].
    + done.
    + intros c' Hne. simpl. by apply lookup_insert_ne.
  - intros host w c i evs Hi Ha Hl.
    destruct (run_quiet host c evs w) as [H1 H2]; [by exists i|].
    rewrite H1. done.
  - intros host w c i id r res content entry Hi Ha Hr Ho Hc He Hres w'.
    assert (w' = on_content host r content (set_inflight (delete id) w)) as Hw'.
    { unfold w'. by rewrite (settle_unfold host id res w r Hr), Hres. }
    split; [|split].
    + rewrite Hw'.
      rewrite (on_content_cached host r content (set_inflight (delete id) w)
                 entry Hc He), Ho.
      rewrite (handleLoad_inactive host c content (set_inflight (delete id) w)
                 i Hi Ha).
      change (instances (set_cacheStore ?f ?x)) with (instances x).
      assert (forall q w1, instances w1 !! c = Some i ->
                instances (fold_left (fun w cb => handleLoad host cb content w) q w1) !! c
                = Some i) as Hdrain.
      { induction q as [|cb q IH]; intros w1 Hw1; [done|]. simpl. apply IH.
        destruct (decide (cb = c)) as [->|Hne].
        - by rewrite (handleLoad_inactive host c content w1 i Hw1 Ha).
        - destruct (handleLoad_touches host cb content w1) as (_ & _ & Hot).
          rewrite Hot; done. }
      by apply Hdrain.
    + pose proof (on_content_net host r content (set_inflight (delete id) w)) as Hn.
      rewrite <- Hw' in Hn. injection Hn as -> _ _. simpl.
      rewrite Hc, He. apply lookup_insert_eq.
    + rewrite Hw'.
      rewrite (on_content_calls host r content (set_inflight (delete id) w)
                 entry Hc He), Ho. done.
Qed.

Lemma unmounted_instance_witness :
  let src := lit "https://x/a.svg" in
  let w0 := run example_host init_world
              [Construct 0 (example_props src) (lit "r");
               Construct 1 (example_props src) (lit "r");
               Mount 0; Mount 1] in
  let w := componentWillUnmount 0 w0 in
  let res := Response 200 (Some (lit "image/svg+xml")) (Return (lit "<svg/>")) in
  net w = net w0
  /\ instances (run example_host w [Settle 0 res; Mount 0]) !! 0 = instances w !! 0
  /\ cacheStore (settle example_host 0 res w) !! src
     = Some (loaded_entry (lit "<svg/>"))
  /\ calls (log (settle example_host 0 res w))
     = calls (log w) ++ [(0, lit "<svg/>"); (1, lit "<svg/>")].
Proof.
  intros src w0 w res.
  destruct unmounted_instance_is_never_written as (Hdown & Hquiet & Hfetch).
  split; [|split].
  - apply (Hdown w0 0 (instance_of w0 0)); vm_compute; reflexivity.
  - destruct (Hquiet example_host w 0 (instance_of w 0) [Settle 0 res; Mount 0])
      as [H _]; [vm_compute; reflexivity..|].
    rewrite H. vm_compute. reflexivity.
  - destruct (Hfetch example_host w 0 (instance_of w 0) 0
                {| req_owner := 0; req_src := src; req_cacheRequests := true |}
                res (lit "<svg/>")
                {| IStorageItem.content := []; IStorageItem.status := LOADING;
                   IStorageItem.queue := [1] |})
      as (_ & H1 & H2); [vm_compute; reflexivity..|].
    split; [exact H1|exact H2].
Defined.

(** ** The rewriting of attributes *)

Lemma rewrite_url_eq (baseURL hash : jsstring) (a : Attr.t) :
  rewrite_url baseURL hash a
  = {| Attr.name := Attr.name a;
       Attr.value := rewrite_url_value baseURL hash (Attr.value a) |}.
Proof.
  unfold rewrite_url, rewrite_url_value.
  destruct (match_url (Attr.value a)) as [g|]; [destruct (truthy g)|];
    by destruct a.
Qed.

Lemma find_attribute_rewrite (baseURL hash r : jsstring) (attrs : list Attr.t) :
  find_attribute r (map (rewrite_url baseURL hash) attrs)
  = rewrite_url_value baseURL hash <$> find_attribute r attrs.
Proof.
  induction attrs as [|a attrs IH]; [done|].
  cbn [map find_attribute]. rewrite rewrite_url_eq.
  cbn [Attr.name Attr.value]. by destruct (str_eqb (Attr.name a) r).
Qed.

Lemma find_attribute_suffix (hash r : jsstring) (attrs : list Attr.t) :
  find_attribute r (suffix_attribute hash r attrs)
  = suffixed hash r <$> find_attribute r attrs.
Proof.
  induction attrs as [|a attrs IH]; [done|].
  cbn [suffix_attribute find_attribute].
  destruct (str_eqb (Attr.name a) r) eqn:Hn.
  - unfold suffixed. destruct (isDataValue r (Attr.value a)) eqn:Hd;
      cbn [find_attribute Attr.name Attr.value]; rewrite Hn; simpl;
      by rewrite Hd.
  - cbn [find_attribute]. by rewrite Hn.
Qed.

Lemma find_attribute_suffix_ne (hash r r' : jsstring) (attrs : list Attr.t) :
  r' <> r ->
  find_attribute r' (suffix_attribute hash r attrs) = find_attribute r' attrs.
Proof.
  intros Hne. induction attrs as [|a attrs IH]; [done|].
  cbn [suffix_attribute find_attribute].
  destruct (str_eqb (Attr.name a) r) eqn:Hn.
  - assert (str_eqb (Attr.name a) r' = false) as Hn'.
    { unfold str_eqb in *. apply bool_decide_eq_true in Hn.
      apply bool_decide_eq_false. congruence. }
    destruct (isDataValue r (Attr.value a));
      cbn [find_attribute Attr.name Attr.value]; by rewrite Hn'.
  - cbn [find_attribute]. by rewrite IH.
Qed.

(** Each of the five names is looked up once, and the lookups of the
    other four do not touch its attribute. *)
Lemma find_attribute_update (baseURL hash r : jsstring) (attrs : list Attr.t) :
  r ∈ replaceableAttributes ->
  find_attribute r (update_attributes baseURL hash attrs)
  = suffixed hash r <$> (rewrite_url_value baseURL hash <$> find_attribute r attrs).
Proof.
  intros Hr. unfold update_attributes, replaceableAttributes in *. simpl.
  rewrite <- find_attribute_rewrite.
  set (m := map (rewrite_url baseURL hash) attrs).
  repeat (apply elem_of_cons in Hr as [->|Hr]);
    [..|by apply elem_of_nil in Hr];
    repeat first
      [ rewrite find_attribute_suffix_ne by (vm_compute; discriminate)
      | rewrite find_attribute_suffix ];
    done.
Qed.

Lemma isDataValue_iff (r v : jsstring) :
  isDataValue r v = true
  <-> (r = lit "href" \/ r = lit "xlink:href") /\ v <> []
      /\ (indexOf v (lit "#") < 0)%Z.
Proof.
  unfold isDataValue, array_indexOf, linkAttributes. simpl.
  unfold str_eqb. rewrite andb_true_iff. split.
  - intros [Hl Hv]. destruct v as [|x v]; [done|]. simpl in Hv.
    apply Z.ltb_lt in Hv. split; [|split; [done|done]].
    repeat case_bool_decide; auto. done.
  - intros ([->| ->] & Hv & Hi); (split; [by vm_compute|]);
      (destruct v; [done|]); simpl; by apply Z.ltb_lt.
Qed.

Lemma update_attributes_nil (baseURL hash : jsstring) :
  update_attributes baseURL hash [] = [].
Proof. reflexivity. Qed.

Lemma uniquify_texts (baseURL hash : jsstring) (c : list Node) :
  existsb is_element c = false -> map (uniquify baseURL hash) c = c.
Proof.
  induction c as [|d c IH]; [done|]. simpl. intros H.
  apply orb_false_iff in H as [Hd Hc]. rewrite IH by done.
  by destruct d.
Qed.

Lemma updateSVGAttributes_off (props : IProps.t) (hash : jsstring) (n : Node) :
  IProps.uniquifyIDs props = false -> updateSVGAttributes props hash n = n.
Proof. intros H. destruct n; simpl; by rewrite H. Qed.

(** With [uniquifyIDs] the node itself is left as it is and every
    descendant has its attributes rewritten. *)
Lemma updateSVGAttributes_on (props : IProps.t) (hash : jsstring) (n : Node) :
  IProps.uniquifyIDs props = true ->
  updateSVGAttributes props hash n
  = match n with
    | Element t a c =>
        Element t a (map (uniquify (default [] (IProps.baseURL props)) hash) c)
    | Text _ => n
    end.
Proof.
  intros Hon. induction n as [t a c IH|s] using Node_forall_ind;
    simpl; rewrite Hon; simpl; [|done].
  f_equal. induction IH as [|d c Hd _ IHc]; [done|]. simpl. f_equal; [|done].
  destruct d as [t' a' c'|s]; [|done].
  assert (match a' with
          | [] => a'
          | _ :: _ => update_attributes (default [] (IProps.baseURL props)) hash a'
          end = update_attributes (default [] (IProps.baseURL props)) hash a') as ->
    by (by destruct a').
  destruct (has_children (Element t' a' c')) eqn:Hc.
  - rewrite Hd. done.
  - simpl. simpl in Hc. by rewrite uniquify_texts.
Qed.

Lemma node_at_uniquify (baseURL hash : jsstring) (path : list nat) (d : Node) :
  node_at path (uniquify baseURL hash d) = uniquify baseURL hash <$> node_at path d.
Proof.
  revert d. induction path as [|k path IH]; intros d; [done|].
  destruct d as [t a c|s]; [|done]. simpl.
  rewrite list_lookup_fmap. destruct (c !! k) as [d'|]; simpl; [apply IH|done].
Qed.

Lemma attributes_at_updateSVGAttributes (props : IProps.t) (hash : jsstring)
  (n : Node) (k : nat) (path : list nat) :
  IProps.uniquifyIDs props = true ->
  attributes_at (k :: path) (updateSVGAttributes props hash n)
  = update_attributes (default [] (IProps.baseURL props)) hash
    <$> attributes_at (k :: path) n.
Proof.
  intros Hon. rewrite updateSVGAttributes_on by done. unfold attributes_at.
  destruct n as [t a c|s]; [|done]. simpl.
  rewrite list_lookup_fmap. destruct (c !! k) as [d|]; simpl; [|done].
  rewrite node_at_uniquify. destruct (node_at path d) as [[t' a' c'|s]|]; done.
Qed.

(** C4, as the spec has it, fails: with the token [abc123] the element
    [<use href="#x"/>] does not stay as it is, its [href] becomes
    [#x__abc123], as the [id] of [<rect id="x"/>] becomes [x__abc123]. *)
Lemma fragment_href_counterexample :
  let svg := updateSVGAttributes (example_props []) (lit "abc123") example_svg in
  svg
  = Element (lit "svg") []
      [Element (lit "rect")
         [{| Attr.name := lit "id"; Attr.value := lit "x__abc123" |}] [];
       Element (lit "use")
         [{| Attr.name := lit "href"; Attr.value := lit "#x__abc123" |}] []]
  /\ attributes_at [1] svg <> attributes_at [1] example_svg.
Proof. vm_compute. split; [reflexivity|discriminate]. Qed.

(** C4 (amended): with uniquification enabled every descendant element
    of the node has its attributes rewritten.  Of the attributes named
    [id], [href], [xlink:href], [xlink:role] and [xlink:arcrole] the
    value, after the rewriting of a [url(...)] in it, gets [__] and the
    token appended, unless the attribute is [href] or [xlink:href] and
    the value is not empty and has no [#] in it: only such a value is
    left as a data reference.  An [href] whose value has a [#] in it or
    is empty is suffixed like the others. *)
Theorem uniquify_suffixes_identifiers (props : IProps.t) (hash : jsstring) :
  IProps.uniquifyIDs props = true ->
  let baseURL := default [] (IProps.baseURL props) in
  (forall n k path,
     attributes_at (k :: path) (updateSVGAttributes props hash n)
     = update_attributes baseURL hash <$> attributes_at (k :: path) n)
  /\ (forall attrs r v,
        r ∈ replaceableAttributes -> find_attribute r attrs = Some v ->
        find_attribute r (update_attributes baseURL hash attrs)
        = Some (suffixed hash r (rewrite_url_value baseURL hash v)))
  /\ (forall r v,
        (r = lit "href" \/ r = lit "xlink:href") -> v <> [] ->
        (indexOf v (lit "#") < 0)%Z ->
        suffixed hash r v = v)
  /\ (forall r v,
        (r = lit "href" \/ r = lit "xlink:href") ->
        (v = [] \/ (0 <= indexOf v (lit "#"))%Z) ->
        suffixed hash r v = v ++ lit "__" ++ hash)
  /\ (forall r v,
        r <> lit "href" -> r <> lit "xlink:href" ->
        suffixed hash r v = v ++ lit "__" ++ hash)
  /\ (forall v, match_url v = None -> rewrite_url_value baseURL hash v = v).
Proof.
  intros Hon baseURL. repeat split.
  - intros n k path. by apply attributes_at_updateSVGAttributes.
  - intros attrs r v Hr Hv. rewrite find_attribute_update by done.
    by rewrite Hv.
  - intros r v Hr Hv Hi. unfold suffixed.
    by rewrite (proj2 (isDataValue_iff r v)).
  - intros r v Hr Hv. unfold suffixed.
    destruct (isDataValue r v) eqn:Hd; [|done].
    apply isDataValue_iff in Hd as (_ & Hne & Hi). destruct Hv; [done|lia].
  - intros r v H1 H2. unfold suffixed.
    destruct (isDataValue r v) eqn:Hd; [|done].
    apply isDataValue_iff in Hd as ([?|?] & _); done.
  - intros v Hv. unfold rewrite_url_value. by rewrite Hv.
Qed.

Lemma uniquify_suffixes_identifiers_witness :
  attributes_at [1] (updateSVGAttributes (example_props []) (lit "abc123") example_svg)
  = Some (update_attributes [] (lit "abc123")
            [{| Attr.name := lit "href"; Attr.value := lit "#x" |}])
  /\ find_attribute (lit "id")
       (update_attributes [] (lit "abc123")
          [{| Attr.name := lit "id"; Attr.value := lit "x" |}])
     = Some (lit "x__abc123")
  /\ find_attribute (lit "href")
       (update_attributes [] (lit "abc123")
          [{| Attr.name := lit "href"; Attr.value := lit "#x" |}])
     = Some (lit "#x__abc123")
  /\ find_attribute (lit "href")
       (update_attributes [] (lit "abc123")
          [{| Attr.name := lit "href"; Attr.value := lit "a.png" |}])
     = Some (lit "a.png").
Proof.
  destruct (uniquify_suffixes_identifiers (example_props []) (lit "abc123"))
    as (Htree & Hattr & Hdata & Hfrag & Hother & Hurl); [reflexivity|].
  simpl in Htree, Hattr, Hurl.
  split; [|split; [|split]].
  - rewrite Htree. reflexivity.
  - rewrite (Hattr _ (lit "id") (lit "x")); [|vm_compute; set_solver|reflexivity].
    rewrite Hurl by reflexivity.
    rewrite Hother; [reflexivity|discriminate|discriminate].
  - rewrite (Hattr _ (lit "href") (lit "#x")); [|vm_compute; set_solver|reflexivity].
    rewrite Hurl by reflexivity.
    rewrite Hfrag; [reflexivity|by left|right; vm_compute; discriminate].
  - rewrite (Hattr _ (lit "href") (lit "a.png"));
      [|vm_compute; set_solver|reflexivity].
    rewrite Hurl by reflexivity.
    rewrite Hdata; [reflexivity|by left|discriminate|reflexivity].
Defined.

(** C5, as the spec has it, fails: a second application with the same
    token appends the token again, and the [id] that was [x] and became
    [x__abc123] becomes [x__abc123__abc123]. *)
Lemma double_suffix_counterexample :
  let T := updateSVGAttributes (example_props []) (lit "abc123") in
  attributes_at [0] (T example_svg)
  = Some [{| Attr.name := lit "id"; Attr.value := lit "x__abc123" |}]
  /\ attributes_at [0] (T (T example_svg))
     = Some [{| Attr.name := lit "id"; Attr.value := lit "x__abc123__abc123" |}]
  /\ T (T example_svg) <> T example_svg.
Proof. vm_compute. repeat split; (reflexivity || discriminate). Qed.

(** C5 (amended): the transformer is not idempotent.  An application
    never looks for a suffix that is already there: applied to a value
    that ends in [__] and the token, and that holds no [url(...)] and is
    no data reference, it appends [__] and the token once more, and two
    applications rewrite the attributes of every descendant twice. *)
Theorem uniquify_appends_again (props : IProps.t) (hash : jsstring) :
  IProps.uniquifyIDs props = true ->
  let baseURL := default [] (IProps.baseURL props) in
  (forall n k path,
     attributes_at (k :: path)
       (updateSVGAttributes props hash (updateSVGAttributes props hash n))
     = update_attributes baseURL hash
       <$> (update_attributes baseURL hash <$> attributes_at (k :: path) n))
  /\ (forall attrs r v,
        r ∈ replaceableAttributes ->
        find_attribute r attrs = Some (v ++ lit "__" ++ hash) ->
        match_url (v ++ lit "__" ++ hash) = None ->
        isDataValue r (v ++ lit "__" ++ hash) = false ->
        find_attribute r (update_attributes baseURL hash attrs)
        = Some ((v ++ lit "__" ++ hash) ++ lit "__" ++ hash))
  /\ (forall attrs v,
        find_attribute (lit "id") attrs = Some v ->
        match_url v = None -> match_url (v ++ lit "__" ++ hash) = None ->
        find_attribute (lit "id")
          (update_attributes baseURL hash (update_attributes baseURL hash attrs))
        = Some ((v ++ lit "__" ++ hash) ++ lit "__" ++ hash)).
Proof.
  intros Hon baseURL.
  assert (forall attrs r v,
            r ∈ replaceableAttributes -> find_attribute r attrs = Some v ->
            match_url v = None -> isDataValue r v = false ->
            find_attribute r (update_attributes baseURL hash attrs)
            = Some (v ++ lit "__" ++ hash)) as Hstep.
  { intros attrs r v Hr Hv Hu Hd. rewrite find_attribute_update by done.
    rewrite Hv. simpl. unfold rewrite_url_value. rewrite Hu.
    unfold suffixed. by rewrite Hd. }
  split; [|split].
  - intros n k path. by rewrite !attributes_at_updateSVGAttributes.
  - intros attrs r v Hr Hv Hu Hd. by apply Hstep.
  - intros attrs v Hv Hu1 Hu2.
    assert (lit "id" ∈ replaceableAttributes) as Hid by (vm_compute; set_solver).
    apply Hstep; [done| |done|reflexivity].
    apply Hstep; [done|done|done|reflexivity].
Qed.

Lemma uniquify_appends_again_witness :
  let upd := update_attributes [] (lit "abc123") in
  let T := updateSVGAttributes (example_props []) (lit "abc123") in
  attributes_at [0] (T (T example_svg))
  = Some (upd (upd [{| Attr.name := lit "id"; Attr.value := lit "x" |}]))
  /\ find_attribute (lit "href")
       (upd [{| Attr.name := lit "href"; Attr.value := lit "#x__abc123" |}])
     = Some (lit "#x__abc123__abc123")
  /\ find_attribute (lit "id")
       (upd (upd [{| Attr.name := lit "id"; Attr.value := lit "x" |}]))
     = Some (lit "x__abc123__abc123").
Proof.
  intros upd T.
  destruct (uniquify_appends_again (example_props []) (lit "abc123"))
    as (Htree & Hagain & Htwice); [reflexivity|].
  simpl in Htree, Hagain, Htwice.
  split; [|split].
  - unfold T. rewrite Htree. reflexivity.
  - apply (Hagain _ (lit "href") (lit "#x"));
      [vm_compute; set_solver|reflexivity|reflexivity|reflexivity].
  - apply (Htwice _ (lit "x")); reflexivity.
Defined.

(** ** A conversion that fails in [getNode] *)

Section Conversion.

Context (host : Host).

Lemma setState_writes (c : nat) (f : IState.t -> IState.t) (w : World) (i : Instance) :
  instances w !! c = Some i ->
  writes c (log (setState host c f w)) = writes c (log w) ++ [f (state i)].
Proof.
  intros Hi. unfold setState. rewrite Hi.
  destruct (_ && _); simpl; rewrite !writes_app; simpl;
    rewrite Nat.eqb_refl, ?app_nil_r; done.
Qed.

Lemma handleError_writes (c : nat) (e : Error) (w : World) (i : Instance) :
  instances w !! c = Some i -> isActive i = true ->
  writes c (log (handleError host c e w))
  = writes c (log w) ++ [with_status (error_status e) (state i)].
Proof.
  intros Hi Ha. unfold handleError. rewrite Hi, Ha.
  set (w1 := if negb (production host) then emit (ConsoleError e) w else w).
  assert (instances w1 !! c = Some i /\ writes c (log w1) = writes c (log w))
    as [Hi1 Hw1].
  { unfold w1. destruct (negb _); simpl; rewrite ?writes_app; simpl;
      rewrite ?app_nil_r; done. }
  pose proof (setState_writes c (with_status (error_status e)) w1 i Hi1) as H.
  unfold with_status in H at 1.
  destruct (IProps.onError _); simpl; rewrite ?writes_app; simpl;
    rewrite ?app_nil_r, H, Hw1; done.
Qed.

End Conversion.

(** C6: the code reports one failure twice.  When the [try] of
    [getNode] throws, because the text does not convert to an SVG root
    or the conversion or the [preProcessor] raises, [getNode] passes the
    error to [handleError] and returns [undefined]; [getElement] goes on
    with it, [convert] gives no element for it, and [handleError] is
    called once more: a terminal status is written twice and [onError]
    is called twice, the second time with "Could not convert the src to
    a React element" when [convert] returns [null]. *)
Theorem conversion_failure_is_reported_twice (host : Host) (c : nat)
  (s : jsstring) (w : World) (i : Instance) (e : Error) :
  instances w !! c = Some i -> isActive i = true ->
  IProps.onError (props i) = true ->
  getNode_try host (set_state (loaded_state s (state i)) i) = Throw e ->
  (forall el, convert_node host None <> Return (Some el)) ->
  exists e2,
    errors (log (handleLoad host c s w)) = errors (log w) ++ [(c, e); (c, e2)]
    /\ map IState.status (writes c (log (handleLoad host c s w)))
       = map IState.status (writes c (log w))
         ++ [LOADED; error_status e; error_status e2]
    /\ (convert_node host None = Return None ->
        e2 = mk_error (lit "Could not convert the src to a React element")).
Proof.
  intros Hi Ha Hon Hnode Hconv. unfold handleLoad. simpl. rewrite Hi, Ha.
  pose proof (setState_lookup host c (loaded_state s)
                (emit (CallHandleLoad c s) w) i Hi) as Hi1.
  destruct (setState_calls host c (loaded_state s) (emit (CallHandleLoad c s) w))
    as [_ He1].
  pose proof (setState_writes host c (loaded_state s)
                (emit (CallHandleLoad c s) w) i Hi) as Hw1.
  unfold loaded_state in Hi1 at 1. unfold loaded_state in He1 at 1.
  unfold loaded_state in Hw1 at 1.
  set (w1 := setState host c _ _) in *.
  unfold getElement, getNode. rewrite Hi1, Hnode.
  destruct (handleError_calls host c e w1) as [_ He2].
  pose proof (handleError_lookup host c e w1 _ Hi1 Ha) as Hi2.
  pose proof (handleError_writes host c e w1 _ Hi1 Ha) as Hw2.
  rewrite Hi1 in He2. cbn [isActive props set_state] in He2.
  rewrite Ha, Hon in He2. simpl in He2.
  set (w2 := handleError host c e w1) in *.
  assert (forall e2,
            errors (log (handleError host c e2 w2))
            = errors (log w) ++ [(c, e); (c, e2)]
            /\ map IState.status (writes c (log (handleError host c e2 w2)))
               = map IState.status (writes c (log w))
                 ++ [LOADED; error_status e; error_status e2]) as Hfinal.
  { intros e2. destruct (handleError_calls host c e2 w2) as [_ ->].
    rewrite (handleError_writes host c e2 w2 _ Hi2 Ha).
    rewrite Hi2. cbn [isActive props set_state]. rewrite Ha, Hon. simpl.
    rewrite He2, He1, Hw2, Hw1. simpl. rewrite errors_app, writes_app. simpl.
    rewrite !app_nil_r, !map_app, <- !app_assoc. done. }
  destruct (convert_node host None) as [[el|]|e'] eqn:Hc.
  - by destruct (Hconv el).
  - eexists. split; [apply Hfinal|]. split; [apply Hfinal|done].
  - eexists. split; [apply Hfinal|]. split; [apply Hfinal|done].
Qed.

Lemma conversion_failure_witness :
  let src := lit "https://x/a.svg" in
  let w := run example_host init_world
             [Construct 0 (example_props src) (lit "r"); Mount 0] in
  exists e2,
    errors (log (handleLoad example_host 0 (lit "hello") w))
    = errors (log w)
      ++ [(0, mk_error (lit "Could not convert the src to a DOM Node")); (0, e2)]
    /\ map IState.status (writes 0 (log (handleLoad example_host 0 (lit "hello") w)))
       = map IState.status (writes 0 (log w)) ++ [LOADED; FAILED; error_status e2]
    /\ e2 = mk_error (lit "Could not convert the src to a React element").
Proof.
  intros src w.
  destruct (conversion_failure_is_reported_twice example_host 0 (lit "hello") w
              (instance_of w 0)
              (mk_error (lit "Could not convert the src to a DOM Node")))
    as (e2 & He & Hw & Hm);
    [vm_compute; reflexivity|vm_compute; reflexivity|vm_compute; reflexivity
    |vm_compute; reflexivity|intros el; vm_compute; discriminate|].
  exists e2. split; [exact He|]. split; [exact Hw|]. apply Hm. reflexivity.
Defined.

(** The same failure in a run: a fetch answers with a text that is no
    SVG document, and the one settling writes FAILED twice and calls
    [onError] twice. *)
Example conversion_failure_run :
  let src := lit "https://x/a.svg" in
  let w := run example_host init_world
             [Construct 0 (example_props src) (lit "r"); Mount 0] in
  let w' := settle example_host 0
              (Response 200 (Some (lit "text/plain")) (Return (lit "hello"))) w in
  errors (log w')
  = [(0, mk_error (lit "Could not convert the src to a DOM Node"));
     (0, mk_error (lit "Could not convert the src to a React element"))]
  /\ map IState.status (writes 0 (log w')) = [LOADING; LOADED; FAILED; FAILED].
Proof. vm_compute. split; reflexivity. Qed.

(** * Further properties of the component *)

(** ** What [handleLoad] leaves behind *)

Lemma set_state_set_state (st st' : IState.t) (i : Instance) :
  set_state st' (set_state st i) = set_state st' i.
Proof. reflexivity. Qed.

Lemma handleLoad_final (host : Host) (c : nat) (s : jsstring) (w : World)
  (i : Instance) :
  instances w !! c = Some i -> isActive i = true ->
  exists st', instances (handleLoad host c s w) !! c = Some (set_state st' i)
              /\ delivered s (state i) st'.
Proof.
  intros Hi Ha. unfold handleLoad. simpl. rewrite Hi, Ha.
  pose proof (setState_lookup host c (loaded_state s)
                (emit (CallHandleLoad c s) w) i Hi) as Hi1.
  unfold loaded_state in Hi1 at 1.
  set (w1 := setState host c _ _) in *.
  set (i1 := set_state (loaded_state s (state i)) i) in *.
  assert (isActive i1 = true) as Ha1 by done.
  assert (forall e w2 st2,
            instances w2 !! c = Some (set_state st2 i) ->
            IState.content st2 = s ->
            IState.hasCache st2 = IState.hasCache (state i) ->
            IState.element st2 = IState.element (state i) ->
            exists st', instances (handleError host c e w2) !! c
                        = Some (set_state st' i)
                        /\ delivered s (state i) st') as Herr.
  { intros e w2 st2 Hi2 Hc2 Hh2 He2.
    rewrite (handleError_lookup host c e w2 _ Hi2 Ha).
    eexists. split; [reflexivity|]. unfold delivered. simpl.
    repeat split; try done. right. split; [|done].
    destruct (error_status_cases e) as [[_ ->]|[_ ->]]; auto. }
  assert (forall el w2 st2,
            instances w2 !! c = Some (set_state st2 i) ->
            IState.content st2 = s ->
            IState.hasCache st2 = IState.hasCache (state i) ->
            exists st', instances
                          (setState host c
                             (fun st => {| IState.content := IState.content st;
                                           IState.element := Some el;
                                           IState.hasCache := IState.hasCache st;
                                           IState.status := READY |}) w2) !! c
                        = Some (set_state st' i)
                        /\ delivered s (state i) st') as Hready.
  { intros el w2 st2 Hi2 Hc2 Hh2.
    rewrite (setState_lookup host c _ w2 _ Hi2).
    eexists. split; [reflexivity|]. unfold delivered. simpl.
    repeat split; try done. left. split; [done|by eexists]. }
  unfold getElement, getNode. rewrite Hi1.
  destruct (getNode_try host i1) as [svg|e].
  - destruct (convert_node host (Some svg)) as [[el|]|e'].
    + by apply (Hready el w1 (loaded_state s (state i))).
    + by apply (Herr _ w1 (loaded_state s (state i))).
    + by apply (Herr _ w1 (loaded_state s (state i))).
  - pose proof (handleError_lookup host c e w1 _ Hi1 Ha1) as Hi2.
    set (w2 := handleError host c e w1) in *.
    destruct (convert_node host None) as [[el|]|e'].
    + by apply (Hready el w2 (with_status (error_status e) (state i1))).
    + by apply (Herr _ w2 (with_status (error_status e) (state i1))).
    + by apply (Herr _ w2 (with_status (error_status e) (state i1))).
Qed.

(** ** Relations that every event keeps *)

Section Lift.

Context (host : Host) (R : Instance -> Instance -> Prop).

Hypothesis R_refl : forall i, R i i.
Hypothesis R_trans : forall i j k, R i j -> R j k -> R i k.
Hypothesis R_error : forall i e,
  isActive i = true -> R i (set_state (with_status (error_status e) (state i)) i).
Hypothesis R_delivered : forall i s st',
  isActive i = true -> delivered s (state i) st' -> R i (set_state st' i).
Hypothesis R_loading : forall i,
  isActive i = true -> R i (set_state (loading_state (state i)) i).
Hypothesis R_mount : forall i,
  lifecycle i = Constructed -> R i (set_phase true Mounted i).
Hypothesis R_props : forall i p, lifecycle i = Mounted -> R i (set_props p i).
Hypothesis R_unmount : forall i,
  lifecycle i = Mounted -> R i (set_phase false Unmounted i).

Lemma lifts_refl (w : World) : lifts R w w.
Proof. intros c i Hi. eauto. Qed.

Lemma lifts_trans (w1 w2 w3 : World) :
  lifts R w1 w2 -> lifts R w2 w3 -> lifts R w1 w3.
Proof.
  intros H1 H2 c i Hi. destruct (H1 c i Hi) as (j & Hj & Hij).
  destruct (H2 c j Hj) as (k & Hk & Hjk). eauto.
Qed.

Lemma lifts_same (w w' : World) : instances w' = instances w -> lifts R w w'.
Proof. intros H c i Hi. rewrite H. eauto. Qed.

Lemma lifts_insert (w : World) (c : nat) (i i' : Instance) :
  instances w !! c = Some i -> R i i' ->
  lifts R w (set_instances <[c := i']> w).
Proof.
  intros Hi HR c0 i0 Hi0. simpl. destruct (decide (c = c0)) as [<-|Hne].
  - rewrite lookup_insert_eq. exists i'. split; [done|]. congruence.
  - rewrite lookup_insert_ne by done. eauto.
Qed.

Lemma lifts_touch (c : nat) (w w' : World) :
  touches_only c w w' ->
  (forall i, instances w !! c = Some i ->
             exists i', instances w' !! c = Some i' /\ R i i') ->
  lifts R w w'.
Proof.
  intros (_ & _ & Hot) Hc c0 i Hi. destruct (decide (c0 = c)) as [->|Hne].
  - by apply Hc.
  - rewrite Hot by done. eauto.
Qed.

Lemma handleError_lifts (c : nat) (e : Error) (w : World) :
  lifts R w (handleError host c e w).
Proof.
  apply (lifts_touch c); [apply handleError_touches|]. intros i Hi.
  destruct (isActive i) eqn:Ha.
  - rewrite (handleError_lookup host c e w i Hi Ha). eauto.
  - rewrite (handleError_inactive host c e w i Hi Ha).
    destruct (negb _); eauto.
Qed.

Lemma handleLoad_lifts (c : nat) (s : jsstring) (w : World) :
  lifts R w (handleLoad host c s w).
Proof.
  apply (lifts_touch c); [apply handleLoad_touches|]. intros i Hi.
  destruct (isActive i) eqn:Ha.
  - destruct (handleLoad_final host c s w i Hi Ha) as (st' & Hi' & Hd). eauto.
  - rewrite (handleLoad_inactive host c s w i Hi Ha). eauto.
Qed.

Lemma drain_lifts (content : jsstring) (q : list nat) (w : World) :
  lifts R w (fold_left (fun w cb => handleLoad host cb content w) q w).
Proof.
  revert w. induction q as [|cb q IH]; intros w; [apply lifts_refl|].
  simpl. eapply lifts_trans; [apply handleLoad_lifts|apply IH].
Qed.

Lemma load_lifts (c : nat) (w : World) : lifts R w (load host c w).
Proof.
  destruct (instances w !! c) as [i|] eqn:Hi;
    [|unfold load; rewrite Hi; apply lifts_refl].
  destruct (isActive i) eqn:Ha;
    [|rewrite (load_inactive host c w i Hi Ha); apply lifts_refl].
  rewrite (load_active host c w i Hi Ha). cbv zeta.
  assert (lifts R w (setState host c loading_state w)) as H1.
  { apply (lifts_touch c); [apply setState_touches|]. intros i0 Hi0.
    rewrite (setState_lookup host c loading_state w i0 Hi0).
    assert (i0 = i) as -> by congruence. eauto. }
  set (w1 := setState host c loading_state w) in *.
  eapply lifts_trans; [exact H1|].
  assert (lifts R w1 (request host c w1)) as Hreq.
  { destruct (instances w1 !! c) as [i1|] eqn:Hi1;
      [|unfold request; rewrite Hi1; apply lifts_refl].
    destruct (fetch_throws host (IProps.src (props i1))) as [e|] eqn:Hf.
    - destruct (request_throws host c w1 i1 e Hi1 Hf) as [-> _].
      eapply lifts_trans; [by apply (lifts_same w1 (fetch_called c i1 w1))|].
      apply handleError_lifts.
    - apply lifts_same. unfold request. rewrite Hi1, Hf.
      by destruct (IProps.cacheRequests _). }
  destruct (if IProps.cacheRequests (props i) then _ else None) as [cache|].
  - destruct (IStorageItem.status cache);
      try apply lifts_refl; [apply handleLoad_lifts|by apply lifts_same].
  - destruct (inlineSrc _) as [s| |]; [destruct (truthy s)| |];
      [apply handleLoad_lifts|exact Hreq|exact Hreq|by apply lifts_same].
Qed.

Lemma settle_lifts (id : nat) (res : FetchResult) (w : World) :
  lifts R w (settle host id res w).
Proof.
  destruct (inflight w !! id) as [r|] eqn:Hr;
    [|unfold settle; rewrite Hr; apply lifts_refl].
  rewrite (settle_unfold host id res w r Hr).
  set (w0 := set_inflight (delete id) w).
  assert (lifts R w w0) as H0 by (by apply lifts_same).
  eapply lifts_trans; [exact H0|].
  destruct (fetch_outcome res) as [content|e].
  - unfold on_content.
    eapply lifts_trans; [apply (handleLoad_lifts (req_owner r) content w0)|].
    set (w1 := handleLoad host (req_owner r) content w0).
    destruct (req_cacheRequests r); [|apply lifts_refl].
    destruct (cacheStore w1 !! req_src r) as [cache|]; [|apply lifts_refl].
    match goal with |- lifts R w1 (set_cacheStore ?f (fold_left ?g ?q ?w2)) =>
      assert (lifts R w1 w2) as H2 by (by apply lifts_same);
      pose proof (drain_lifts content q w2) as H3;
      assert (lifts R (fold_left g q w2) (set_cacheStore f (fold_left g q w2)))
        as H4 by (by apply lifts_same)
    end.
    eapply lifts_trans; [exact H2|]. eapply lifts_trans; [exact H3|exact H4].
  - unfold on_rejected.
    match goal with |- lifts R w0 (handleError host ?c e ?w1) =>
      assert (lifts R w0 w1) as H1 by (apply lifts_same; by destruct (req_cacheRequests r));
      eapply lifts_trans; [exact H1|apply handleError_lifts]
    end.
Qed.

Lemma step_lifts (w : World) (ev : Event) : lifts R w (step host w ev).
Proof.
  destruct ev as [c p random|c|c p|c|id res]; simpl.
  - unfold construct. destruct (instances w !! c) as [i|] eqn:Hi;
      [apply lifts_refl|].
    intros c0 i0 Hi0. simpl. rewrite lookup_insert_ne by congruence. eauto.
  - unfold componentDidMount. destruct (instances w !! c) as [i|] eqn:Hi;
      [|apply lifts_refl].
    destruct (lifecycle i) eqn:Hl; try apply lifts_refl.
    eapply lifts_trans; [apply (lifts_insert w c i); [done|by apply R_mount]|].
    destruct (negb (canUseDOM host)); [apply lifts_refl|].
    destruct (IState.status (state i)); try apply lifts_refl.
    destruct (negb (isSupportedEnvironment host)); [apply handleError_lifts|].
    destruct (negb (truthy _)); [apply handleError_lifts|apply load_lifts].
  - unfold componentDidUpdate. destruct (instances w !! c) as [i|] eqn:Hi;
      [|apply lifts_refl].
    destruct (lifecycle i) eqn:Hl; try apply lifts_refl.
    eapply lifts_trans; [apply (lifts_insert w c i); [done|by apply R_props]|].
    destruct (negb (canUseDOM host)); [apply lifts_refl|].
    destruct (negb (str_eqb _ _)); [|apply lifts_refl].
    destruct (negb (truthy _)); [apply handleError_lifts|apply load_lifts].
  - unfold componentWillUnmount. destruct (instances w !! c) as [i|] eqn:Hi;
      [|apply lifts_refl].
    destruct (lifecycle i) eqn:Hl; try apply lifts_refl.
    apply (lifts_insert w c i); [done|by apply R_unmount].
  - apply settle_lifts.
Qed.

Lemma run_lifts (evs : list Event) (w : World) : lifts R w (run host w evs).
Proof.
  revert w. induction evs as [|ev evs IH]; intros w; [apply lifts_refl|].
  eapply lifts_trans; [apply step_lifts|apply IH].
Qed.

End Lift.

(** ** Requests without the cache *)

(** X1: with [cacheRequests] false a [load] of a source that goes to the
    network, which is one that is neither markup with [<svg] in it nor a
    data URI whose payload decodes to a text that is not empty or does
    not decode at all, calls [fetch] whatever the cache holds, and
    neither the [load] nor the settling of its fetch reads or writes the
    cache; the request is in flight when the call returns its promise,
    and nothing is put in flight when the call raises; the content goes
    to the instance that asked and to no queue. *)
Theorem uncached_load_always_fetches :
  (forall host w c i,
     instances w !! c = Some i -> isActive i = true ->
     IProps.cacheRequests (props i) = false ->
     goes_to_network (IProps.src (props i)) = true ->
     let w' := load host c w in
     issued w' = S (issued w)
     /\ inflight w'
        = match fetch_throws host (IProps.src (props i)) with
          | None => <[issued w := {| req_owner := c;
                                     req_src := IProps.src (props i);
                                     req_cacheRequests := false |}]> (inflight w)
          | Some _ => inflight w
          end
     /\ cacheStore w' = cacheStore w)
  /\ (forall host w id r res,
        inflight w !! id = Some r -> req_cacheRequests r = false ->
        let w' := settle host id res w in
        cacheStore w' = cacheStore w
        /\ inflight w' = delete id (inflight w)
        /\ calls (log w')
           = calls (log w)
             ++ match fetch_outcome res with
                | Return content => [(req_owner r, content)]
                | Throw _ => []
                end).
Proof.
  split.
  - intros host w c i Hi Ha Hc Hnet w'.
    assert ((if IProps.cacheRequests (props i)
             then cacheStore w !! IProps.src (props i) else None) = None) as Hmiss
      by (by rewrite Hc).
    destruct (fetch_throws host (IProps.src (props i))) as [e|] eqn:Hf.
    + destruct (load_request_throws host c w i e Hi Ha Hmiss Hnet Hf)
        as (Hn & _).
      fold w' in Hn. rewrite Hc in Hn. by injection Hn as -> -> ->.
    + destruct (load_request host c w i Hi Ha Hmiss Hnet Hf) as (_ & Hn & _).
      fold w' in Hn. rewrite Hc in Hn. by injection Hn as -> -> ->.
  - intros host w id r res Hr Hc w'. unfold w'.
    rewrite (settle_unfold host id res w r Hr).
    destruct (fetch_outcome res) as [content|e].
    + pose proof (on_content_net host r content (set_inflight (delete id) w)) as Hn.
      rewrite Hc in Hn. injection Hn as -> -> _. split; [done|]. split; [done|].
      unfold on_content. rewrite Hc. by rewrite handleLoad_calls.
    + pose proof (on_rejected_net host r e (set_inflight (delete id) w)) as Hn.
      rewrite Hc in Hn. injection Hn as -> -> _. split; [done|]. split; [done|].
      unfold on_rejected. rewrite Hc.
      destruct (handleError_calls host (req_owner r) e (set_inflight (delete id) w))
        as [-> _]. by rewrite app_nil_r.
Qed.

Lemma uncached_load_witness :
  let src := lit "https://x/a.svg" in
  let p := {| IProps.baseURL := None; IProps.cacheRequests := false;
              IProps.description := None; IProps.onError := true;
              IProps.onLoad := true; IProps.preProcessor := None;
              IProps.src := src; IProps.title := None;
              IProps.uniqueHash := None; IProps.uniquifyIDs := false |} in
  let w := run example_host init_world
             [Construct 0 (example_props src) (lit "r"); Mount 0;
              Construct 1 p (lit "r"); Mount 1] in
  is_Some (cacheStore w !! src)
  /\ issued (load example_host 1 w) = S (issued w)
  /\ is_Some (inflight (load example_host 1 w) !! issued w)
  /\ cacheStore (load example_host 1 w) = cacheStore w
  /\ cacheStore (settle example_host 1 (NetworkError (mk_error (lit "offline"))) w)
     = cacheStore w.
Proof.
  intros src p w.
  destruct uncached_load_always_fetches as [Hload Hsettle].
  destruct (Hload example_host w 1 (instance_of w 1)) as (Hiss & Hfl & Hcs);
    [vm_compute; reflexivity|vm_compute; reflexivity|vm_compute; reflexivity
    |vm_compute; reflexivity|].
  destruct (Hsettle example_host w 1
              {| req_owner := 1; req_src := src; req_cacheRequests := false |}
              (NetworkError (mk_error (lit "offline"))))
    as (Hcs' & _); [vm_compute; reflexivity|reflexivity|].
  split; [vm_compute; by eexists|]. split; [exact Hiss|].
  split; [rewrite Hfl; vm_compute; by eexists|].
  split; [exact Hcs|exact Hcs'].
Defined.

(** ** What a delivery leaves behind *)

Lemma delivered_terminal (s : jsstring) (st st' : IState.t) :
  delivered s st st' -> terminal (IState.status st').
Proof. intros (_ & _ & [[-> _]|[[->| ->] _]]); unfold terminal; auto. Qed.

Lemma drain_content (host : Host) (content : jsstring) (q : list nat) (w : World)
  (c : nat) (i : Instance) :
  instances w !! c = Some i -> isActive i = true ->
  IState.content (state i) = content -> terminal (IState.status (state i)) ->
  exists i', instances (fold_left (fun w cb => handleLoad host cb content w) q w) !! c
             = Some i'
             /\ shell i' = shell i
             /\ IState.content (state i') = content
             /\ terminal (IState.status (state i')).
Proof.
  revert w i. induction q as [|cb q IH]; intros w i Hi Ha Hc Ht; simpl.
  - by exists i.
  - destruct (decide (cb = c)) as [->|Hne].
    + destruct (handleLoad_final host c content w i Hi Ha) as (st' & Hi' & Hd).
      destruct (IH _ _ Hi') as (i'' & H1 & H2 & H3 & H4);
        [done|by destruct Hd|by eapply delivered_terminal|].
      exists i''. by rewrite H2.
    + destruct (handleLoad_touches host cb content w) as (_ & _ & Hot).
      apply IH; [by rewrite Hot|done..].
Qed.

(** X2: a delivery of content to an active instance never leaves it in
    LOADED: it ends in READY with an element, or in FAILED or UNSUPPORTED
    with the element it had before.  The content is stored whatever the
    [src] of the props is by then, so the fetch of an earlier source that
    settles after [src] has changed still replaces the content. *)
Theorem delivery_ends_in_terminal_status :
  (forall host c s w i,
     instances w !! c = Some i -> isActive i = true ->
     exists i', instances (handleLoad host c s w) !! c = Some i'
                /\ shell i' = shell i
                /\ IState.content (state i') = s
                /\ ((IState.status (state i') = READY
                     /\ is_Some (IState.element (state i')))
                    \/ ((IState.status (state i') = FAILED
                         \/ IState.status (state i') = UNSUPPORTED)
                        /\ IState.element (state i') = IState.element (state i))))
  /\ (forall host w id r res content i,
        inflight w !! id = Some r ->
        instances w !! req_owner r = Some i -> isActive i = true ->
        fetch_outcome res = Return content ->
        exists i', instances (settle host id res w) !! req_owner r = Some i'
                   /\ props i' = props i
                   /\ IState.content (state i') = content
                   /\ terminal (IState.status (state i'))).
Proof.
  split.
  - intros host c s w i Hi Ha.
    destruct (handleLoad_final host c s w i Hi Ha) as (st' & Hi' & Hc & _ & Hd).
    exists (set_state st' i). done.
  - intros host w id r res content i Hr Hi Ha Hres.
    rewrite (settle_unfold host id res w r Hr), Hres.
    set (w0 := set_inflight (delete id) w).
    destruct (handleLoad_final host (req_owner r) content w0 i Hi Ha)
      as (st' & Hi' & Hd).
    unfold on_content. set (w1 := handleLoad host (req_owner r) content w0) in *.
    assert (exists i', instances w1 !! req_owner r = Some i'
                       /\ props i' = props i
                       /\ IState.content (state i') = content
                       /\ terminal (IState.status (state i'))) as Hdone.
    { exists (set_state st' i). split; [done|]. split; [done|].
      split; [by destruct Hd|by eapply delivered_terminal]. }
    destruct (req_cacheRequests r); [|done].
    destruct (cacheStore w1 !! req_src r) as [cache|]; [|done].
    match goal with |- context [fold_left ?g ?q ?w2] =>
      destruct (drain_content host content q w2 (req_owner r) (set_state st' i))
        as (i'' & H1 & H2 & H3 & H4);
        [exact Hi'|done|by destruct Hd|by eapply delivered_terminal|]
    end.
    exists i''. split; [exact H1|]. apply shell_eq in H2 as (-> & _). done.
Qed.

Lemma delivery_witness :
  let a := lit "https://x/a.svg" in
  let w := run example_host init_world
             [Construct 0 (example_props a) (lit "r"); Mount 0;
              Update 0 (example_props (lit "https://x/b.svg"))] in
  let w' := settle example_host 0
              (Response 200 (Some (lit "image/svg+xml")) (Return (lit "<svg a/>"))) w in
  (IProps.src ∘ props) <$> instances w' !! 0 = Some (lit "https://x/b.svg")
  /\ (IState.content ∘ state) <$> instances w' !! 0 = Some (lit "<svg a/>")
  /\ (IState.status ∘ state) <$> instances w' !! 0 = Some READY
  /\ (IState.content ∘ state)
     <$> instances (handleLoad example_host 0 (lit "no") w) !! 0 = Some (lit "no").
Proof.
  intros a w w'.
  destruct delivery_ends_in_terminal_status as [Hload Hsettle].
  destruct (Hsettle example_host w 0
              {| req_owner := 0; req_src := a; req_cacheRequests := true |}
              (Response 200 (Some (lit "image/svg+xml")) (Return (lit "<svg a/>")))
              (lit "<svg a/>") (instance_of w 0))
    as (i' & Hi' & Hp & Hc & _);
    [vm_compute; reflexivity|vm_compute; reflexivity|vm_compute; reflexivity
    |vm_compute; reflexivity|].
  destruct (Hload example_host 0 (lit "no") w (instance_of w 0))
    as (i2 & Hi2 & _ & Hc2 & _); [vm_compute; reflexivity..|].
  simpl in Hi'. fold w' in Hi'.
  split; [rewrite Hi'; simpl; rewrite Hp; vm_compute; reflexivity|].
  split; [rewrite Hi'; simpl; by rewrite Hc|].
  split; [vm_compute; reflexivity|].
  rewrite Hi2. simpl. by rewrite Hc2.
Defined.

(** ** Instances through the events *)

Lemma same_shells_refl (w : World) : same_shells w w.
Proof. done. Qed.

Lemma same_shells_trans (w1 w2 w3 : World) :
  same_shells w1 w2 -> same_shells w2 w3 -> same_shells w1 w3.
Proof. intros H1 H2 c. by rewrite H2, H1. Qed.

Lemma same_shells_instances (w w' : World) :
  instances w' = instances w -> same_shells w w'.
Proof. intros H c. by rewrite H. Qed.

Lemma touches_same_shells (c : nat) (w w' : World) :
  touches_only c w w' -> same_shells w w'.
Proof. by intros (_ & H & _). Qed.

Section Shells.

Context (host : Host).

Lemma load_shells (c : nat) (w : World) : same_shells w (load host c w).
Proof.
  destruct (instances w !! c) as [i|] eqn:Hi;
    [|unfold load; rewrite Hi; apply same_shells_refl].
  destruct (isActive i) eqn:Ha;
    [|rewrite (load_inactive host c w i Hi Ha); apply same_shells_refl].
  rewrite (load_active host c w i Hi Ha). cbv zeta.
  pose proof (touches_same_shells c _ _ (setState_touches host c loading_state w))
    as H1.
  set (w1 := setState host c loading_state w) in *.
  eapply same_shells_trans; [exact H1|].
  assert (same_shells w1 (request host c w1)) as Hreq.
  { destruct (instances w1 !! c) as [i1|] eqn:Hi1;
      [|unfold request; rewrite Hi1; apply same_shells_refl].
    destruct (fetch_throws host (IProps.src (props i1))) as [e|] eqn:Hf.
    - destruct (request_throws host c w1 i1 e Hi1 Hf) as [-> _].
      eapply same_shells_trans;
        [by apply (same_shells_instances w1 (fetch_called c i1 w1))|].
      eapply touches_same_shells, handleError_touches.
    - apply same_shells_instances. unfold request. rewrite Hi1, Hf.
      by destruct (IProps.cacheRequests _). }
  assert (forall s, same_shells w1 (handleLoad host c s w1)) as Hload
    by (intros s; eapply touches_same_shells, handleLoad_touches).
  destruct (if IProps.cacheRequests (props i) then _ else None) as [cache|].
  - destruct (IStorageItem.status cache);
      try apply same_shells_refl; [apply Hload|by apply same_shells_instances].
  - destruct (inlineSrc _) as [s| |]; [destruct (truthy s)| |];
      [apply Hload|exact Hreq|exact Hreq|by apply same_shells_instances].
Qed.

Lemma settle_shells (id : nat) (res : FetchResult) (w : World) :
  same_shells w (settle host id res w).
Proof.
  destruct (inflight w !! id) as [r|] eqn:Hr;
    [|unfold settle; rewrite Hr; apply same_shells_refl].
  rewrite (settle_unfold host id res w r Hr).
  set (w0 := set_inflight (delete id) w).
  assert (same_shells w w0) as H0 by done.
  eapply same_shells_trans; [exact H0|].
  destruct (fetch_outcome res) as [content|e].
  - unfold on_content.
    pose proof (touches_same_shells _ _ _
                  (handleLoad_touches host (req_owner r) content w0)) as H1.
    set (w1 := handleLoad host (req_owner r) content w0) in *.
    eapply same_shells_trans; [exact H1|].
    destruct (req_cacheRequests r); [|done].
    destruct (cacheStore w1 !! req_src r) as [cache|]; [|done].
    intros c. simpl. by rewrite drain_shells.
  - unfold on_rejected. intros c.
    match goal with |- context [handleError host ?c' e ?w1] =>
      destruct (handleError_touches host c' e w1) as (_ & -> & _) end.
    by destruct (req_cacheRequests r).
Qed.

Lemma handleError_shells (c : nat) (e : Error) (w : World) :
  same_shells w (handleError host c e w).
Proof. eapply touches_same_shells, handleError_touches. Qed.

(** Only the constructor adds an instance. *)
Lemma step_new (w : World) (ev : Event) (c : nat) (i : Instance) :
  instances w !! c = None -> instances (step host w ev) !! c = Some i ->
  exists p random,
    ev = Construct c p random
    /\ i = {| props := p;
              state :=
                {| IState.content := []; IState.element := None;
                   IState.hasCache :=
                     IProps.cacheRequests p
                     && bool_decide (is_Some (cacheStore w !! IProps.src p));
                   IState.status := PENDING |};
              isActive := false;
              hash := if opt_truthy (IProps.uniqueHash p)
                      then default [] (IProps.uniqueHash p) else random;
              lifecycle := Constructed |}.
Proof.
  intros Hnone Hi.
  assert (forall w', same_shells w w' -> instances w' !! c = Some i -> False)
    as Habs.
  { intros w' Hs Hi'. specialize (Hs c). rewrite Hnone, Hi' in Hs. done. }
  destruct ev as [c0 p random|c0|c0 p|c0|id res]; simpl in Hi.
  - unfold construct in Hi.
    destruct (instances w !! c0) as [i0|] eqn:Hi0; [congruence|].
    simpl in Hi. destruct (decide (c0 = c)) as [->|Hne].
    + rewrite lookup_insert_eq in Hi. injection Hi as <-. eauto.
    + rewrite lookup_insert_ne in Hi by done. congruence.
  - exfalso. unfold componentDidMount in Hi.
    destruct (instances w !! c0) as [i0|] eqn:Hi0; [|congruence].
    destruct (lifecycle i0); try congruence.
    set (w1 := set_instances _ w) in Hi.
    assert (instances w1 !! c = None) as Hn1
      by (unfold w1; simpl; rewrite lookup_insert_ne; congruence).
    assert (forall w', same_shells w1 w' -> instances w' !! c = Some i -> False)
      as Habs1.
    { intros w' Hs Hi'. specialize (Hs c). rewrite Hn1, Hi' in Hs. done. }
    destruct (negb (canUseDOM host)); [congruence|].
    destruct (IState.status (state i0)); try congruence.
    destruct (negb (isSupportedEnvironment host));
      [exact (Habs1 _ (handleError_shells _ _ _) Hi)|].
    destruct (negb (truthy _));
      [exact (Habs1 _ (handleError_shells _ _ _) Hi)
      |exact (Habs1 _ (load_shells _ _) Hi)].
  - exfalso. unfold componentDidUpdate in Hi.
    destruct (instances w !! c0) as [i0|] eqn:Hi0; [|congruence].
    destruct (lifecycle i0); try congruence.
    set (w1 := set_instances _ w) in Hi.
    assert (instances w1 !! c = None) as Hn1
      by (unfold w1; simpl; rewrite lookup_insert_ne; congruence).
    assert (forall w', same_shells w1 w' -> instances w' !! c = Some i -> False)
      as Habs1.
    { intros w' Hs Hi'. specialize (Hs c). rewrite Hn1, Hi' in Hs. done. }
    destruct (negb (canUseDOM host)); [congruence|].
    destruct (negb (str_eqb _ _)); [|congruence].
    destruct (negb (truthy _));
      [exact (Habs1 _ (handleError_shells _ _ _) Hi)
      |exact (Habs1 _ (load_shells _ _) Hi)].
  - exfalso. unfold componentWillUnmount in Hi.
    destruct (instances w !! c0) as [i0|] eqn:Hi0; [|congruence].
    destruct (lifecycle i0); try congruence.
    simpl in Hi. rewrite lookup_insert_ne in Hi; congruence.
  - exfalso. exact (Habs _ (settle_shells _ _ _) Hi).
Qed.

End Shells.

Lemma reachable_instance_ok (host : Host) (w : World) (c : nat) (i : Instance) :
  reachable host w -> instances w !! c = Some i -> instance_ok i.
Proof.
  intros Hreach. revert c i.
  induction Hreach as [|w ev _ IH]; intros c i Hi; [done|].
  destruct (instances w !! c) as [i0|] eqn:Hi0.
  - set (R := fun a b : Instance => instance_ok a -> instance_ok b).
    assert (forall a (st : IState.t),
              isActive a = true -> settled st -> R a (set_state st a)) as Rst.
    { unfold R. intros a st Ha Hs (_ & Hl & _). split; [done|]. split; [done|].
      simpl. intros Hc. apply Hl in Ha. congruence. }
    assert (forall a, R a a) as R1 by (intros a H; exact H).
    assert (forall a b d, R a b -> R b d -> R a d) as R2
      by (unfold R; intros a b d Hab Hbd Ha; auto).
    assert (forall a e, isActive a = true ->
              R a (set_state (with_status (error_status e) (state a)) a)) as R3.
    { intros a e Ha. apply Rst; [done|]. unfold settled. simpl.
      by destruct (error_status_cases e) as [[_ ->]|[_ ->]]. }
    assert (forall a s st', isActive a = true -> delivered s (state a) st' ->
              R a (set_state st' a)) as R4.
    { intros a s st' Ha Hd. apply Rst; [done|]. unfold settled.
      destruct Hd as (_ & _ & [[-> He]|[[->| ->] _]]); done. }
    assert (forall a, isActive a = true ->
              R a (set_state (loading_state (state a)) a)) as R5
      by (intros a Ha; by apply Rst).
    assert (forall a, lifecycle a = Constructed -> R a (set_phase true Mounted a))
      as R6 by (unfold R; intros a Hl (Hs & _ & _); repeat split; done).
    assert (forall a p, lifecycle a = Mounted -> R a (set_props p a)) as R7
      by (unfold R; intros a p Hl (Hs & Hm & Hc); repeat split; try done;
          apply Hm).
    assert (forall a, lifecycle a = Mounted -> R a (set_phase false Unmounted a))
      as R8 by (unfold R; intros a Hl (Hs & _ & _); repeat split; done).
    destruct (step_lifts host R R1 R2 R3 R4 R5 R6 R7 R8 w ev c i0 Hi0)
      as (i' & Hi' & HR).
    assert (i' = i) as -> by congruence. apply HR. by eapply IH.
  - destruct (step_new host w ev c i Hi0 Hi) as (p & random & _ & ->).
    repeat split; done.
Qed.

(** X3: between events no instance is in LOADED.  In every world that
    can be reached an instance in PENDING or LOADING has no content and
    no element and renders the loader, an instance in READY has an
    element and, with a DOM, renders it, and the active flag is set
    exactly while the instance is mounted. *)
Theorem states_at_rest (host : Host) (w : World) (c : nat) (i : Instance) :
  reachable host w -> instances w !! c = Some i ->
  IState.status (state i) <> LOADED
  /\ (isActive i = true <-> lifecycle i = Mounted)
  /\ (IState.status (state i) = PENDING \/ IState.status (state i) = LOADING ->
      IState.content (state i) = [] /\ IState.element (state i) = None
      /\ render host i = RenderLoader)
  /\ (IState.status (state i) = READY ->
      exists el, IState.element (state i) = Some el
                 /\ (canUseDOM host = true -> render host i = RenderElement el)).
Proof.
  intros Hreach Hi.
  destruct (reachable_instance_ok host w c i Hreach Hi) as (Hs & Hact & _).
  unfold settled in Hs. unfold render.
  split; [by destruct (IState.status (state i))|]. split; [done|]. split.
  - intros [H|H]; rewrite H in Hs; destruct Hs as [Hc He];
      rewrite He, H; by destruct (negb (canUseDOM host)).
  - intros H. rewrite H in Hs. destruct Hs as [el Hel]. exists el.
    split; [done|]. intros ->. by rewrite Hel.
Qed.

Lemma states_at_rest_witness :
  let w := run example_host init_world
             [Construct 0 (example_props (lit "<svg/>")) (lit "r"); Mount 0;
              Construct 1 (example_props (lit "https://x/a.svg")) (lit "r");
              Mount 1] in
  render example_host (instance_of w 0)
  = RenderElement
      (updateSVGAttributes (example_props []) (lit "abc123") example_svg)
  /\ render example_host (instance_of w 1) = RenderLoader.
Proof.
  intros w.
  assert (reachable example_host w) as Hreach by (apply reachable_run; constructor).
  destruct (states_at_rest example_host w 0 (instance_of w 0) Hreach)
    as (_ & _ & _ & Hready); [vm_compute; reflexivity|].
  destruct (states_at_rest example_host w 1 (instance_of w 1) Hreach)
    as (_ & _ & Hloading & _); [vm_compute; reflexivity|].
  split.
  - destruct Hready as (el & Hel & Hr); [vm_compute; reflexivity|].
    rewrite Hr by reflexivity. vm_compute in Hel. injection Hel as <-.
    vm_compute. reflexivity.
  - apply Hloading. right. vm_compute. reflexivity.
Defined.

(** ** Hosts without a DOM or without SVG *)

(** X4: on a host without a DOM nothing ever happens.  Whatever is
    constructed, mounted, updated or unmounted, no fetch is issued, the
    cache stays empty, nothing is written or reported, and every instance
    stays in the state it was constructed with and renders the loader. *)
Theorem without_dom_nothing_happens (host : Host) (w : World) :
  canUseDOM host = false -> reachable host w ->
  net w = net init_world
  /\ log w = []
  /\ (forall c i, instances w !! c = Some i ->
                  state i = initial_state /\ render host i = RenderLoader).
Proof.
  intros Hdom Hreach.
  assert (forall i, state i = initial_state ->
            state i = initial_state /\ render host i = RenderLoader) as Hrender.
  { intros i Hs. split; [done|]. unfold render. by rewrite Hdom. }
  assert (net w = net init_world /\ log w = []
          /\ forall c i, instances w !! c = Some i -> state i = initial_state)
    as (Hn & Hl & Hi); [|by eauto].
  induction Hreach as [|w ev _ (Hn & Hl & Hi)]; [done|].
  assert (forall c i', state i' = initial_state ->
            net (set_instances <[c := i']> w) = net init_world
            /\ log (set_instances <[c := i']> w) = []
            /\ forall c0 i0, instances (set_instances <[c := i']> w) !! c0 = Some i0 ->
                             state i0 = initial_state) as Hins.
  { intros c i' Hs. split; [done|]. split; [done|]. intros c0 i0. simpl.
    destruct (decide (c = c0)) as [->|Hne].
    - rewrite lookup_insert_eq. by intros [= <-].
    - rewrite lookup_insert_ne by done. apply Hi. }
  pose proof Hn as Hn'. injection Hn' as Hcs Hfl Hiss.
  destruct ev as [c p random|c|c p|c|id res]; simpl.
  - unfold construct. destruct (instances w !! c) as [i|] eqn:Hc;
      [split; [exact Hn|done]|].
    apply Hins. simpl. by rewrite Hcs, lookup_empty, andb_false_r.
  - unfold componentDidMount. destruct (instances w !! c) as [i|] eqn:Hc;
      [|split; [exact Hn|done]].
    destruct (lifecycle i); try (split; [exact Hn|done]).
    rewrite Hdom. simpl. apply Hins. simpl. by eapply Hi.
  - unfold componentDidUpdate. destruct (instances w !! c) as [i|] eqn:Hc;
      [|split; [exact Hn|done]].
    destruct (lifecycle i); try (split; [exact Hn|done]).
    rewrite Hdom. simpl. apply Hins. simpl. by eapply Hi.
  - unfold componentWillUnmount. destruct (instances w !! c) as [i|] eqn:Hc;
      [|split; [exact Hn|done]].
    destruct (lifecycle i); try (split; [exact Hn|done]).
    apply Hins. simpl. by eapply Hi.
  - unfold settle. rewrite Hfl, lookup_empty.
    split; [exact Hn|done].
Qed.

Lemma without_dom_witness :
  let host := {| canUseDOM := false; isSupportedEnvironment := true;
                 production := false;
                 convert_text := convert_text example_host;
                 convert_node := convert_node example_host;
                 innerHTML := innerHTML example_host;
                 fetch_throws := fetch_throws example_host |} in
  let w := run host init_world
             [Construct 0 (example_props (lit "https://x/a.svg")) (lit "r");
              Mount 0; Update 0 (example_props (lit "<svg/>")); Unmount 0] in
  issued w = 0 /\ log w = [] /\ state (instance_of w 0) = initial_state.
Proof.
  intros host w.
  destruct (without_dom_nothing_happens host w) as (Hn & Hl & Hi);
    [reflexivity|apply reachable_run; constructor|].
  split; [exact (f_equal snd Hn)|]. split; [exact Hl|].
  apply (Hi 0). vm_compute. reflexivity.
Defined.

(** X5: on a host with a DOM but without SVG support the mount of a
    constructed instance activates it, writes UNSUPPORTED, reports
    "Browser does not support SVG" to [onError] when there is one, issues
    no fetch and leaves the cache alone, and the instance renders its
    children.  The support is asked for at the mount only: an update to
    another source that has to be fetched issues the fetch. *)
Theorem unsupported_environment (host : Host) (w : World) (c : nat) (i : Instance) :
  reachable host w -> instances w !! c = Some i -> lifecycle i = Constructed ->
  canUseDOM host = true -> isSupportedEnvironment host = false ->
  let w' := componentDidMount host c w in
  let i' := set_state (with_status UNSUPPORTED (state i)) (set_phase true Mounted i) in
  instances w' !! c = Some i'
  /\ render host i' = RenderChildren
  /\ net w' = net w
  /\ errors (log w')
     = errors (log w)
       ++ (if IProps.onError (props i)
           then [(c, mk_error (lit "Browser does not support SVG"))] else [])
  /\ (forall p,
        IProps.src p <> IProps.src (props i) -> IProps.src p <> [] ->
        goes_to_network (IProps.src p) = true ->
        (if IProps.cacheRequests p then cacheStore w !! IProps.src p else None)
        = None ->
        issued (componentDidUpdate host c p w') = S (issued w)).
Proof.
  intros Hreach Hi Hl Hdom Hsup w' i'.
  destruct (reachable_instance_ok host w c i Hreach Hi) as (Hs & _ & Hpend).
  specialize (Hpend Hl). unfold settled in Hs. rewrite Hpend in Hs.
  destruct Hs as [_ Hel].
  set (w1 := set_instances <[c := set_phase true Mounted i]> w).
  assert (instances w1 !! c = Some (set_phase true Mounted i)) as Hi1
    by (unfold w1; simpl; apply lookup_insert_eq).
  assert (w' = handleError host c (mk_error (lit "Browser does not support SVG")) w1)
    as Hw'.
  { unfold w', componentDidMount. by rewrite Hi, Hl, Hdom, Hpend, Hsup. }
  assert (instances w' !! c = Some i') as Hi'.
  { rewrite Hw'. by rewrite (handleError_lookup host c _ w1 _ Hi1). }
  assert (net w' = net w) as Hn.
  { rewrite Hw'. by destruct (handleError_touches host c
                               (mk_error (lit "Browser does not support SVG")) w1)
      as (-> & _ & _). }
  split; [done|]. split.
  { unfold render, i'. simpl. by rewrite Hdom, Hel. }
  split; [done|]. split.
  { rewrite Hw'.
    destruct (handleError_calls host c
                (mk_error (lit "Browser does not support SVG")) w1) as [_ ->].
    by rewrite Hi1. }
  intros p Hp Hsrc Hnet Hmiss. unfold componentDidUpdate. rewrite Hi'.
  assert (lifecycle i' = Mounted) as -> by reflexivity.
  assert (str_eqb (IProps.src (props i')) (IProps.src p) = false) as ->.
  { apply bool_decide_eq_false. simpl. congruence. }
  rewrite Hdom, (truthy_nonempty _ Hsrc). cbn [negb].
  set (w2 := set_instances <[c := set_props p i']> w').
  injection Hn as Hcs Hfl Hiss.
  destruct (load_request_always host c w2 (set_props p i')) as (_ & Hn2 & _);
    [unfold w2; simpl; apply lookup_insert_eq|done| |done|].
  { simpl. by rewrite Hcs. }
  rewrite Hn2. simpl. by rewrite Hiss.
Qed.

Lemma unsupported_environment_witness :
  let host := {| canUseDOM := true; isSupportedEnvironment := false;
                 production := false;
                 convert_text := convert_text example_host;
                 convert_node := convert_node example_host;
                 innerHTML := innerHTML example_host;
                 fetch_throws := fetch_throws example_host |} in
  let w := run host init_world
             [Construct 0 (example_props (lit "https://x/a.svg")) (lit "r")] in
  let w' := componentDidMount host 0 w in
  (IState.status ∘ state) <$> instances w' !! 0 = Some UNSUPPORTED
  /\ issued w' = 0
  /\ errors (log w') = [(0, mk_error (lit "Browser does not support SVG"))]
  /\ issued (componentDidUpdate host 0 (example_props (lit "https://x/b.svg")) w')
     = 1.
Proof.
  intros host w w'.
  destruct (unsupported_environment host w 0 (instance_of w 0))
    as (Hi & _ & Hn & He & Hup);
    [apply reachable_run; constructor|vm_compute; reflexivity|reflexivity
    |reflexivity|reflexivity|].
  fold w' in Hi, Hn, He.
  split; [by rewrite Hi|]. split; [exact (f_equal snd Hn)|]. split; [exact He|].
  apply Hup; [vm_compute; discriminate|discriminate|vm_compute; reflexivity
             |vm_compute; reflexivity].
Defined.

(** ** What stays fixed *)

(** X6: the token and the [hasCache] flag of an instance are fixed by
    the constructor: the token is [uniqueHash] when it is given and not
    empty and the random string otherwise, [hasCache] says whether the
    instance caches and the cache had an entry for its source at that
    moment, and no event of any run changes either of them or removes the
    instance. *)
Theorem token_and_cache_flag_are_fixed :
  (forall w c p random,
     instances w !! c = None ->
     exists i, instances (construct c p random w) !! c = Some i
               /\ hash i = (match IProps.uniqueHash p with
                            | Some (x :: h) => x :: h
                            | _ => random
                            end)
               /\ (IState.hasCache (state i) = true
                   <-> IProps.cacheRequests p = true
                       /\ is_Some (cacheStore w !! IProps.src p)))
  /\ (forall host w evs c i,
        instances w !! c = Some i ->
        exists i', instances (run host w evs) !! c = Some i'
                   /\ hash i' = hash i
                   /\ IState.hasCache (state i') = IState.hasCache (state i)).
Proof.
  split.
  - intros w c p random Hnone. unfold construct. rewrite Hnone. simpl.
    rewrite lookup_insert_eq. eexists. split; [reflexivity|]. simpl. split.
    + by destruct (IProps.uniqueHash p) as [[|x h]|].
    + rewrite andb_true_iff, bool_decide_eq_true. done.
  - intros host w evs c i Hi.
    set (R := fun a b : Instance =>
                hash b = hash a
                /\ IState.hasCache (state b) = IState.hasCache (state a)).
    apply (run_lifts host R); try (unfold R; by intros); try done.
    + unfold R. intros a b d [H1 H2] [H3 H4]. split; congruence.
    + unfold R. intros a s st' _ (_ & Hh & _). done.
Qed.

Lemma token_and_cache_flag_witness :
  let src := lit "https://x/a.svg" in
  let res := Response 200 (Some (lit "image/svg+xml")) (Return (lit "<svg/>")) in
  let w := run example_host init_world [Construct 0 (example_props src) (lit "r")] in
  let w' := run example_host w
              [Mount 0; Settle 0 res; Update 0 (example_props (lit "b.svg"));
               Update 0 (example_props src)] in
  (IState.hasCache ∘ state) <$> instances w' !! 0 = Some false
  /\ hash <$> instances w' !! 0 = Some (lit "abc123")
  /\ hash <$> instances (construct 1
                          {| IProps.baseURL := None; IProps.cacheRequests := true;
                             IProps.description := None; IProps.onError := false;
                             IProps.onLoad := false; IProps.preProcessor := None;
                             IProps.src := src; IProps.title := None;
                             IProps.uniqueHash := Some [];
                             IProps.uniquifyIDs := true |} (lit "k3x9q0ab") w')
                !! 1
     = Some (lit "k3x9q0ab").
Proof.
  intros src res w w'.
  destruct token_and_cache_flag_are_fixed as [Hnew Hrun].
  destruct (Hrun example_host w
              [Mount 0; Settle 0 res; Update 0 (example_props (lit "b.svg"));
               Update 0 (example_props src)] 0 (instance_of w 0))
    as (i' & Hi' & Hh & Hc); [vm_compute; reflexivity|].
  fold w' in Hi'. rewrite Hi'. simpl. rewrite Hh, Hc.
  split; [reflexivity|]. split; [reflexivity|].
  match goal with |- context [construct 1 ?p ?r w'] =>
    destruct (Hnew w' 1 p r) as (i & -> & Hhash & _); [vm_compute; reflexivity|]
  end.
  simpl. by rewrite Hhash.
Defined.

Section Permanence.

Context (host : Host).

Lemma load_keeps_loaded (c : nat) (w : World) (src : jsstring)
  (e : IStorageItem.t) :
  cacheStore w !! src = Some e -> IStorageItem.status e = LOADED ->
  cacheStore (load host c w) !! src = Some e.
Proof.
  intros He Hs. destruct (instances w !! c) as [i|] eqn:Hi;
    [|unfold load; by rewrite Hi].
  destruct (isActive i) eqn:Ha; [|by erewrite load_inactive].
  rewrite (load_active host c w i Hi Ha). cbv zeta.
  destruct (setState_touches host c loading_state w) as (Hn & Hsh & _).
  set (w1 := setState host c loading_state w) in *.
  injection Hn as Hcs _ _.
  assert (forall s, cacheStore (handleLoad host c s w1) !! src = Some e) as Hload.
  { intros s. destruct (handleLoad_touches host c s w1) as (Hn' & _).
    injection Hn' as -> _ _. by rewrite Hcs. }
  assert ((if IProps.cacheRequests (props i)
           then cacheStore w !! IProps.src (props i) else None) = None ->
          cacheStore (request host c w1) !! src = Some e) as Hreq.
  { intros Hmiss.
    destruct (shell_lookup w w1 c i (Hsh c) Hi) as (i1 & Hi1 & Heq).
    apply shell_eq in Heq as (Hp & _).
    destruct (request_always host c w1 i1 Hi1) as (-> & _).
    rewrite Hp, Hcs. destruct (IProps.cacheRequests (props i)); [|done].
    rewrite lookup_insert_ne; [done|]. intros Heq. rewrite Heq in Hmiss.
    congruence. }
  destruct (if IProps.cacheRequests (props i)
            then cacheStore w !! IProps.src (props i) else None)
    as [cache|] eqn:Hcache.
  - destruct (IProps.cacheRequests (props i)); [|done].
    destruct (IStorageItem.status cache) eqn:Hst;
      try apply Hload; try (by rewrite Hcs).
    simpl. rewrite Hcs, lookup_insert_ne; [done|].
    intros Heq. rewrite Heq in Hcache. congruence.
  - destruct (inlineSrc _) as [s| |]; [destruct (truthy s)| |];
      [apply Hload|by apply Hreq|by apply Hreq|simpl; by rewrite Hcs].
Qed.

Lemma settle_keeps_loaded (id : nat) (res : FetchResult) (w : World)
  (src : jsstring) (e : IStorageItem.t) :
  cache_inv (net w) ->
  cacheStore w !! src = Some e -> IStorageItem.status e = LOADED ->
  cacheStore (settle host id res w) !! src = Some e.
Proof.
  intros Hinv He Hs. destruct (inflight w !! id) as [r|] eqn:Hr;
    [|unfold settle; by rewrite Hr].
  rewrite (settle_unfold host id res w r Hr).
  assert (req_cacheRequests r = true -> req_src r <> src) as Hne.
  { intros Hc Heq. destruct (inv_entry _ Hinv id r Hr Hc) as (e' & He' & Hs').
    simpl in He'. rewrite Heq in He'. congruence. }
  destruct (fetch_outcome res) as [content|err].
  - pose proof (on_content_net host r content (set_inflight (delete id) w)) as Hn.
    injection Hn as -> _ _. simpl.
    destruct (req_cacheRequests r); [|done].
    destruct (cacheStore w !! req_src r); [|done].
    rewrite lookup_insert_ne; [done|by apply Hne].
  - pose proof (on_rejected_net host r err (set_inflight (delete id) w)) as Hn.
    injection Hn as -> _ _. simpl.
    destruct (req_cacheRequests r); [|done].
    rewrite lookup_delete_ne; [done|by apply Hne].
Qed.

Lemma step_keeps_loaded (w : World) (ev : Event) (src : jsstring)
  (e : IStorageItem.t) :
  cache_inv (net w) ->
  cacheStore w !! src = Some e -> IStorageItem.status e = LOADED ->
  cacheStore (step host w ev) !! src = Some e.
Proof.
  intros Hinv He Hs.
  assert (forall c err w1, cacheStore w1 = cacheStore w ->
            cacheStore (handleError host c err w1) !! src = Some e) as Herr.
  { intros c err w1 H1. destruct (handleError_touches host c err w1) as (Hn & _).
    injection Hn as -> _ _. by rewrite H1. }
  assert (forall c w1, cacheStore w1 = cacheStore w ->
            cacheStore (load host c w1) !! src = Some e) as Hload.
  { intros c w1 H1. apply load_keeps_loaded; [by rewrite H1|done]. }
  destruct ev as [c p random|c|c p|c|id res]; simpl.
  - unfold construct. by destruct (instances w !! c).
  - unfold componentDidMount. destruct (instances w !! c) as [i|]; [|done].
    destruct (lifecycle i); [|done..].
    destruct (negb (canUseDOM host)); [done|].
    destruct (IState.status (state i)); try done.
    destruct (negb (isSupportedEnvironment host)); [by apply Herr|].
    destruct (negb (truthy _)); [by apply Herr|by apply Hload].
  - unfold componentDidUpdate. destruct (instances w !! c) as [i|]; [|done].
    destruct (lifecycle i); [done| |done].
    destruct (negb (canUseDOM host)); [done|].
    destruct (negb (str_eqb _ _)); [|done].
    destruct (negb (truthy _)); [by apply Herr|by apply Hload].
  - unfold componentWillUnmount. destruct (instances w !! c) as [i|]; [|done].
    by destruct (lifecycle i).
  - by apply settle_keeps_loaded.
Qed.

End Permanence.

(** X7: a cache entry that is LOADED is there for good.  From a world
    that can be reached no run of events removes it, replaces its content
    or puts anything in its queue: there is no eviction and no
    refetching of a source that has been cached. *)
Theorem loaded_entry_is_permanent (host : Host) (w : World) (src : jsstring)
  (e : IStorageItem.t) (evs : list Event) :
  reachable host w ->
  cacheStore w !! src = Some e -> IStorageItem.status e = LOADED ->
  cacheStore (run host w evs) !! src = Some e.
Proof.
  intros Hreach He Hs. apply reachable_cache_inv in Hreach.
  revert w Hreach He. induction evs as [|ev evs IH]; intros w Hinv He; [done|].
  simpl. apply IH; [by apply cache_inv_step|by apply step_keeps_loaded].
Qed.

Lemma loaded_entry_is_permanent_witness :
  let src := lit "https://x/a.svg" in
  let res := Response 200 (Some (lit "image/svg+xml")) (Return (lit "<svg/>")) in
  let w := run example_host init_world
             [Construct 0 (example_props src) (lit "r"); Mount 0; Settle 0 res] in
  cacheStore
    (run example_host w
       [Construct 1 (example_props src) (lit "r"); Mount 1; Unmount 0;
        Update 1 (example_props (lit "b.svg"));
        Settle 1 (NetworkError (mk_error (lit "offline")));
        Update 1 (example_props src)]) !! src
  = Some (loaded_entry (lit "<svg/>")).
Proof.
  intros src res w.
  apply loaded_entry_is_permanent;
    [apply reachable_run; constructor|vm_compute; reflexivity|reflexivity].
Defined.

(** X8: the settling of a fetch is local and issues nothing.  It takes
    the request out of those in flight, issues no fetch of its own (no
    retry after a failure), leaves the cache entries of all other sources
    as they are, and changes no instance but the one that made the
    request and those in the queue of its entry. *)
Theorem settling_is_local (host : Host) (w : World) (id : nat) (r : Request)
  (res : FetchResult) :
  inflight w !! id = Some r ->
  let w' := settle host id res w in
  issued w' = issued w
  /\ inflight w' = delete id (inflight w)
  /\ (forall src, src <> req_src r -> cacheStore w' !! src = cacheStore w !! src)
  /\ (forall c,
        c <> req_owner r ->
        (forall e, cacheStore w !! req_src r = Some e -> c ∉ IStorageItem.queue e) ->
        instances w' !! c = instances w !! c).
Proof.
  intros Hr w'. unfold w'. rewrite (settle_unfold host id res w r Hr).
  set (w0 := set_inflight (delete id) w).
  destruct (fetch_outcome res) as [content|e].
  - pose proof (on_content_net host r content w0) as Hn.
    injection Hn as Hcs Hfl Hiss. rewrite Hcs, Hfl, Hiss.
    split; [done|]. split; [done|]. split.
    + intros src Hne. simpl. destruct (req_cacheRequests r); [|done].
      destruct (cacheStore w !! req_src r); [|done]. by rewrite lookup_insert_ne.
    + intros c Hne Hq. unfold on_content.
      destruct (handleLoad_touches host (req_owner r) content w0)
        as (Hn1 & _ & Hot).
      set (w1 := handleLoad host (req_owner r) content w0) in *.
      injection Hn1 as Hcs1 _ _.
      destruct (req_cacheRequests r); [|by apply Hot].
      rewrite Hcs1. simpl.
      destruct (cacheStore w !! req_src r) as [cache|] eqn:Hcache; [|by apply Hot].
      change (instances (set_cacheStore ?f ?x)) with (instances x).
      rewrite drain_others by (by apply Hq). simpl. by apply Hot.
  - pose proof (on_rejected_net host r e w0) as Hn.
    injection Hn as Hcs Hfl Hiss. rewrite Hcs, Hfl, Hiss.
    split; [done|]. split; [done|]. split.
    + intros src Hne. simpl. destruct (req_cacheRequests r); [|done].
      by rewrite lookup_delete_ne.
    + intros c Hne _. unfold on_rejected.
      match goal with |- context [handleError host ?c' e ?w1] =>
        destruct (handleError_touches host c' e w1) as (_ & _ & Hot) end.
      rewrite Hot by done. by destruct (req_cacheRequests r).
Qed.

Lemma settling_is_local_witness :
  let a := lit "https://x/a.svg" in
  let b := lit "https://x/b.svg" in
  let w := run example_host init_world
             [Construct 0 (example_props a) (lit "r"); Mount 0;
              Construct 1 (example_props b) (lit "r"); Mount 1;
              Construct 2 (example_props a) (lit "r"); Mount 2] in
  let w' := settle example_host 0 (NetworkError (mk_error (lit "offline"))) w in
  issued w' = issued w
  /\ cacheStore w' !! b = cacheStore w !! b
  /\ instances w' !! 1 = instances w !! 1.
Proof.
  intros a b w w'.
  destruct (settling_is_local example_host w 0
              {| req_owner := 0; req_src := a; req_cacheRequests := true |}
              (NetworkError (mk_error (lit "offline"))))
    as (Hiss & _ & Hcs & Hinst); [vm_compute; reflexivity|].
  split; [exact Hiss|]. split; [apply Hcs; vm_compute; discriminate|].
  apply Hinst; [discriminate|].
  intros e He. vm_compute in He. injection He as <-. simpl.
  intros H. apply list_elem_of_singleton in H. discriminate.
Defined.

(** ** The resolution of a source *)

Lemma starts_with_app (p s : jsstring) : starts_with p (p ++ s) = true.
Proof. induction p as [|a p IH]; [done|]. simpl. by rewrite N.eqb_refl. Qed.

Lemma starts_with_eq (p s : jsstring) :
  starts_with p s = true -> s = p ++ drop (length p) s.
Proof.
  revert s. induction p as [|a p IH]; intros s H; [done|].
  destruct s as [|b s]; [done|]. simpl in H.
  apply andb_true_iff in H as [Hab Hp]. apply N.eqb_eq in Hab as ->.
  simpl. f_equal. by apply IH.
Qed.

Lemma until_comma_app (t p : jsstring) :
  without (chr ",") t -> until_comma (t ++ lit "," ++ p) = Some (t, p).
Proof.
  induction 1 as [|x t Hx _ IH]; [done|].
  change ((x :: t) ++ lit "," ++ p) with (x :: (t ++ lit "," ++ p)).
  cbn [until_comma].
  destruct (N.eqb_spec x (chr ",")) as [->|_]; [done|].
  by rewrite IH.
Qed.

Lemma until_comma_none (s : jsstring) :
  without (chr ",") s -> until_comma s = None.
Proof.
  induction 1 as [|x s Hx _ IH]; [done|]. cbn [until_comma].
  destruct (N.eqb_spec x (chr ",")) as [->|_]; [done|]. by rewrite IH.
Qed.

Lemma dot_star_one_line (s : jsstring) : one_line s -> dot_star s = s.
Proof.
  induction 1 as [|x s Hx _ IH]; [done|]. cbn [dot_star]. by rewrite Hx, IH.
Qed.

Lemma decodeURIComponent_plain (s : jsstring) :
  without (chr "%") s -> decodeURIComponent s = Some s.
Proof.
  unfold decodeURIComponent. induction 1 as [|x s Hx _ IH]; [done|].
  cbn [decode_from]. destruct (N.eqb_spec x (chr "%")) as [->|_]; [done|].
  by rewrite IH.
Qed.

Lemma match_dataURI_no_comma (s : jsstring) :
  without (chr ",") s -> match_dataURI s = None.
Proof.
  induction 1 as [|x s Hx Hs IH]; [done|].
  cbn [match_dataURI]. rewrite IH.
  destruct (starts_with (lit "data:image/svg") (x :: s)); [|done].
  rewrite until_comma_none; [done|].
  apply Forall_drop. by constructor.
Qed.

Lemma match_dataURI_head (t p : jsstring) :
  without (chr ",") t ->
  match_dataURI (lit "data:image/svg" ++ t ++ lit "," ++ p)
  = Some (ends_with t (lit ";base64"), dot_star p).
Proof.
  intros Ht.
  change (lit "data:image/svg" ++ t ++ lit "," ++ p)
    with (100%N :: (drop 1 (lit "data:image/svg") ++ t ++ lit "," ++ p)).
  cbn [match_dataURI].
  change (100%N :: (drop 1 (lit "data:image/svg") ++ t ++ lit "," ++ p))
    with (lit "data:image/svg" ++ (t ++ lit "," ++ p)).
  rewrite starts_with_app.
  change 14 with (length (lit "data:image/svg")). rewrite drop_app_length.
  by rewrite until_comma_app.
Qed.

Lemma starts_with_lookup (p s : jsstring) (k : nat) (c : N) :
  starts_with p s = true -> p !! k = Some c -> s !! k = Some c.
Proof.
  revert s k. induction p as [|a p IH]; intros s k H Hk; [done|].
  destruct s as [|b s]; [done|]. simpl in H.
  apply andb_true_iff in H as [Hab Hp]. apply N.eqb_eq in Hab as ->.
  destruct k as [|k]; [done|]. simpl in *. by apply IH.
Qed.

Lemma match_dataURI_skip (pre t p : jsstring) :
  without (chr ":") pre -> without (chr ",") t ->
  match_dataURI (pre ++ lit "data:image/svg" ++ t ++ lit "," ++ p)
  = Some (ends_with t (lit ";base64"), dot_star p).
Proof.
  intros Hpre Ht. induction Hpre as [|x pre Hx Hpre IH].
  - by apply match_dataURI_head.
  - change ((x :: pre) ++ lit "data:image/svg" ++ t ++ lit "," ++ p)
      with (x :: (pre ++ lit "data:image/svg" ++ t ++ lit "," ++ p)).
    cbn [match_dataURI]. rewrite IH.
    destruct (starts_with (lit "data:image/svg")
                (x :: pre ++ lit "data:image/svg" ++ t ++ lit "," ++ p)) eqn:Hs;
      [|done].
    exfalso.
    pose proof (starts_with_lookup _ _ 4 (chr ":") Hs eq_refl) as H4.
    assert (without (chr ":") (x :: pre)) as Hall by by constructor.
    clear -H4 Hall.
    destruct pre as [|b [|c [|d [|e pre]]]]; simpl in H4; try discriminate.
    apply Forall_cons in Hall as [_ Hall].
    do 3 apply Forall_cons in Hall as [_ Hall].
    apply Forall_cons in Hall as [He _]. injection H4 as ->. by apply He.
Qed.

(** X9: a source that begins with [data:image/svg], goes on without a
    comma up to one, and carries a payload of one line is resolved as a
    data URI: the payload is decoded by [atob] when the text before the
    comma ends in [;base64] and by [decodeURIComponent] otherwise; a
    payload without a percent sign that is not declared base64 is
    delivered as it is. *)
Theorem data_uri_resolution (t p : jsstring) :
  without (chr ",") t -> one_line p ->
  let src := lit "data:image/svg" ++ t ++ lit "," ++ p in
  inlineSrc src
  = match (if ends_with t (lit ";base64") then atob p else decodeURIComponent p) with
    | Some s => Inline s
    | None => DecodeThrows
    end
  /\ (ends_with t (lit ";base64") = false -> without (chr "%") p ->
      inlineSrc src = Inline p
      /\ goes_to_network src = negb (truthy p)).
Proof.
  intros Ht Hp src.
  assert (inlineSrc src
          = match (if ends_with t (lit ";base64") then atob p
                   else decodeURIComponent p) with
            | Some s => Inline s
            | None => DecodeThrows
            end) as H.
  { unfold inlineSrc, src.
    by rewrite match_dataURI_head, dot_star_one_line. }
  split; [done|]. intros Hb Hpc. unfold goes_to_network.
  rewrite H, Hb, decodeURIComponent_plain by done. done.
Qed.

Lemma data_uri_resolution_witness :
  inlineSrc (lit "data:image/svg+xml;utf8,<svg><g/></svg>")
  = Inline (lit "<svg><g/></svg>")
  /\ inlineSrc (lit "data:image/svg+xml;base64,PHN2Zy8+") = Inline (lit "<svg/>").
Proof.
  split.
  - apply (data_uri_resolution (lit "+xml;utf8") (lit "<svg><g/></svg>"));
      [repeat constructor; discriminate|repeat constructor|reflexivity
      |repeat constructor; discriminate].
  - apply (data_uri_resolution (lit "+xml;base64") (lit "PHN2Zy8+"));
      [repeat constructor; discriminate|repeat constructor].
Defined.

(** X10: when the payload of a data URI does not decode, as with a
    stray percent sign or text that is no base64, the exception leaves
    the callback of [load]: no fetch is issued, nothing is delivered, no
    error is reported to [onError], and the instance stays in LOADING. *)
Theorem undecodable_data_uri_is_dropped (host : Host) (w : World) (c : nat)
  (i : Instance) (base64 : bool) (payload : jsstring) :
  instances w !! c = Some i -> isActive i = true ->
  (if IProps.cacheRequests (props i)
   then cacheStore w !! IProps.src (props i) else None) = None ->
  match_dataURI (IProps.src (props i)) = Some (base64, payload) ->
  (if base64 then atob payload else decodeURIComponent payload) = None ->
  let w' := load host c w in
  w' = emit (Uncaught c) (setState host c loading_state w)
  /\ net w' = net w
  /\ calls (log w') = calls (log w)
  /\ errors (log w') = errors (log w)
  /\ instances w' !! c = Some (set_state (loading_state (state i)) i).
Proof.
  intros Hi Ha Hmiss Hm Hd w'.
  assert (w' = emit (Uncaught c) (setState host c loading_state w)) as Hw'.
  { unfold w'. rewrite (load_active host c w i Hi Ha). cbv zeta.
    rewrite Hmiss. unfold inlineSrc. by rewrite Hm, Hd. }
  destruct (setState_touches host c loading_state w) as (Hn & _).
  destruct (setState_calls host c loading_state w) as [Hc He].
  rewrite Hw'. simpl. rewrite calls_app, errors_app. simpl.
  rewrite !app_nil_r. repeat split; try done.
  by apply setState_lookup.
Qed.

Lemma undecodable_data_uri_witness :
  let src := lit "data:image/svg+xml,100%" in
  let w := set_instances <[0 := example_instance src true Mounted PENDING]>
             init_world in
  issued (load example_host 0 w) = 0
  /\ calls (log (load example_host 0 w)) = []
  /\ errors (log (load example_host 0 w)) = []
  /\ (IState.status ∘ state) <$> instances (load example_host 0 w) !! 0
     = Some LOADING.
Proof.
  intros src w.
  destruct (undecodable_data_uri_is_dropped example_host w 0
              (example_instance src true Mounted PENDING) false (lit "100%"))
    as (_ & Hn & Hc & He & Hi); [vm_compute; reflexivity..|].
  split; [exact (f_equal snd Hn)|]. split; [exact Hc|]. split; [exact He|].
  by rewrite Hi.
Defined.

(** X11: the data-URI pattern is searched for anywhere in the source.
    Text before [data:image/svg] that has no colon is passed over, and
    the payload ends at the first line terminator: such a source - markup
    that embeds an SVG data URI, say - is resolved to the decoded rest of
    the line after the comma, never to the source itself as markup. *)
Theorem data_uri_is_found_anywhere (pre t p : jsstring) :
  without (chr ":") pre -> without (chr ",") t ->
  ends_with t (lit ";base64") = false ->
  let src := pre ++ lit "data:image/svg" ++ t ++ lit "," ++ p in
  inlineSrc src
  = match decodeURIComponent (dot_star p) with
    | Some s => Inline s
    | None => DecodeThrows
    end
  /\ (without (chr "%") p -> inlineSrc src = Inline (dot_star p)).
Proof.
  intros Hpre Ht Hb src.
  assert (inlineSrc src
          = match decodeURIComponent (dot_star p) with
            | Some s => Inline s
            | None => DecodeThrows
            end) as H.
  { unfold inlineSrc, src. by rewrite match_dataURI_skip, Hb. }
  split; [done|]. intros Hp. rewrite H, decodeURIComponent_plain; [done|].
  clear -Hp. induction Hp as [|x p Hx _ IH]; [constructor|].
  cbn [dot_star]. destruct (is_line_terminator x); by constructor.
Qed.

Lemma data_uri_is_found_anywhere_witness :
  inlineSrc (lit "<svg><image href='data:image/svg+xml,<svg/>'/></svg>")
  = Inline (lit "<svg/>'/></svg>").
Proof.
  apply (data_uri_is_found_anywhere (lit "<svg><image href='") (lit "+xml")
           (lit "<svg/>'/></svg>"));
    [repeat constructor; discriminate|repeat constructor; discriminate
    |reflexivity|repeat constructor; discriminate].
Defined.

Lemma indexOf_truthy (s p : jsstring) :
  truthy p = true -> (0 <= indexOf s p)%Z -> truthy s = true.
Proof.
  intros Hp H. destruct s as [|x s]; [|done].
  destruct p as [|y p]; [done|]. unfold indexOf in H. simpl in H. lia.
Qed.

(** X12: a source in which the data-URI pattern does not match - any
    source without a comma, for one - is judged by [indexOf('<svg')]
    alone: if the text occurs anywhere the source itself is delivered as
    content, with no fetch and no cache entry whatever [cacheRequests]
    says, and otherwise the source goes to the network. *)
Theorem markup_is_delivered_as_it_is (host : Host) (w : World) (c : nat)
  (i : Instance) :
  let src := IProps.src (props i) in
  instances w !! c = Some i -> isActive i = true ->
  (if IProps.cacheRequests (props i) then cacheStore w !! src else None) = None ->
  without (chr ",") src ->
  ((0 <= indexOf src (lit "<svg"))%Z ->
   goes_to_network src = false
   /\ load host c w = handleLoad host c src (setState host c loading_state w)
   /\ net (load host c w) = net w)
  /\ ((indexOf src (lit "<svg") < 0)%Z ->
      goes_to_network src = true
      /\ issued (load host c w) = S (issued w)).
Proof.
  intros src Hi Ha Hmiss Hc.
  assert (match_dataURI src = None) as Hm by by apply match_dataURI_no_comma.
  split; intros Hx.
  - assert (inlineSrc src = Inline src) as Hin.
    { unfold inlineSrc. rewrite Hm.
      by destruct (Z.leb_spec 0 (indexOf src (lit "<svg"))); [|lia]. }
    assert (truthy src = true) as Ht by by apply (indexOf_truthy _ (lit "<svg")).
    assert (load host c w
            = handleLoad host c src (setState host c loading_state w)) as Hl
      by by apply (load_inline host c w i src).
    split; [unfold goes_to_network; by rewrite Hin, Ht|]. split; [done|].
    rewrite Hl.
    destruct (handleLoad_touches host c src (setState host c loading_state w))
      as (-> & _ & _).
    apply setState_touches.
  - assert (goes_to_network src = true) as Hg.
    { unfold goes_to_network, inlineSrc. rewrite Hm.
      by destruct (Z.leb_spec 0 (indexOf src (lit "<svg"))); [lia|]. }
    split; [done|].
    by destruct (load_request_always host c w i Hi Ha Hmiss Hg) as (_ & Hn & _).
Qed.

Lemma markup_is_delivered_witness :
  let w := set_instances
             <[0 := example_instance (lit "<svg><g/></svg>") true Mounted PENDING]>
             init_world in
  net (load example_host 0 w) = net w
  /\ goes_to_network (lit "https://example.org/a.svg") = true.
Proof.
  intros w. split.
  - destruct (markup_is_delivered_as_it_is example_host w 0
                (example_instance (lit "<svg><g/></svg>") true Mounted PENDING))
      as [H _]; [vm_compute; reflexivity..|repeat constructor; discriminate|].
    destruct H as (_ & _ & H); [vm_compute; discriminate|exact H].
  - destruct (markup_is_delivered_as_it_is example_host
                (set_instances
                   <[0 := example_instance (lit "https://example.org/a.svg")
                            true Mounted PENDING]> init_world) 0
                (example_instance (lit "https://example.org/a.svg") true Mounted
                   PENDING))
      as [_ H]; [vm_compute; reflexivity..|repeat constructor; discriminate|].
    destruct H as [H _]; [vm_compute; reflexivity|exact H].
Defined.

(** ** An update of the props *)

(** X13: an update leaves the element alone unless it brings a new,
    non-empty source.  With the same [src] nothing but the props
    changes, whatever else the new props say: the state, the cache and
    the effects stay, so a new [title] or [uniquifyIDs] does not reach
    the element.  With an empty [src] in place of a non-empty one the
    instance is set to FAILED and "Missing src" is reported, but the
    element stays in the state, and [render] goes on returning it. *)
Theorem update_keeps_the_element (host : Host) (w : World) (c : nat)
  (i : Instance) (p : IProps.t) :
  reachable host w -> canUseDOM host = true ->
  instances w !! c = Some i -> lifecycle i = Mounted ->
  let w' := componentDidUpdate host c p w in
  (IProps.src p = IProps.src (props i) ->
   w' = set_instances <[c := set_props p i]> w)
  /\ (IProps.src p = [] -> IProps.src (props i) <> [] ->
      instances w' !! c
      = Some (set_state (with_status FAILED (state i)) (set_props p i))
      /\ net w' = net w
      /\ errors (log w')
         = errors (log w)
           ++ (if IProps.onError p then [(c, mk_error (lit "Missing src"))] else [])
      /\ (is_Some (IState.element (state i)) ->
          forall i', instances w' !! c = Some i' -> render host i' = render host i)).
Proof.
  intros Hreach Hdom Hi Hl w'.
  destruct (reachable_instance_ok host w c i Hreach Hi) as (_ & Hact & _).
  apply Hact in Hl as Ha. clear Hact.
  split.
  - intros Hsrc. unfold w', componentDidUpdate. rewrite Hi, Hl, Hdom.
    cbn [negb]. unfold str_eqb. by rewrite bool_decide_eq_true_2.
  - intros Hsrc Hold.
    set (w1 := set_instances <[c := set_props p i]> w).
    assert (w' = handleError host c (mk_error (lit "Missing src")) w1) as ->.
    { unfold w', componentDidUpdate. rewrite Hi, Hl, Hdom. cbn [negb].
      unfold str_eqb. rewrite bool_decide_eq_false_2 by congruence.
      cbn [negb]. by rewrite Hsrc. }
    assert (instances w1 !! c = Some (set_props p i)) as Hi1
      by (unfold w1; simpl; by rewrite lookup_insert_eq).
    assert (instances (handleError host c (mk_error (lit "Missing src")) w1) !! c
            = Some (set_state (with_status FAILED (state i)) (set_props p i)))
      as Hi'
      by (by rewrite (handleError_lookup host c _ w1 (set_props p i) Hi1 Ha)).
    split; [exact Hi'|]. split.
    { destruct (handleError_touches host c (mk_error (lit "Missing src")) w1)
        as (Hn & _). by rewrite Hn. }
    split.
    { destruct (handleError_calls host c (mk_error (lit "Missing src")) w1)
        as [_ He]. rewrite He, Hi1. simpl. by rewrite Ha. }
    intros [el Hel] i' Hi2. rewrite Hi' in Hi2. injection Hi2 as <-.
    unfold render. simpl. by rewrite Hel.
Qed.

Lemma update_keeps_the_element_witness :
  let w := run example_host init_world
             [Construct 0 (example_props (lit "<svg/>")) []; Mount 0] in
  let w' := componentDidUpdate example_host 0 (example_props []) w in
  render example_host (instance_of w' 0) = render example_host (instance_of w 0)
  /\ (IState.status ∘ state) <$> instances w' !! 0 = Some FAILED
  /\ is_Some (IState.element (state (instance_of w 0))).
Proof.
  intros w w'.
  assert (reachable example_host w) as Hreach
    by (apply reachable_run; constructor).
  destruct (update_keeps_the_element example_host w 0 (instance_of w 0)
              (example_props []) Hreach)
    as [_ H]; [vm_compute; reflexivity..|].
  destruct H as (Hi & _ & _ & Hr); [vm_compute; reflexivity|vm_compute; discriminate|].
  split; [|split].
  - apply Hr; [vm_compute; eauto|]. unfold instance_of, w'. by rewrite Hi.
  - unfold w'. by rewrite Hi.
  - vm_compute. eauto.
Defined.

(** ** The transformer as a map *)

Lemma suffix_one_name (hash r : jsstring) (a : Attr.t) :
  Attr.name (suffix_one hash r a) = Attr.name a.
Proof. unfold suffix_one. by destruct (str_eqb _ _). Qed.

Lemma suffix_one_other (hash r : jsstring) (a : Attr.t) :
  Attr.name a <> r -> suffix_one hash r a = a.
Proof.
  intros H. unfold suffix_one, str_eqb. by rewrite bool_decide_eq_false_2.
Qed.

Lemma suffix_attribute_map (hash r : jsstring) (attrs : list Attr.t) :
  NoDup (map Attr.name attrs) ->
  suffix_attribute hash r attrs = map (suffix_one hash r) attrs.
Proof.
  induction attrs as [|a attrs IH]; [done|].
  intros Hnd. apply NoDup_cons in Hnd as [Ha Hnd].
  cbn [suffix_attribute map]. unfold suffix_one at 1, str_eqb.
  case_bool_decide as Hr.
  - assert (map (suffix_one hash r) attrs = attrs) as ->.
    { clear IH Hnd. induction attrs as [|b attrs IH]; [done|].
      cbn [map] in *. apply not_elem_of_cons in Ha as [Hb Ha].
      rewrite IH by done. rewrite suffix_one_other; [done|congruence]. }
    unfold suffixed. destruct (isDataValue r (Attr.value a)); [|done].
    by destruct a.
  - by rewrite IH.
Qed.

Lemma suffix_one_names (hash r : jsstring) (attrs : list Attr.t) :
  map Attr.name (map (suffix_one hash r) attrs) = map Attr.name attrs.
Proof.
  rewrite map_map. apply map_ext. intros a. apply suffix_one_name.
Qed.

Lemma rewrite_url_names (baseURL hash : jsstring) (attrs : list Attr.t) :
  map Attr.name (map (rewrite_url baseURL hash) attrs) = map Attr.name attrs.
Proof.
  rewrite map_map. apply map_ext. intros a. by rewrite rewrite_url_eq.
Qed.

Lemma update_attribute_other (baseURL hash : jsstring) (a : Attr.t) :
  Attr.name a ∉ replaceableAttributes ->
  update_attribute baseURL hash a
  = {| Attr.name := Attr.name a;
       Attr.value := rewrite_url_value baseURL hash (Attr.value a) |}.
Proof.
  intros H. unfold update_attribute. by rewrite bool_decide_eq_false_2.
Qed.

Lemma update_attribute_listed (baseURL hash : jsstring) (a : Attr.t) :
  Attr.name a ∈ replaceableAttributes ->
  update_attribute baseURL hash a
  = {| Attr.name := Attr.name a;
       Attr.value := suffixed hash (Attr.name a)
                       (rewrite_url_value baseURL hash (Attr.value a)) |}.
Proof.
  intros H. unfold update_attribute. by rewrite bool_decide_eq_true_2.
Qed.

Lemma update_attributes_map (baseURL hash : jsstring) (attrs : list Attr.t) :
  NoDup (map Attr.name attrs) ->
  update_attributes baseURL hash attrs = map (update_attribute baseURL hash) attrs.
Proof.
  intros Hnd. unfold update_attributes, replaceableAttributes. cbn [fold_left].
  assert (NoDup (map Attr.name (map (rewrite_url baseURL hash) attrs))) as H0
    by by rewrite rewrite_url_names.
  rewrite (suffix_attribute_map hash (lit "id")) by done.
  assert (forall r l, NoDup (map Attr.name l) ->
                      NoDup (map Attr.name (map (suffix_one hash r) l))) as Hstep
    by (intros r l Hl; by rewrite suffix_one_names).
  rewrite (suffix_attribute_map hash (lit "href")) by auto.
  rewrite (suffix_attribute_map hash (lit "xlink:href")) by auto.
  rewrite (suffix_attribute_map hash (lit "xlink:role")) by auto.
  rewrite (suffix_attribute_map hash (lit "xlink:arcrole")) by auto.
  rewrite !map_map. apply map_ext. intros a. rewrite rewrite_url_eq.
  set (v := rewrite_url_value baseURL hash (Attr.value a)).
  destruct (decide (Attr.name a ∈ replaceableAttributes)) as [Hin|Hout].
  - rewrite update_attribute_listed by done. fold v.
    unfold replaceableAttributes in Hin.
    repeat (apply elem_of_cons in Hin as [Hin|Hin]);
      [..|by apply elem_of_nil in Hin];
      rewrite Hin; unfold suffix_one, str_eqb; cbn [Attr.name Attr.value];
      repeat (first [ rewrite bool_decide_eq_true_2 by reflexivity
                    | rewrite bool_decide_eq_false_2 by (vm_compute; discriminate) ];
              cbn [Attr.name Attr.value]);
      reflexivity.
  - rewrite update_attribute_other by done. fold v.
    unfold replaceableAttributes in Hout.
    repeat (apply not_elem_of_cons in Hout as [? Hout]).
    rewrite !suffix_one_other by (rewrite ?suffix_one_name; done). done.
Qed.

(** X14: with [uniquifyIDs] the attributes of a descendant element,
    which have distinct names, are rewritten one by one, each on its own
    and whatever their order: the first [url(...)] of every value is
    rewritten, and the values of the five names of
    [replaceableAttributes] get the suffix after that unless they are
    data values.  An attribute with another name and no [url(...)] in
    its value stays as it is. *)
Theorem attributes_are_rewritten_one_by_one (props : IProps.t) (hash : jsstring)
  (n : Node) (k : nat) (path : list nat) (attrs : list Attr.t) :
  IProps.uniquifyIDs props = true ->
  attributes_at (k :: path) n = Some attrs ->
  NoDup (map Attr.name attrs) ->
  let baseURL := default [] (IProps.baseURL props) in
  attributes_at (k :: path) (updateSVGAttributes props hash n)
  = Some (map (update_attribute baseURL hash) attrs)
  /\ (forall a, a ∈ attrs -> Attr.name a ∉ replaceableAttributes ->
                match_url (Attr.value a) = None ->
                update_attribute baseURL hash a = a)
  /\ (forall a, a ∈ attrs -> Attr.name a ∈ replaceableAttributes ->
                match_url (Attr.value a) = None ->
                update_attribute baseURL hash a
                = {| Attr.name := Attr.name a;
                     Attr.value := suffixed hash (Attr.name a) (Attr.value a) |}).
Proof.
  intros Hon Hat Hnd baseURL. split; [|split].
  - rewrite attributes_at_updateSVGAttributes by done. rewrite Hat. simpl.
    by rewrite update_attributes_map.
  - intros a _ Hout Hm. rewrite update_attribute_other by done.
    unfold rewrite_url_value. rewrite Hm. by destruct a.
  - intros a _ Hin Hm. rewrite update_attribute_listed by done.
    unfold rewrite_url_value. by rewrite Hm.
Qed.

Lemma attributes_are_rewritten_witness :
  let n :=
    Element (lit "svg") []
      [Element (lit "path")
         [{| Attr.name := lit "fill"; Attr.value := lit "url(#g)" |};
          {| Attr.name := lit "class"; Attr.value := lit "big" |};
          {| Attr.name := lit "id"; Attr.value := lit "p" |}] []] in
  attributes_at [0] (updateSVGAttributes (example_props []) (lit "abc123") n)
  = Some [{| Attr.name := lit "fill"; Attr.value := lit "url(#g__abc123)" |};
          {| Attr.name := lit "class"; Attr.value := lit "big" |};
          {| Attr.name := lit "id"; Attr.value := lit "p__abc123" |}].
Proof.
  intros n.
  destruct (attributes_are_rewritten_one_by_one (example_props []) (lit "abc123")
              n 0 []
              [{| Attr.name := lit "fill"; Attr.value := lit "url(#g)" |};
               {| Attr.name := lit "class"; Attr.value := lit "big" |};
               {| Attr.name := lit "id"; Attr.value := lit "p" |}])
    as (H & _ & _);
    [reflexivity|reflexivity
    |apply (bool_decide_unpack _); vm_compute; reflexivity|].
  rewrite H. vm_compute. reflexivity.
Defined.

(** ** What the transformer keeps *)

Lemma blank_suffix_attribute (hash r : jsstring) (attrs : list Attr.t) :
  map blank (suffix_attribute hash r attrs) = map blank attrs.
Proof.
  induction attrs as [|a attrs IH]; [done|]. cbn [suffix_attribute].
  destruct (str_eqb (Attr.name a) r).
  - by destruct (isDataValue r (Attr.value a)).
  - cbn [map]. by rewrite IH.
Qed.

Lemma blank_update_attributes (baseURL hash : jsstring) (attrs : list Attr.t) :
  map blank (update_attributes baseURL hash attrs) = map blank attrs.
Proof.
  unfold update_attributes, replaceableAttributes. cbn [fold_left].
  rewrite !blank_suffix_attribute, map_map. apply map_ext.
  intros a. by rewrite rewrite_url_eq.
Qed.

Lemma skeleton_uniquify (baseURL hash : jsstring) (d : Node) :
  skeleton (uniquify baseURL hash d) = skeleton d.
Proof.
  induction d as [t a c IH|s] using Node_forall_ind; [|done].
  cbn [uniquify skeleton]. rewrite blank_update_attributes. f_equal.
  induction IH as [|d c Hd _ IHc]; [done|]. cbn [map]. by rewrite Hd, IHc.
Qed.

(** X15: the transformer changes the values of attributes and nothing
    else: the tags, the names and the order of the attributes, the
    children and every text (a style sheet that names an [id], say) are
    as before.  The attributes of the node it is called on, the [svg]
    root, are not touched at all, so the [id] of the root keeps its
    value while a reference to it from inside is suffixed; and without
    [uniquifyIDs] the tree is returned as it is. *)
Theorem transformer_keeps_the_structure (props : IProps.t) (hash : jsstring)
  (n : Node) :
  skeleton (updateSVGAttributes props hash n) = skeleton n
  /\ attributes_of (updateSVGAttributes props hash n) = attributes_of n
  /\ isSVGSVGElement (updateSVGAttributes props hash n) = isSVGSVGElement n
  /\ (IProps.uniquifyIDs props = false -> updateSVGAttributes props hash n = n).
Proof.
  destruct (IProps.uniquifyIDs props) eqn:Hu.
  - rewrite updateSVGAttributes_on by done.
    destruct n as [t a c|s]; [|done]. repeat split; [|done].
    cbn [skeleton]. f_equal. rewrite map_map. apply map_ext.
    intros d. apply skeleton_uniquify.
  - by rewrite updateSVGAttributes_off.
Qed.

Lemma transformer_keeps_the_structure_witness :
  let n :=
    Element (lit "svg") [{| Attr.name := lit "id"; Attr.value := lit "r" |}]
      [Element (lit "use")
         [{| Attr.name := lit "href"; Attr.value := lit "#r" |}] []] in
  let off :=
    {| IProps.baseURL := None; IProps.cacheRequests := true;
       IProps.description := None; IProps.onError := false;
       IProps.onLoad := false; IProps.preProcessor := None;
       IProps.src := []; IProps.title := None; IProps.uniqueHash := None;
       IProps.uniquifyIDs := false |} in
  attributes_of (updateSVGAttributes (example_props []) (lit "abc123") n)
  = Some [{| Attr.name := lit "id"; Attr.value := lit "r" |}]
  /\ attributes_at [0] (updateSVGAttributes (example_props []) (lit "abc123") n)
     = Some [{| Attr.name := lit "href"; Attr.value := lit "#r__abc123" |}]
  /\ updateSVGAttributes off (lit "abc123") n = n.
Proof.
  intros n off. split; [|split].
  - by rewrite (proj1 (proj2 (transformer_keeps_the_structure (example_props [])
                                (lit "abc123") n))).
  - reflexivity.
  - by apply (transformer_keeps_the_structure off (lit "abc123") n).
Defined.

(** ** The rewriting of [url(...)] *)

Lemma lazy_until_rparen_occurs (s g : jsstring) :
  lazy_until_rparen s = Some g ->
  exists post, s = g ++ lit ")" ++ post /\ without (chr ")") g /\ one_line g.
Proof.
  revert g. induction s as [|c s IH]; intros g H; [done|].
  cbn [lazy_until_rparen] in H.
  destruct (N.eqb_spec c (chr ")")) as [->|Hc].
  - injection H as <-. exists s. by repeat split; try constructor.
  - destruct (is_line_terminator c) eqn:Hl; [done|].
    destruct (lazy_until_rparen s) as [g'|]; [|done].
    injection H as <-. destruct (IH g' eq_refl) as (post & -> & Hg & Hone).
    exists post. by repeat split; try constructor.
Qed.

Lemma match_url_occurs (v g : jsstring) :
  match_url v = Some g ->
  exists pre post, v = pre ++ lit "url(" ++ g ++ lit ")" ++ post
                   /\ without (chr ")") g /\ one_line g.
Proof.
  induction v as [|c v IH]; [done|]. cbn [match_url].
  destruct (starts_with (lit "url(") (c :: v)) eqn:Hs.
  - destruct (lazy_until_rparen (drop 4 (c :: v))) as [g'|] eqn:Hg.
    + intros [= <-].
      destruct (lazy_until_rparen_occurs _ _ Hg) as (post & Hd & Hr & Hone).
      exists [], post. split; [|done].
      rewrite (starts_with_eq _ _ Hs).
      change (length (lit "url(")) with 4. by rewrite Hd.
    + intros H. destruct (IH H) as (pre & post & -> & Hr & Hone).
      by exists (c :: pre), post.
  - intros H. destruct (IH H) as (pre & post & -> & Hr & Hone).
    by exists (c :: pre), post.
Qed.

Lemma split_first_unfold (s p : jsstring) :
  split_first s p
  = if starts_with p s then Some ([], drop (length p) s)
    else match s with
         | [] => None
         | c :: s' =>
             match split_first s' p with
             | Some (before, after) => Some (c :: before, after)
             | None => None
             end
         end.
Proof. by destruct s. Qed.

Lemma split_first_occurs (pre p post : jsstring) :
  exists before after,
    split_first (pre ++ p ++ post) p = Some (before, after)
    /\ pre ++ p ++ post = before ++ p ++ after.
Proof.
  induction pre as [|c pre IH].
  - exists [], post. split; [|done].
    rewrite split_first_unfold. cbn [app].
    by rewrite starts_with_app, drop_app_length.
  - destruct IH as (before & after & Hs & He).
    rewrite split_first_unfold.
    destruct (starts_with p ((c :: pre) ++ p ++ post)) eqn:Hp.
    + exists [], (drop (length p) ((c :: pre) ++ p ++ post)). split; [done|].
      by apply starts_with_eq.
    + cbn [app]. rewrite Hs. exists (c :: before), after. split; [done|].
      cbn [app]. by rewrite He.
Qed.

Lemma getSubstitution_plain (matched before after repl : jsstring) :
  without (chr "$") repl -> getSubstitution matched before after repl = repl.
Proof.
  induction 1 as [|c repl Hc _ IH]; [done|]. cbn [getSubstitution].
  destruct (N.eqb_spec c (chr "$")) as [->|_]; [done|]. by rewrite IH.
Qed.

(** X16: when a value has a [url(...)] with a non-empty argument, and
    neither the base URL, the argument nor the token holds a dollar
    sign, the rewriting puts the base URL before the argument and the
    suffix after it in one place, the first [url(] argument [)] of the
    value; the text before and after it, a second [url(...)] included,
    is kept as it is.  The argument ends at the first closing bracket
    and lies on one line. *)
Theorem url_rewriting_is_local (baseURL hash v g : jsstring) :
  match_url v = Some g -> g <> [] ->
  without (chr "$") baseURL -> without (chr "$") g -> without (chr "$") hash ->
  exists pre post,
    v = pre ++ lit "url(" ++ g ++ lit ")" ++ post
    /\ rewrite_url_value baseURL hash v
       = pre ++ lit "url(" ++ baseURL ++ g ++ lit "__" ++ hash ++ lit ")" ++ post
    /\ without (chr ")") g /\ one_line g.
Proof.
  intros Hm Hg Hb Hgd Hh.
  destruct (match_url_occurs v g Hm) as (pre0 & post0 & Hv & Hr & Hone).
  destruct (split_first_occurs pre0 (lit "url(" ++ g ++ lit ")") post0)
    as (pre & post & Hs & He).
  exists pre, post.
  assert (v = pre ++ lit "url(" ++ g ++ lit ")" ++ post) as Hv'.
  { rewrite Hv. rewrite <- !app_assoc in He. exact He. }
  split; [exact Hv'|]. split; [|done].
  unfold rewrite_url_value, js_replace. rewrite Hm.
  rewrite (truthy_nonempty _ Hg).
  assert (split_first v (lit "url(" ++ g ++ lit ")") = Some (pre, post)) as ->.
  { rewrite Hv. rewrite <- !app_assoc in Hs. exact Hs. }
  rewrite getSubstitution_plain.
  - by rewrite <- !app_assoc.
  - unfold without. rewrite !Forall_app. repeat split; try done;
      repeat constructor; discriminate.
Qed.

Lemma url_rewriting_witness :
  exists pre post,
    lit "fill:url(#a);stroke:url(#b)" = pre ++ lit "url(" ++ lit "#a" ++ lit ")" ++ post
    /\ rewrite_url_value (lit "https://x/") (lit "abc123")
         (lit "fill:url(#a);stroke:url(#b)")
       = pre ++ lit "url(" ++ lit "https://x/" ++ lit "#a" ++ lit "__"
           ++ lit "abc123" ++ lit ")" ++ post
    /\ without (chr ")") (lit "#a") /\ one_line (lit "#a").
Proof.
  apply (url_rewriting_is_local (lit "https://x/") (lit "abc123")
           (lit "fill:url(#a);stroke:url(#b)") (lit "#a"));
    [reflexivity|discriminate|repeat constructor; discriminate..].
Defined.

(** ** The title and the description *)

Lemma remove_first_none (tag : jsstring) (n : Node) :
  remove_first tag n = None <-> has_descendant tag n = false.
Proof.
  induction n as [t a c IH|s] using Node_forall_ind; [|done].
  cbn [remove_first has_descendant].
  induction IH as [|d ds Hd _ IHds]; [done|].
  cbn [existsb]. destruct (is_named tag d); [done|]. cbn [orb].
  destruct (remove_first tag d) as [d'|] eqn:Hd'.
  - destruct (has_descendant tag d) eqn:Hh; [done|].
    by pose proof (proj2 Hd eq_refl).
  - rewrite (proj1 Hd eq_refl). cbn [orb].
    destruct ((fix among (ns : list Node) : option (list Node) :=
                 match ns with
                 | [] => None
                 | d0 :: ds0 =>
                     if is_named tag d0 then Some ds0
                     else match remove_first tag d0 with
                          | Some d' => Some (d' :: ds0)
                          | None => option_map (cons d0) (among ds0)
                          end
                 end) ds) as [r|]; simpl in *.
    + split; [done|]. intros H. by apply IHds in H.
    + split; [|done]. intros _. by apply IHds.
Qed.


Lemma has_descendant_skeleton (tag : jsstring) (n : Node) :
  has_descendant tag (skeleton n) = has_descendant tag n.
Proof.
  induction n as [t a c IH|s] using Node_forall_ind; [|done].
  cbn [skeleton has_descendant].
  induction IH as [|d ds Hd _ IHds]; [done|].
  cbn [map existsb]. rewrite Hd, IHds. by destruct d.
Qed.

Lemma skeleton_updateSVGAttributes (props : IProps.t) (hash : jsstring)
  (n : Node) :
  skeleton (updateSVGAttributes props hash n) = skeleton n.
Proof.
  destruct (IProps.uniquifyIDs props) eqn:Hu.
  - rewrite updateSVGAttributes_on by done.
    destruct n as [t a c|s]; [|done].
    cbn [skeleton]. f_equal. rewrite map_map. apply map_ext.
    intros d. apply skeleton_uniquify.
  - by rewrite updateSVGAttributes_off.
Qed.

Lemma has_descendant_updateSVGAttributes (tag : jsstring) (props : IProps.t)
  (hash : jsstring) (n : Node) :
  has_descendant tag (updateSVGAttributes props hash n) = has_descendant tag n.
Proof.
  by rewrite <- has_descendant_skeleton, skeleton_updateSVGAttributes,
    has_descendant_skeleton.
Qed.

Lemma updateSVGAttributes_root (props : IProps.t) (hash : jsstring)
  (t : jsstring) (a : list Attr.t) (c : list Node) :
  updateSVGAttributes props hash (Element t a c)
  = Element t a (childNodes_of (updateSVGAttributes props hash (Element t a c))).
Proof.
  destruct (IProps.uniquifyIDs props) eqn:Hu.
  - by rewrite updateSVGAttributes_on.
  - by rewrite updateSVGAttributes_off.
Qed.



(** X18: [getNode] on content that converts to an [svg] element with
    neither a [title] nor a [desc] in it, for an instance with a
    non-empty title and description whose description text brings no
    [title] element: the tree returned is the transformed tree with two
    more children in front, the [title] first and the [desc] second,
    although the description is put in first. *)
Theorem title_comes_before_description (host : Host) (i : Instance)
  (text t d tg : jsstring) (a : list Attr.t) (c : list Node) :
  processSVG i = Return text ->
  convert_text host text = Return (Some (Element tg a c)) ->
  tg = lit "svg" ->
  IProps.title (props i) = Some t -> t <> [] ->
  IProps.description (props i) = Some d -> d <> [] ->
  has_descendant (lit "desc") (Element tg a c) = false ->
  has_descendant (lit "title") (Element tg a c) = false ->
  has_descendant (lit "title") (Element (lit "desc") [] (innerHTML host d)) = false ->
  getNode_try host i
  = Return
      (Element tg a
         (Element (lit "title") [] (innerHTML host t)
          :: Element (lit "desc") [] (innerHTML host d)
          :: childNodes_of
               (updateSVGAttributes (props i) (hash i) (Element tg a c)))).
Proof.
  intros Hp Hc -> Ht Htn Hd Hdn Hnd Hnt Hdt.
  unfold getNode_try. rewrite Hp, Hc.
  assert (isSVGSVGElement (Element (lit "svg") a c) = true) as ->
    by (unfold isSVGSVGElement, str_eqb; by rewrite bool_decide_eq_true_2).
  rewrite Ht, Hd.
  rewrite <- (has_descendant_updateSVGAttributes _ (props i) (hash i)) in Hnd.
  rewrite <- (has_descendant_updateSVGAttributes _ (props i) (hash i)) in Hnt.
  rewrite updateSVGAttributes_root in Hnd, Hnt |- *.
  set (c' := childNodes_of
               (updateSVGAttributes (props i) (hash i) (Element (lit "svg") a c)))
    in *.
  cbv zeta. unfold inject at 2. rewrite (truthy_nonempty _ Hdn).
  apply remove_first_none in Hnd. rewrite Hnd. cbn [default prepend].
  unfold inject. rewrite (truthy_nonempty _ Htn).
  assert (remove_first (lit "title")
            (Element (lit "svg") a
               (Element (lit "desc") [] (innerHTML host d) :: c')) = None) as ->.
  { apply remove_first_none. cbn [has_descendant existsb].
    cbn [has_descendant] in Hdt, Hnt. rewrite Hdt, Hnt. reflexivity. }
  reflexivity.
Qed.

Lemma title_comes_before_description_witness :
  let i :=
    {| props :=
         {| IProps.baseURL := None; IProps.cacheRequests := true;
            IProps.description := Some (lit "A logo"); IProps.onError := false;
            IProps.onLoad := false; IProps.preProcessor := None;
            IProps.src := lit "<svg/>"; IProps.title := Some (lit "Logo");
            IProps.uniqueHash := None; IProps.uniquifyIDs := false |};
       state := {| IState.content := lit "<svg/>"; IState.element := None;
                   IState.hasCache := false; IState.status := LOADED |};
       isActive := true; hash := lit "abc123"; lifecycle := Mounted |} in
  getNode_try example_host i
  = Return
      (Element (lit "svg") []
         (Element (lit "title") [] [Text (lit "Logo")]
          :: Element (lit "desc") [] [Text (lit "A logo")]
          :: childNodes_of example_svg)).
Proof.
  intros i.
  apply (title_comes_before_description example_host i (lit "<svg/>")
           (lit "Logo") (lit "A logo") (lit "svg") []
           (childNodes_of example_svg));
    [reflexivity|reflexivity|reflexivity|reflexivity|discriminate
    |reflexivity|discriminate|reflexivity|reflexivity|reflexivity].
Defined.

(** ** The answer to a fetch *)

Lemma starts_with_semicolon (s : jsstring) :
  starts_with (lit ";") s = true -> exists s', s = chr ";" :: s'.
Proof.
  destruct s as [|x s]; [done|]. change (lit ";") with [chr ";"].
  cbn [starts_with]. rewrite andb_true_r. intros H%N.eqb_eq. subst. by exists s.
Qed.

Lemma split_semicolon_first_plain (media : jsstring) :
  without (chr ";") media -> split_semicolon_first media = media.
Proof.
  induction 1 as [|c m Hc Hm IH]; [done|]. cbn [split_semicolon_first].
  destruct (N.eqb_spec c (chr ";")) as [->|_]; [done|].
  assert (starts_with (lit ";") m = false) as ->.
  { destruct (starts_with (lit ";") m) eqn:Hs; [|done].
    apply starts_with_semicolon in Hs as [s' ->].
    by apply Forall_cons in Hm as [? _]. }
  rewrite andb_false_r. by rewrite IH.
Qed.

Lemma split_semicolon_first_params (media params : jsstring) :
  without (chr ";") media -> last media <> Some (chr " ") ->
  split_semicolon_first (media ++ lit ";" ++ params) = media.
Proof.
  induction 1 as [|c m Hc Hm IH]; intros Hl; [done|].
  change ((c :: m) ++ lit ";" ++ params) with (c :: (m ++ lit ";" ++ params)).
  cbn [split_semicolon_first].
  destruct (N.eqb_spec c (chr ";")) as [->|_]; [done|].
  destruct m as [|x m].
  - destruct (N.eqb_spec c (chr " ")) as [->|_]; [done|].
    cbn [andb]. by rewrite IH.
  - assert (starts_with (lit ";") ((x :: m) ++ lit ";" ++ params) = false) as ->.
    { destruct (starts_with (lit ";") ((x :: m) ++ lit ";" ++ params)) eqn:Hs;
        [|done].
      apply starts_with_semicolon in Hs as [s' Hs]. injection Hs as -> _.
      by apply Forall_cons in Hm as [? _]. }
    rewrite andb_false_r. by rewrite IH.
Qed.

Lemma indexOf_from_unfold (i : Z) (s p : jsstring) :
  indexOf_from i s p
  = if starts_with p s then i
    else match s with
         | [] => (-1)%Z
         | _ :: s' => indexOf_from (i + 1) s' p
         end.
Proof. by destruct s. Qed.

Lemma indexOf_from_occurs (i : Z) (pre p post : jsstring) :
  (i <= indexOf_from i (pre ++ p ++ post) p)%Z.
Proof.
  revert i. induction pre as [|c pre IH]; intros i; rewrite indexOf_from_unfold.
  - cbn [app]. rewrite starts_with_app. lia.
  - destruct (starts_with p ((c :: pre) ++ p ++ post)); [lia|].
    cbn [app]. specialize (IH (i + 1)%Z). lia.
Qed.

(** X19: the answer to a fetch is judged by its status and by the part
    of the content type before the first semicolon.  A status above 299
    is reported as "Not Found" whatever the content type.  Otherwise the
    text is taken when that part contains [image/svg+xml] or
    [text/plain] anywhere in it, and the parameters after the semicolon
    play no part; if it contains neither, or the header is missing, the
    error "Content type isn't valid: " with that part is raised. *)
Theorem response_is_judged_by_its_media_type (status : Z) (media : jsstring)
  (params : option jsstring) (text : outcome jsstring) :
  without (chr ";") media -> last media <> Some (chr " ") ->
  let contentType :=
    Some (media ++ match params with Some p => lit ";" ++ p | None => [] end) in
  ((299 < status)%Z ->
   check_response status contentType text = Throw (mk_error (lit "Not Found"))
   /\ check_response status None text = Throw (mk_error (lit "Not Found")))
  /\ ((status <= 299)%Z ->
      check_response status contentType text
      = (if (0 <=? indexOf media (lit "image/svg+xml"))%Z
            || (0 <=? indexOf media (lit "text/plain"))%Z
         then text
         else Throw (mk_error (lit "Content type isn't valid: " ++ media)))
      /\ check_response status None text
         = Throw (mk_error (lit "Content type isn't valid: "))
      /\ (forall pre post,
            media = pre ++ lit "image/svg+xml" ++ post
            \/ media = pre ++ lit "text/plain" ++ post ->
            check_response status contentType text = text)).
Proof.
  intros Hm Hl contentType.
  assert (split_semicolon_first (default [] contentType) = media) as Hft.
  { unfold contentType. cbn [default]. destruct params as [p|].
    - by apply split_semicolon_first_params.
    - rewrite app_nil_r. by apply split_semicolon_first_plain. }
  split.
  - intros Hs. unfold check_response.
    by destruct (Z.ltb_spec 299 status); [|lia].
  - intros Hs.
    assert (check_response status contentType text
            = (if (0 <=? indexOf media (lit "image/svg+xml"))%Z
                  || (0 <=? indexOf media (lit "text/plain"))%Z
               then text
               else Throw (mk_error (lit "Content type isn't valid: " ++ media))))
      as Hc.
    { unfold check_response. rewrite Hft.
      destruct (Z.ltb_spec 299 status); [lia|]. cbn [existsb].
      rewrite orb_false_r.
      by destruct ((0 <=? indexOf media (lit "image/svg+xml"))%Z
                   || (0 <=? indexOf media (lit "text/plain"))%Z). }
    split; [exact Hc|]. split.
    + unfold check_response. by destruct (Z.ltb_spec 299 status); [lia|].
    + intros pre post Hin. rewrite Hc.
      assert ((0 <=? indexOf media (lit "image/svg+xml"))%Z
              || (0 <=? indexOf media (lit "text/plain"))%Z = true) as ->; [|done].
      apply orb_true_iff. unfold indexOf.
      destruct Hin as [-> | ->]; [left|right]; apply Z.leb_le;
        apply indexOf_from_occurs.
Qed.

Lemma response_is_judged_witness :
  check_response 200 (Some (lit "image/svg+xml; charset=utf-8"))
    (Return (lit "<svg/>")) = Return (lit "<svg/>")
  /\ check_response 200 (Some (lit "text/html")) (Return (lit "<svg/>"))
     = Throw (mk_error (lit "Content type isn't valid: text/html"))
  /\ check_response 500 (Some (lit "image/svg+xml")) (Return (lit "<svg/>"))
     = Throw (mk_error (lit "Not Found")).
Proof.
  split; [|split].
  - destruct (response_is_judged_by_its_media_type 200 (lit "image/svg+xml")
                (Some (lit " charset=utf-8")) (Return (lit "<svg/>")))
      as [_ H]; [repeat constructor; discriminate|discriminate|].
    destruct H as (_ & _ & H); [lia|].
    apply (H [] []). by left.
  - destruct (response_is_judged_by_its_media_type 200 (lit "text/html")
                None (Return (lit "<svg/>")))
      as [_ H]; [repeat constructor; discriminate|discriminate|].
    destruct H as (H & _); [lia|]. exact H.
  - destruct (response_is_judged_by_its_media_type 500 (lit "image/svg+xml")
                None (Return (lit "<svg/>")))
      as [H _]; [repeat constructor; discriminate|discriminate|].
    destruct H as (H & _); [lia|]. exact H.
Defined.

(** ** The calls of [onLoad] *)

Lemma notified_app l1 l2 : notified (l1 ++ l2) = notified l1 ++ notified l2.
Proof. unfold notified. apply flat_map_app. Qed.

Section Notified.

Context (host : Host).

Lemma setState_notified (c : nat) (f : IState.t -> IState.t) (w : World)
  (i : Instance) :
  instances w !! c = Some i ->
  notified (log (setState host c f w))
  = notified (log w)
    ++ (if canUseDOM host
           && negb (status_eqb (IState.status (state i)) READY)
           && status_eqb (IState.status (f (state i))) READY
           && IProps.onLoad (props i)
        then [(c, IProps.src (props i), IState.hasCache (f (state i)))]
        else []).
Proof.
  intros Hi. unfold setState. rewrite Hi.
  destruct (_ && _); simpl; rewrite !notified_app; simpl;
    by rewrite ?app_nil_r.
Qed.

Lemma error_status_not_ready (e : Error) :
  status_eqb (error_status e) READY = false.
Proof. by destruct (error_status_cases e) as [[_ ->]|[_ ->]]. Qed.

Lemma handleError_notified (c : nat) (e : Error) (w : World) :
  notified (log (handleError host c e w)) = notified (log w).
Proof.
  unfold handleError. destruct (instances w !! c) as [i|] eqn:Hi; [|done].
  set (w1 := if negb (production host) then emit (ConsoleError e) w else w).
  assert (notified (log w1) = notified (log w)) as H1.
  { unfold w1. destruct (negb _); simpl; [|done].
    rewrite notified_app. simpl. by rewrite app_nil_r. }
  assert (instances w1 !! c = Some i) as Hi1
    by (unfold w1; by destruct (negb _)).
  destruct (isActive i); [|done].
  assert (notified (log (setState host c
                           (fun st => {| IState.content := IState.content st;
                                         IState.element := IState.element st;
                                         IState.hasCache := IState.hasCache st;
                                         IState.status := error_status e |}) w1))
          = notified (log w)) as H2.
  { rewrite (setState_notified c _ w1 i Hi1). cbn [IState.status].
    rewrite error_status_not_ready, andb_false_r. cbn [andb].
    by rewrite app_nil_r. }
  destruct (IProps.onError (props i)); [|done].
  simpl. rewrite notified_app, H2. simpl. by rewrite app_nil_r.
Qed.

End Notified.

(** X20: [onLoad] is called for an arrival at READY and for nothing
    else.  A delivery to an active instance calls it once, as the last
    thing it does, when the delivery ends in READY and the prop is
    given, and not at all when it ends otherwise; its arguments are the
    [src] of the props at that moment and the [hasCache] the instance
    was constructed with.  [handleError] never calls it. *)
Theorem onLoad_reports_each_arrival (host : Host) (w : World) (c : nat)
  (i : Instance) (s : jsstring) :
  canUseDOM host = true ->
  instances w !! c = Some i -> isActive i = true ->
  let w' := handleLoad host c s w in
  (exists st',
     instances w' !! c = Some (set_state st' i)
     /\ notified (log w')
        = notified (log w)
          ++ (if status_eqb (IState.status st') READY && IProps.onLoad (props i)
              then [(c, IProps.src (props i), IState.hasCache (state i))]
              else []))
  /\ (forall e w0, notified (log (handleError host c e w0)) = notified (log w0)).
Proof.
  intros Hdom Hi Ha w'. split; [|intros e w0; apply handleError_notified].
  unfold w', handleLoad. simpl. rewrite Hi, Ha.
  set (w0 := emit (CallHandleLoad c s) w).
  assert (instances w0 !! c = Some i) as Hi0 by done.
  assert (notified (log w0) = notified (log w)) as Hn0.
  { unfold w0. simpl. rewrite notified_app. simpl. by rewrite app_nil_r. }
  pose proof (setState_lookup host c (loaded_state s) w0 i Hi0) as Hi1.
  pose proof (setState_notified host c (loaded_state s) w0 i Hi0) as Hn1.
  unfold loaded_state in Hi1 at 1, Hn1 at 1.
  set (w1 := setState host c _ w0) in *.
  set (i1 := set_state (loaded_state s (state i)) i) in *.
  assert (notified (log w1) = notified (log w)) as Hn1'.
  { rewrite Hn1, Hn0. cbn [loaded_state IState.status status_eqb].
    rewrite andb_false_r. cbn [andb]. by rewrite app_nil_r. }
  clear Hn1.
  assert (forall w2 st2 (el : ReactElement),
            instances w2 !! c = Some (set_state st2 i) ->
            notified (log w2) = notified (log w) ->
            status_eqb (IState.status st2) READY = false ->
            IState.hasCache st2 = IState.hasCache (state i) ->
            exists st',
              instances
                (setState host c
                   (fun st => {| IState.content := IState.content st;
                                 IState.element := Some el;
                                 IState.hasCache := IState.hasCache st;
                                 IState.status := READY |}) w2) !! c
              = Some (set_state st' i)
              /\ notified
                   (log (setState host c
                           (fun st => {| IState.content := IState.content st;
                                         IState.element := Some el;
                                         IState.hasCache := IState.hasCache st;
                                         IState.status := READY |}) w2))
                 = notified (log w)
                   ++ (if status_eqb (IState.status st') READY
                          && IProps.onLoad (props i)
                       then [(c, IProps.src (props i), IState.hasCache (state i))]
                       else [])) as Hready.
  { intros w2 st2 el Hi2 Hn2 Hs2 Hh2.
    eexists. split; [by rewrite (setState_lookup host c _ w2 _ Hi2)|].
    rewrite (setState_notified host c _ w2 _ Hi2), Hn2.
    cbn [set_state state props IState.status IState.hasCache status_eqb].
    by rewrite Hdom, Hs2, Hh2. }
  assert (forall w2 st2 e,
            instances w2 !! c = Some (set_state st2 i) ->
            notified (log w2) = notified (log w) ->
            exists st',
              instances (handleError host c e w2) !! c = Some (set_state st' i)
              /\ notified (log (handleError host c e w2))
                 = notified (log w)
                   ++ (if status_eqb (IState.status st') READY
                          && IProps.onLoad (props i)
                       then [(c, IProps.src (props i), IState.hasCache (state i))]
                       else [])) as Hfail.
  { intros w2 st2 e Hi2 Hn2.
    eexists. split;
      [by rewrite (handleError_lookup host c e w2 _ Hi2 Ha)|].
    rewrite handleError_notified, Hn2. cbn [with_status IState.status].
    rewrite error_status_not_ready. cbn [andb]. by rewrite app_nil_r. }
  unfold getElement, getNode. rewrite Hi1.
  destruct (getNode_try host i1) as [svg|e1].
  - destruct (convert_node host (Some svg)) as [[el|]|e2].
    + by apply (Hready w1 (loaded_state s (state i)) el).
    + by apply (Hfail w1 (loaded_state s (state i))).
    + by apply (Hfail w1 (loaded_state s (state i))).
  - pose proof (handleError_lookup host c e1 w1 i1 Hi1 Ha) as Hi2.
    pose proof (handleError_notified host c e1 w1) as Hn2.
    rewrite Hn1' in Hn2.
    set (w2 := handleError host c e1 w1) in *.
    destruct (convert_node host None) as [[el|]|e2].
    + apply (Hready w2 (with_status (error_status e1) (loaded_state s (state i)))
               el); [done|done|apply error_status_not_ready|done].
    + by apply (Hfail w2
                  (with_status (error_status e1) (loaded_state s (state i)))).
    + by apply (Hfail w2
                  (with_status (error_status e1) (loaded_state s (state i)))).
Qed.

Lemma onLoad_reports_witness :
  let w := set_instances
             <[0 := example_instance (lit "<svg/>") true Mounted LOADING]>
             init_world in
  notified (log (handleLoad example_host 0 (lit "<svg/>") w))
  = [(0, lit "<svg/>", false)]
  /\ notified (log (handleLoad example_host 0 (lit "hello") w)) = [].
Proof.
  intros w. split.
  - destruct (onLoad_reports_each_arrival example_host w 0
                (example_instance (lit "<svg/>") true Mounted LOADING)
                (lit "<svg/>")) as [(st' & Hi & Hn) _];
      [reflexivity..|].
    rewrite Hn.
    assert (IState.status st' = READY) as ->
      by (vm_compute in Hi; by injection Hi as <-).
    reflexivity.
  - destruct (onLoad_reports_each_arrival example_host w 0
                (example_instance (lit "<svg/>") true Mounted LOADING)
                (lit "hello")) as [(st' & Hi & Hn) _];
      [reflexivity..|].
    rewrite Hn.
    assert (IState.status st' = FAILED) as ->
      by (vm_compute in Hi; by injection Hi as <-).
    reflexivity.
Defined.

(** ** A fetch that fails at the call *)

Lemma stranded_net (src : jsstring) (w w' : World) :
  net w' = net w -> stranded src w -> stranded src w'.
Proof. intros Hn. injection Hn as Hcs Hfl _. unfold stranded. by rewrite Hcs, Hfl. Qed.

Section Stranded.

Context (host : Host).

Lemma load_stranded (src : jsstring) (c : nat) (w : World) :
  stranded src w -> stranded src (load host c w).
Proof.
  intros Hst. destruct (instances w !! c) as [i|] eqn:Hi;
    [|unfold load; by rewrite Hi].
  destruct (isActive i) eqn:Ha; [|by erewrite load_inactive].
  rewrite (load_active host c w i Hi Ha). cbv zeta.
  destruct (setState_touches host c loading_state w) as (Hn & _).
  pose proof (setState_lookup host c loading_state w i Hi) as Hi1.
  set (w1 := setState host c loading_state w) in *.
  set (i1 := set_state (loading_state (state i)) i) in *.
  assert (stranded src w1) as Hst1 by by apply (stranded_net src w).
  assert (forall s, stranded src (handleLoad host c s w1)) as Hload.
  { intros s. apply (stranded_net src w1); [|done].
    by destruct (handleLoad_touches host c s w1) as (-> & _). }
  injection Hn as Hcs Hfl Hiss.
  assert ((if IProps.cacheRequests (props i)
           then cacheStore w !! IProps.src (props i) else None) = None ->
          stranded src (request host c w1)) as Hreq.
  { intros Hmiss.
    assert (IProps.cacheRequests (props i) = true -> IProps.src (props i) <> src)
      as Hne.
    { intros Hc Heq. rewrite Hc, Heq in Hmiss.
      destruct Hst as [(entry & He & _) _]. congruence. }
    destruct Hst1 as [(entry & He & Hs) Hfree].
    destruct (request_always host c w1 i1 Hi1) as (Hcache & _).
    split.
    - exists entry. split; [|done]. rewrite Hcache.
      change (props i1) with (props i).
      destruct (IProps.cacheRequests (props i)) eqn:Hc; [|done].
      rewrite lookup_insert_ne; [done|by apply Hne].
    - destruct (fetch_throws host (IProps.src (props i1))) as [e|] eqn:Hf.
      + destruct (request_throws host c w1 i1 e Hi1 Hf) as [_ Hn].
        injection Hn as _ -> _. exact Hfree.
      + pose proof (request_net host c w1 i1 Hi1 Hf) as Hn.
        injection Hn as _ -> _. intros id r.
        destruct (decide (issued w1 = id)) as [<-|Hid].
        * rewrite lookup_insert_eq. intros [= <-]. simpl. exact Hne.
        * rewrite lookup_insert_ne by done. apply Hfree. }
  destruct (if IProps.cacheRequests (props i)
            then cacheStore w !! IProps.src (props i) else None)
    as [cache|] eqn:Hcache.
  - destruct (IProps.cacheRequests (props i)); [|done].
    destruct (IStorageItem.status cache) eqn:Hstat; try done.
    destruct Hst1 as [(entry & He & Hs) Hfree]. split; [|exact Hfree].
    simpl. destruct (decide (IProps.src (props i) = src)) as [->|Hne].
    + rewrite lookup_insert_eq. eauto.
    + rewrite lookup_insert_ne by done. eauto.
  - destruct (inlineSrc _) as [s| |]; [destruct (truthy s)| |];
      [apply Hload|by apply Hreq|by apply Hreq|by apply (stranded_net src w1)].
Qed.

Lemma settle_stranded (src : jsstring) (id : nat) (res : FetchResult) (w : World) :
  stranded src w -> stranded src (settle host id res w).
Proof.
  intros [(entry & He & Hs) Hfree].
  destruct (inflight w !! id) as [r|] eqn:Hr;
    [|unfold settle; rewrite Hr; split; eauto].
  rewrite (settle_unfold host id res w r Hr).
  assert (forall id' r', delete id (inflight w) !! id' = Some r' ->
                         req_cacheRequests r' = true -> req_src r' <> src)
    as Hfree'.
  { intros id' r'. rewrite lookup_delete_Some. intros [_ H]. by apply (Hfree id'). }
  destruct (fetch_outcome res) as [content|err].
  - pose proof (on_content_net host r content (set_inflight (delete id) w)) as Hn.
    injection Hn as Hcs Hfl _. split; [|by rewrite Hfl].
    exists entry. split; [|done]. rewrite Hcs. simpl.
    destruct (req_cacheRequests r) eqn:Hc; [|done].
    destruct (cacheStore w !! req_src r); [|done].
    rewrite lookup_insert_ne; [done|by apply (Hfree id r)].
  - pose proof (on_rejected_net host r err (set_inflight (delete id) w)) as Hn.
    injection Hn as Hcs Hfl _. split; [|by rewrite Hfl].
    exists entry. split; [|done]. rewrite Hcs. simpl.
    destruct (req_cacheRequests r) eqn:Hc; [|done].
    rewrite lookup_delete_ne; [done|by apply (Hfree id r)].
Qed.

Lemma step_stranded (src : jsstring) (w : World) (ev : Event) :
  stranded src w -> stranded src (step host w ev).
Proof.
  intros Hst.
  assert (forall c err w1, net w1 = net w ->
                           stranded src (handleError host c err w1)) as Herr.
  { intros c err w1 H1. apply (stranded_net src w); [|done].
    by destruct (handleError_touches host c err w1) as (-> & _). }
  assert (forall c w1, net w1 = net w -> stranded src (load host c w1)) as Hload.
  { intros c w1 H1. apply load_stranded. by apply (stranded_net src w). }
  destruct ev as [c p random|c|c p|c|id res]; simpl.
  - unfold construct. by destruct (instances w !! c).
  - unfold componentDidMount. destruct (instances w !! c) as [i|]; [|done].
    destruct (lifecycle i); [|done..].
    destruct (negb (canUseDOM host)); [done|].
    destruct (IState.status (state i)); try done.
    destruct (negb (isSupportedEnvironment host)); [by apply Herr|].
    destruct (negb (truthy _)); [by apply Herr|by apply Hload].
  - unfold componentDidUpdate. destruct (instances w !! c) as [i|]; [|done].
    destruct (lifecycle i); [done| |done].
    destruct (negb (canUseDOM host)); [done|].
    destruct (negb (str_eqb _ _)); [|done].
    destruct (negb (truthy _)); [by apply Herr|by apply Hload].
  - unfold componentWillUnmount. destruct (instances w !! c) as [i|]; [|done].
    by destruct (lifecycle i).
  - by apply settle_stranded.
Qed.

Lemma run_stranded (src : jsstring) (evs : list Event) (w : World) :
  stranded src w -> stranded src (run host w evs).
Proof.
  revert w. induction evs as [|ev evs IH]; intros w Hst; [done|].
  simpl. apply IH. by apply step_stranded.
Qed.

(** A [load] that finds the entry LOADING leaves its instance in
    LOADING. *)
Lemma load_waits (c : nat) (w : World) (i : Instance) (entry : IStorageItem.t) :
  instances w !! c = Some i -> isActive i = true ->
  IProps.cacheRequests (props i) = true ->
  cacheStore w !! IProps.src (props i) = Some entry ->
  IStorageItem.status entry = LOADING ->
  let w' := load host c w in
  issued w' = issued w /\ inflight w' = inflight w
  /\ calls (log w') = calls (log w) /\ errors (log w') = errors (log w)
  /\ instances w' !! c = Some (set_state (loading_state (state i)) i)
  /\ cacheStore w' !! IProps.src (props i)
     = Some {| IStorageItem.content := IStorageItem.content entry;
               IStorageItem.status := LOADING;
               IStorageItem.queue := IStorageItem.queue entry ++ [c] |}.
Proof.
  intros Hi Ha Hc He Hs w'. unfold w'.
  rewrite (load_active host c w i Hi Ha). cbv zeta. rewrite Hc, He, Hs.
  destruct (setState_touches host c loading_state w) as (Hn & _).
  destruct (setState_calls host c loading_state w) as [Hcalls Herrs].
  pose proof (setState_lookup host c loading_state w i Hi) as Hi1.
  injection Hn as Hcs Hfl Hiss. simpl.
  by rewrite lookup_insert_eq.
Qed.

End Stranded.

(** C3: the code keeps the entry of a fetch that fails at the call.  A
    cached fetch whose [fetch(src)] raises before it returns a promise is
    caught by the outer [catch] of [request], and that one, unlike the
    [catch] of the promise, does not delete the entry.  When an instance with a source for the
    network is mounted on such a host, with caching and no entry for the
    source, the entry that [request] has just written stays in the cache,
    LOADING and with an empty queue, nothing is in flight, and the error
    is reported to the instance.  The entry is never taken out again:
    after any run of events it is still LOADING, and a [load] of the
    source by an instance that caches starts no fresh attempt, it joins
    the queue, calls no [fetch], reports nothing and leaves its instance
    in LOADING. *)
Theorem fetch_call_failure_keeps_entry (host : Host) (w : World) (c : nat)
  (i : Instance) (e : Error) :
  reachable host w ->
  canUseDOM host = true -> isSupportedEnvironment host = true ->
  instances w !! c = Some i -> lifecycle i = Constructed ->
  IProps.cacheRequests (props i) = true ->
  IProps.src (props i) <> [] ->
  goes_to_network (IProps.src (props i)) = true ->
  cacheStore w !! IProps.src (props i) = None ->
  fetch_throws host (IProps.src (props i)) = Some e ->
  let src := IProps.src (props i) in
  let w' := step host w (Mount c) in
  cacheStore w' !! src = Some loading_entry
  /\ inflight w' = inflight w
  /\ issued w' = S (issued w)
  /\ (IState.status ∘ state) <$> instances w' !! c
     = Some (error_status (mk_error (message e)))
  /\ errors (log w')
     = errors (log w)
       ++ (if IProps.onError (props i) then [(c, mk_error (message e))] else [])
  /\ (forall evs,
        let w'' := run host w' evs in
        (exists entry, cacheStore w'' !! src = Some entry
                       /\ IStorageItem.status entry = LOADING)
        /\ (forall c', subscribes src w'' c' ->
                       let w3 := load host c' w'' in
                       issued w3 = issued w'' /\ inflight w3 = inflight w''
                       /\ calls (log w3) = calls (log w'')
                       /\ errors (log w3) = errors (log w'')
                       /\ (IState.status ∘ state) <$> instances w3 !! c'
                          = Some LOADING)).
Proof.
  intros Hreach Hdom Hsup Hi Hl Hc Hsrc Hnet Hmiss Hf src w'.
  pose proof (reachable_cache_inv host w Hreach) as Hinv.
  destruct (reachable_instance_ok host w c i Hreach Hi) as (_ & _ & Hpend).
  specialize (Hpend Hl).
  set (i0 := set_phase true Mounted i).
  set (w0 := set_instances <[c := i0]> w).
  assert (w' = load host c w0) as Hw'.
  { unfold w'. simpl. unfold componentDidMount.
    rewrite Hi, Hl, Hdom, Hpend, Hsup. cbn [negb].
    by rewrite (truthy_nonempty _ Hsrc). }
  assert (instances w0 !! c = Some i0) as Hi0
    by (unfold w0; simpl; apply lookup_insert_eq).
  assert ((if IProps.cacheRequests (props i0)
           then cacheStore w0 !! IProps.src (props i0) else None) = None) as Hmiss0
    by (simpl; by rewrite Hc).
  destruct (load_request_throws host c w0 i0 e Hi0 eq_refl Hmiss0 Hnet Hf)
    as (Hn & Hi' & _ & He & _).
  rewrite <- Hw' in Hn, Hi', He. injection Hn as Hcs Hfl Hiss.
  assert (cacheStore w' !! src = Some loading_entry) as Hentry.
  { rewrite Hcs. simpl. rewrite Hc. apply lookup_insert_eq. }
  split; [exact Hentry|]. split; [exact Hfl|]. split; [exact Hiss|].
  split; [by rewrite Hi'|]. split; [exact He|].
  assert (stranded src w') as Hst.
  { split; [by exists loading_entry|]. rewrite Hfl. simpl.
    intros id r Hr Hcr Heq.
    destruct (inv_entry _ Hinv id r Hr Hcr) as (entry & Hentry' & _).
    simpl in Hentry'. rewrite Heq in Hentry'. unfold src in Hentry'. congruence. }
  intros evs w''. pose proof (run_stranded host src evs w' Hst) as Hst''.
  fold w'' in Hst''. destruct Hst'' as [(entry & Hent & Hs) _].
  split; [by exists entry|].
  intros c' (i' & Hi'' & Ha' & Hc' & Hsrc') w3.
  rewrite <- Hsrc' in Hent.
  destruct (load_waits host c' w'' i' entry Hi'' Ha' Hc' Hent Hs)
    as (H1 & H2 & H3 & H4 & H5 & _).
  fold w3 in H1, H2, H3, H4, H5. by rewrite H5.
Qed.

Lemma fetch_call_failure_witness :
  let src := lit "https://x/a.svg" in
  let w := run host_without_fetch init_world
             [Construct 0 (example_props src) (lit "r");
              Construct 1 (example_props src) (lit "r")] in
  let w' := step host_without_fetch w (Mount 0) in
  let w'' := run host_without_fetch w' [Mount 1] in
  cacheStore w' !! src = Some loading_entry
  /\ inflight w' = ∅
  /\ errors (log w') = [(0, mk_error (lit "fetch is not defined"))]
  /\ (IState.status ∘ state) <$> instances w' !! 0 = Some FAILED
  /\ cacheStore w'' !! src
     = Some {| IStorageItem.content := []; IStorageItem.status := LOADING;
               IStorageItem.queue := [1] |}
  /\ issued (load host_without_fetch 1 w'') = issued w''
  /\ (IState.status ∘ state) <$> instances (load host_without_fetch 1 w'') !! 1
     = Some LOADING.
Proof.
  intros src w w' w''.
  assert (reachable host_without_fetch w) as Hreach
    by (apply reachable_run; constructor).
  destruct (fetch_call_failure_keeps_entry host_without_fetch w 0
              (instance_of w 0)
              {| err_class := NativeError; message := lit "fetch is not defined" |}
              Hreach)
    as (Hentry & Hfl & _ & Hstat & Herr & Hrun);
    [reflexivity|reflexivity|vm_compute; reflexivity|reflexivity|reflexivity
    |vm_compute; discriminate|vm_compute; reflexivity|vm_compute; reflexivity
    |reflexivity|].
  destruct (Hrun [Mount 1]) as [_ Hload].
  destruct (Hload 1) as (Hiss & _ & _ & _ & Hwait).
  { exists (instance_of w'' 1). vm_compute. repeat split; reflexivity. }
  split; [exact Hentry|]. split; [exact Hfl|]. split; [exact Herr|].
  split; [exact Hstat|]. split; [vm_compute; reflexivity|].
  split; [exact Hiss|exact Hwait].
Defined.
